(** * Mobility dashboard: the aggregation and normalization engine

    A shallow embedding of the data transformations of
    [components/Dashboard.tsx] (with the record type of [types.ts]):
    [calculateCountryAggregates], [calculateRegionAsAggregate],
    [getNormalizedSeries], [calculateStats], [comparisonChartData],
    [countryComparisonChartData] and [sortedMatrix], of the selections that
    the dashboard derives from them, and of [services/dataService.ts].

    Modelling conventions.
    - A JS [number] is an exact rational ([Q]); equality of computed numbers
      is [Qeq].  Operations that would leave the finite numbers (a division
      by zero, [Math.max()] of no argument) and property reads on
      [undefined] are made explicit in the [outcome] type, so that "returns
      a value" is a statement to prove and not an artefact of the model.
    - A JS [Map] is an association list in insertion order.
    - [null] results are [None] under [Ok]; [T | null] fields are
      [Nullable T]; optional fields ([f?: T]) are [option T].
    - [new Date(s).getTime()] is a parameter [getTime] of the development
      ([None] is NaN); [isoTime] is the instance for the [YYYY-MM-DD]
      strings that [types.ts] documents.
    - What depends on how the engine computes is embedded a second time, in
      [Machine]: there a number is a binary64 value, an infinity or NaN,
      every operation rounds its exact result to the nearest binary64 value,
      and a call that spreads an array into its arguments throws a
      [RangeError] beyond the engine's argument limit.  The texts of
      [calculateStats], what the parser keeps of a cell that is no number,
      and which calls throw are stated there. *)

From Stdlib Require Import ZArith QArith Qminmax Qround Qabs Qpower Lqa OrdersEx.
From Stdlib Require Import String Ascii DecimalString DecimalPos DecimalN.
From Stdlib Require Import List Lia Permutation Sorting.
From Stdlib Require SpecFloat.
From stdpp Require Import base option list strings sorting gmap.
Import ListNotations.

Local Open Scope string_scope.
Local Open Scope list_scope.
Local Open Scope nat_scope.

(** * The embedding *)

(** ** Outcomes of a JS computation *)

Inductive outcome (A : Type) : Type :=
| Ok (a : A)
| TypeError          (* property access on [undefined] *)
| NotFinite          (* a number that is NaN or an infinity *)
| RangeError.        (* more call arguments than the engine takes *)
Arguments Ok {A} a.
Arguments TypeError {A}.
Arguments NotFinite {A}.
Arguments RangeError {A}.

#[global] Instance outcome_bind : MBind outcome := fun A B k m =>
  match m with
  | Ok a => k a
  | TypeError => TypeError
  | NotFinite => NotFinite
  | RangeError => RangeError
  end.

(** [o!.f]: reading through a possibly undefined reference. *)
Definition unwrap {A} (o : option A) : outcome A :=
  match o with Some a => Ok a | None => TypeError end.

Fixpoint mapM {A B} (f : A -> outcome B) (l : list A) : outcome (list B) :=
  match l with
  | [] => Ok []
  | x :: l' => y ← f x; ys ← mapM f l'; Ok (y :: ys)
  end.

(** [forEach] with a body that updates the captured state. *)
Fixpoint forEach {A S} (body : S -> A -> outcome S) (l : list A) (s : S) : outcome S :=
  match l with
  | [] => Ok s
  | x :: l' => s' ← body s x; forEach body l' s'
  end.

(** ** Numbers *)

(** [x / n] for a count [n]; JS yields NaN or an infinity when [n] is 0. *)
Definition div (x : Q) (n : nat) : outcome Q :=
  if Nat.eqb n 0 then NotFinite else Ok (x / inject_Z (Z.of_nat n))%Q.

(** [vals.reduce((a, b) => a + b, 0)] *)
Definition reduce_add (vals : list Q) : Q := fold_left Qplus vals 0%Q.

(** [Math.max(...vals)] and [Math.min(...vals)] on exact numbers; on no
    argument JS gives [-Infinity], resp. [Infinity].  The argument limit of
    the engine is in [Machine.Math_max] and [Machine.Math_min]. *)
Definition Math_max (vals : list Q) : outcome Q :=
  match vals with
  | [] => NotFinite
  | v :: vs => Ok (fold_left Qmax vs v)
  end.

Definition Math_min (vals : list Q) : outcome Q :=
  match vals with
  | [] => NotFinite
  | v :: vs => Ok (fold_left Qmin vs v)
  end.

(** [a < b] on numbers. *)
Definition Qltb (a b : Q) : bool := negb (Qle_bool b a).

(** ** [Number.prototype.toFixed(1)]

    For [|x| < 10^21]: the sign, then the integer [n] with [n / 10] closest
    to [|x|] (the larger one on a tie), written with one digit after the
    point.  From [10^21] on JS writes the number in exponent form, which is
    kept as such. *)

Inductive NumberText : Type :=
| Digits (s : string)
| ExponentForm (x : Q).

(** The decimal numeral of [n >= 0]. *)
Definition decimal (n : Z) : string := NilZero.string_of_uint (N.to_uint (Z.to_N n)).

(** The integer [n] with [n / 10] closest to [x >= 0], ties upwards. *)
Definition nearest_tenths (x : Q) : Z :=
  Qfloor (x * 10 + (1 # 2))%Q.

Definition toFixed1 (x : Q) : NumberText :=
  let a := Qabs x in
  if Qle_bool (inject_Z (10 ^ 21)) a then ExponentForm x
  else
    let n := nearest_tenths a in
    let m := decimal (n / 10) +:+ "." +:+ decimal (n mod 10) in
    Digits (if Qltb x 0 then "-" +:+ m else m).

(** ** Dates *)

(** [Date.parse] on the date-only form [YYYY-MM-DD] (UTC midnight, in
    milliseconds since the epoch); [None] is NaN. *)

Definition digit (c : ascii) : option Z :=
  let n := Z.of_N (N_of_ascii c) in
  if ((48 <=? n) && (n <=? 57))%Z then Some (n - 48)%Z else None.

Definition number2 (a b : ascii) : option Z :=
  match digit a, digit b with
  | Some x, Some y => Some (10 * x + y)%Z
  | _, _ => None
  end.

Definition InLeapYear (y : Z) : bool :=
  ((y mod 4 =? 0) && (negb (y mod 100 =? 0) || (y mod 400 =? 0)))%Z.

Definition DayFromYear (y : Z) : Z :=
  (365 * (y - 1970) + (y - 1969) / 4 - (y - 1901) / 100 + (y - 1601) / 400)%Z.

Definition DaysInMonth (y m : Z) : Z :=
  (if m =? 2 then (if InLeapYear y then 29 else 28)
   else if (m =? 4) || (m =? 6) || (m =? 9) || (m =? 11) then 30 else 31)%Z.

Definition DayWithinYear (y m : Z) : Z :=
  (nth (Z.to_nat (m - 1)) [0; 31; 59; 90; 120; 151; 181; 212; 243; 273; 304; 334] 0
   + (if InLeapYear y && (3 <=? m) then 1 else 0))%Z.

Definition MakeDay (y m d : Z) : Z := (DayFromYear y + DayWithinYear y m + d - 1)%Z.

Definition msPerDay : Z := 86400000.

Definition isoTime (s : string) : option Z :=
  match s with
  | String y1 (String y2 (String y3 (String y4 (String "-"
      (String m1 (String m2 (String "-" (String d1 (String d2 EmptyString))))))))) =>
      match number2 y1 y2, number2 y3 y4, number2 m1 m2, number2 d1 d2 with
      | Some yh, Some yl, Some m, Some d =>
          let y := (100 * yh + yl)%Z in
          if ((1 <=? m) && (m <=? 12) && (1 <=? d) && (d <=? DaysInMonth y m))%Z
          then Some (MakeDay y m d * msPerDay)%Z
          else None
      | _, _, _, _ => None
      end
  | _ => None
  end.

(** ** Data model *)

(** [types.ts]: one raw observation. *)
Record MovementRecord := {
  ds : string;
  country : string;
  polygon_source : string;
  polygon_id : string;
  polygon_name : string;
  all_day_bing_tiles_visited_relative_change : Q;
  all_day_ratio_single_tile_users : Q;
  baseline_name : string;
  baseline_type : string
}.

(** The per-date accumulator of [calculateCountryAggregates]. *)
Record DateEntry := { count : nat; mobSum : Q; staySum : Q }.

Record RegionStats := {
  name : string;
  avgMobility : Q;
  avgStay : Q;
  maxStay : Q;
  minMobility : Q;
  dataPoints : nat
}.

Module Trend.
Record t := mk { ds : string; avgMobility : Q; avgStay : Q }.
End Trend.

Record CountryAggregate := {
  trend : list Trend.t;
  matrix : list RegionStats;
  totalRegions : nat
}.

Module Norm.
Record t := mk { ds : string; mobility : Q; stay : Q; baseline_type : option string }.
End Norm.
Abbreviation NormalizedDataPoint := Norm.t.

Inductive Nullable (A : Type) : Type := Null | NotNull (a : A).
Arguments Null {A}.
Arguments NotNull {A} a.

Module Chart.
Record t := mk {
  ds : string;
  primary_mobility : Nullable Q;
  primary_stay : Nullable Q;
  primary_label : option string;
  secondary_mobility : option Q;
  secondary_stay : option Q;
  secondary_label : option string
}.
End Chart.
Abbreviation ChartDataPoint := Chart.t.

Module Stats.
Record t := mk {
  avgMobility : NumberText;
  maxStayHome : NumberText;
  count : nat;
  start : string;
  end_ : string
}.
End Stats.

Definition WHOLE_COUNTRY_OPTION : string := "(Whole Country Average)".

(** [!s] for a string: only the empty string is falsy. *)
Definition falsy (s : string) : bool := String.eqb s "".

(** ** JS [Map] with string keys: entries in insertion order *)

Section JsMap.
Context {V : Type}.

Definition Map := list (string * V).

Fixpoint Map_get (k : string) (m : Map) : option V :=
  match m with
  | [] => None
  | (k', v) :: m' => if String.eqb k' k then Some v else Map_get k m'
  end.

Definition Map_has (k : string) (m : Map) : bool :=
  match Map_get k m with Some _ => true | None => false end.

(** [set] overwrites the value of a present key where it stands and appends
    a new key at the end. *)
Fixpoint Map_set (k : string) (v : V) (m : Map) : Map :=
  match m with
  | [] => [(k, v)]
  | (k', v') :: m' =>
      if String.eqb k' k then (k', v) :: m' else (k', v') :: Map_set k v m'
  end.

Definition Map_entries (m : Map) : list (string * V) := m.
Definition Map_values (m : Map) : list V := map snd m.
Definition Map_size (m : Map) : nat := length m.

End JsMap.
Arguments Map V : clear implicits.

(** ** [Array.prototype.sort] with a comparator

    The sort is stable; a comparator result of NaN counts as 0.  Insertion
    from the right keeps equal elements in their original order. *)

Section Sort.
Context {A : Type} (comparefn : A -> A -> option Z).

Definition SortCompare (x y : A) : Z :=
  match comparefn x y with Some v => v | None => 0%Z end.

Fixpoint sort_insert (x : A) (l : list A) : list A :=
  match l with
  | [] => [x]
  | y :: l' => if (SortCompare x y <=? 0)%Z then x :: y :: l' else y :: sort_insert x l'
  end.

Fixpoint sortBy (l : list A) : list A :=
  match l with
  | [] => []
  | x :: l' => sort_insert x (sortBy l')
  end.

End Sort.

(** ** The engine *)

Section Engine.

(** [new Date(s).getTime()]; [None] is NaN. *)
Variable getTime : string -> option Z.

(** [new Date(a).getTime() - new Date(b).getTime()] *)
Definition dateDiff (a b : string) : option Z :=
  match getTime a, getTime b with
  | Some x, Some y => Some (x - y)%Z
  | _, _ => None
  end.

(** *** [calculateCountryAggregates] *)

(** The body of [raw.forEach]: the entry objects are updated in place, which
    for a map that holds the only reference to them is a [set] of the
    updated entry at its key. *)
Definition accumulate (st : Map DateEntry * Map RegionStats) (r : MovementRecord)
  : outcome (Map DateEntry * Map RegionStats) :=
  let '(dateMap, regionMap) := st in
  let mob := all_day_bing_tiles_visited_relative_change r in
  let sty := all_day_ratio_single_tile_users r in
  (* Trend accumulation *)
  let dateMap :=
    if Map_has (ds r) dateMap then dateMap
    else Map_set (ds r) {| count := 0; mobSum := 0; staySum := 0 |} dateMap in
  dEntry ← unwrap (Map_get (ds r) dateMap);
  let dateMap :=
    Map_set (ds r)
      {| count := S (count dEntry);
         mobSum := (mobSum dEntry + mob)%Q;
         staySum := (staySum dEntry + sty)%Q |} dateMap in
  (* Region accumulation *)
  let regionMap :=
    if Map_has (polygon_name r) regionMap then regionMap
    else Map_set (polygon_name r)
           {| name := polygon_name r; avgMobility := 0; avgStay := 0;
              maxStay := (-1)%Q; minMobility := 999%Q; dataPoints := 0 |} regionMap in
  rEntry ← unwrap (Map_get (polygon_name r) regionMap);
  let regionMap :=
    Map_set (polygon_name r)
      {| name := name rEntry;
         avgMobility := (avgMobility rEntry + mob)%Q;
         avgStay := (avgStay rEntry + sty)%Q;
         maxStay := Qmax (maxStay rEntry) sty;
         minMobility := Qmin (minMobility rEntry) mob;
         dataPoints := S (dataPoints rEntry) |} regionMap in
  Ok (dateMap, regionMap).

Definition finalizeTrend (e : string * DateEntry) : outcome Trend.t :=
  let '(ds, val) := e in
  m ← div (mobSum val) (count val);
  s ← div (staySum val) (count val);
  Ok (Trend.mk ds m s).

Definition finalizeMatrix (r : RegionStats) : outcome RegionStats :=
  m ← div (avgMobility r) (dataPoints r);
  s ← div (avgStay r) (dataPoints r);
  Ok {| name := name r; avgMobility := m; avgStay := s;
        maxStay := maxStay r; minMobility := minMobility r;
        dataPoints := dataPoints r |}.

Definition calculateCountryAggregates (data : list MovementRecord) (country0 : string)
  : outcome (option CountryAggregate) :=
  if falsy country0 then Ok None
  else
    let raw := List.filter (fun d => String.eqb (country d) country0) data in
    if Nat.eqb (length raw) 0 then Ok None
    else
      '(dateMap, regionMap) ← forEach accumulate raw ([], []);
      trend ← mapM finalizeTrend (Map_entries dateMap);
      let trend := sortBy (fun a b => dateDiff (Trend.ds a) (Trend.ds b)) trend in
      matrix ← mapM finalizeMatrix (Map_values regionMap);
      Ok (Some {| trend := trend; matrix := matrix; totalRegions := Map_size regionMap |}).

(** *** [calculateRegionAsAggregate] *)

Definition calculateRegionAsAggregate (dataset : list NormalizedDataPoint) (regionName : string)
  : outcome (option CountryAggregate) :=
  if Nat.eqb (length dataset) 0 then Ok None
  else
    let trend := map (fun d => Trend.mk (Norm.ds d) (Norm.mobility d) (Norm.stay d)) dataset in
    let mobilityVals := map Norm.mobility dataset in
    let stayVals := map Norm.stay dataset in
    avgMobility ← div (reduce_add mobilityVals) (length mobilityVals);
    avgStay ← div (reduce_add stayVals) (length stayVals);
    minMobility ← Math_min mobilityVals;
    maxStay ← Math_max stayVals;
    let matrix :=
      [ {| name := regionName; avgMobility := avgMobility; avgStay := avgStay;
           maxStay := maxStay; minMobility := minMobility;
           dataPoints := length dataset |} ] in
    Ok (Some {| trend := trend; matrix := matrix; totalRegions := 1 |}).

(** *** [getNormalizedSeries] (a closure over the loaded [data]) *)

Definition getNormalizedSeries (data : list MovementRecord) (c r : string)
  : outcome (list NormalizedDataPoint) :=
  if falsy c || falsy r then Ok []
  else if String.eqb r WHOLE_COUNTRY_OPTION then
    agg ← calculateCountryAggregates data c;
    match agg with
    | None => Ok []
    | Some agg =>
        Ok (map (fun t => Norm.mk (Trend.ds t) (Trend.avgMobility t) (Trend.avgStay t)
                            (Some "AVERAGE"))
              (trend agg))
    end
  else
    let filtered :=
      List.filter (fun d => String.eqb (country d) c && String.eqb (polygon_name d) r) data in
    Ok (map (fun d => Norm.mk (ds d) (all_day_bing_tiles_visited_relative_change d)
                        (all_day_ratio_single_tile_users d) (Some (baseline_type d)))
          (sortBy (fun a b => dateDiff (ds a) (ds b)) filtered)).

(** *** [calculateStats]

    On exact numbers: what the summary counts and which dates it reads.
    Its two texts as the engine computes them are those of
    [Machine.calculateStats]. *)

Definition calculateStats (dataset : list NormalizedDataPoint) : outcome (option Stats.t) :=
  if Nat.eqb (length dataset) 0 then Ok None
  else
    let mobilityChanges := map Norm.mobility dataset in
    let stayHomeRatios := map Norm.stay dataset in
    avgMobility ← div (reduce_add mobilityChanges) (length mobilityChanges);
    maxStayHome ← Math_max stayHomeRatios;
    first ← unwrap (dataset !! 0);
    last ← unwrap (dataset !! (length dataset - 1));
    Ok (Some (Stats.mk (toFixed1 (avgMobility * 100)) (toFixed1 (maxStayHome * 100))
                (length dataset) (Norm.ds first) (Norm.ds last))).

End Engine.

(** ** The Comparison Merger *)

Inductive CompareType := compare_country | compare_region.

Section Comparison.
Variable getTime : string -> option Z.

(** [comparisonChartData]: the join of the primary and the secondary
    normalized series. *)
Definition comparisonChartData (primaryData secondaryData : list NormalizedDataPoint)
    (isCompareMode : bool)
    (selectedRegion selectedCountry selectedRegion2 selectedCountry2 : string)
  : list ChartDataPoint :=
  let dataMap : Map ChartDataPoint := [] in
  let dataMap :=
    fold_left
      (fun dataMap d =>
         Map_set (Norm.ds d)
           (Chart.mk (Norm.ds d) (NotNull (Norm.mobility d)) (NotNull (Norm.stay d))
              (Some (if String.eqb selectedRegion WHOLE_COUNTRY_OPTION
                     then selectedCountry +:+ " (Avg)" else selectedRegion))
              None None None)
           dataMap)
      primaryData dataMap in
  let dataMap :=
    if isCompareMode && (0 <? length secondaryData) then
      fold_left
        (fun dataMap d =>
           let existing :=
             match Map_get (Norm.ds d) dataMap with
             | Some e => e
             | None => Chart.mk (Norm.ds d) Null Null None None None None
             end in
           Map_set (Norm.ds d)
             (Chart.mk (Chart.ds existing) (Chart.primary_mobility existing)
                (Chart.primary_stay existing) (Chart.primary_label existing)
                (Some (Norm.mobility d)) (Some (Norm.stay d))
                (Some (if String.eqb selectedRegion2 WHOLE_COUNTRY_OPTION
                       then selectedCountry2 +:+ " (Avg)" else selectedRegion2)))
             dataMap)
        secondaryData dataMap
    else dataMap in
  sortBy (fun a b => dateDiff getTime (Chart.ds a) (Chart.ds b)) (Map_values dataMap).

(** [countryComparisonChartData]: the join of two trends. *)
Definition countryComparisonChartData (countryOverviewData1 countryOverviewData2 : option CountryAggregate)
    (isCountryCompareMode : bool) (countryViewCountry countryViewCountry2 : string)
    (countryCompareType : CompareType) (countryViewRegion : string)
  : list ChartDataPoint :=
  match countryOverviewData1 with
  | None => []
  | Some countryOverviewData1 =>
      let dataMap : Map ChartDataPoint := [] in
      let dataMap :=
        fold_left
          (fun dataMap d =>
             Map_set (Trend.ds d)
               (Chart.mk (Trend.ds d) (NotNull (Trend.avgMobility d)) (NotNull (Trend.avgStay d))
                  (Some countryViewCountry) None None None)
               dataMap)
          (trend countryOverviewData1) dataMap in
      let dataMap :=
        match isCountryCompareMode, countryOverviewData2 with
        | true, Some countryOverviewData2 =>
            let secondaryLabel :=
              match countryCompareType with
              | compare_country => countryViewCountry2
              | compare_region => countryViewRegion
              end in
            fold_left
              (fun dataMap d =>
                 let existing :=
                   match Map_get (Trend.ds d) dataMap with
                   | Some e => e
                   | None => Chart.mk (Trend.ds d) Null Null (Some countryViewCountry)
                               None None None
                   end in
                 Map_set (Trend.ds d)
                   (Chart.mk (Chart.ds existing) (Chart.primary_mobility existing)
                      (Chart.primary_stay existing) (Chart.primary_label existing)
                      (Some (Trend.avgMobility d)) (Some (Trend.avgStay d))
                      (Some secondaryLabel))
                   dataMap)
              (trend countryOverviewData2) dataMap
        | _, _ => dataMap
        end in
      sortBy (fun a b => dateDiff getTime (Chart.ds a) (Chart.ds b)) (Map_values dataMap)
  end.

End Comparison.

(** ** The Matrix Sorter *)

Inductive SortKey :=
| key_name | key_avgMobility | key_avgStay | key_maxStay | key_minMobility | key_dataPoints.

Inductive Direction := asc | desc.

Inductive MatrixTab := tab_primary | tab_secondary.

(** [a[key] < b[key]]: string order on [name], numeric order elsewhere. *)
Definition field_lt (key : SortKey) (a b : RegionStats) : bool :=
  match key with
  | key_name => String.ltb (name a) (name b)
  | key_avgMobility => Qltb (avgMobility a) (avgMobility b)
  | key_avgStay => Qltb (avgStay a) (avgStay b)
  | key_maxStay => Qltb (maxStay a) (maxStay b)
  | key_minMobility => Qltb (minMobility a) (minMobility b)
  | key_dataPoints => Nat.ltb (dataPoints a) (dataPoints b)
  end.

(** The comparator of [sortable.sort]. *)
Definition compareRegions (sortConfig : SortKey * Direction) (a b : RegionStats) : option Z :=
  let '(key, direction) := sortConfig in
  if field_lt key a b then Some (match direction with asc => -1 | desc => 1 end)%Z
  else if field_lt key b a then Some (match direction with asc => 1 | desc => -1 end)%Z
  else Some 0%Z.

Definition activeData (matrixTab : MatrixTab) (isCountryCompareMode : bool)
    (countryOverviewData1 countryOverviewData2 : option CountryAggregate)
  : option CountryAggregate :=
  match matrixTab, isCountryCompareMode, countryOverviewData2 with
  | tab_secondary, true, Some d => Some d
  | _, _, _ => countryOverviewData1
  end.

(** [sortedMatrix], on values. *)
Definition sortedMatrix (activeData : option CountryAggregate)
    (sortConfig : option (SortKey * Direction)) : list RegionStats :=
  match activeData with
  | None => []
  | Some d =>
      let sortable := matrix d in
      match sortConfig with
      | Some c => sortBy (compareRegions c) sortable
      | None => sortable
      end
  end.

(** ** The Matrix Sorter in memory

    Arrays and row objects live in a heap: an array holds references to
    row objects, [[...arr]] allocates a new array with the same references
    and [sort] permutes the array it is called on. *)

Abbreviation loc := positive.

Record Heap := mkHeap {
  objects : gmap loc RegionStats;
  arrays : gmap loc (list loc)
}.

(** [[...arr]] *)
Definition spread (h : Heap) (arr : loc) : outcome (Heap * loc) :=
  elems ← unwrap (arrays h !! arr);
  let copy := fresh (dom (arrays h)) in
  Ok (mkHeap (objects h) (<[copy := elems]> (arrays h)), copy).

(** The comparator on references reads the fields of the objects. *)
Definition compareRefs (h : Heap) (cmp : RegionStats -> RegionStats -> option Z)
    (x y : loc) : option Z :=
  match objects h !! x, objects h !! y with
  | Some a, Some b => cmp a b
  | _, _ => None
  end.

(** [arr.sort(cmp)]: in place. *)
Definition sortInPlace (cmp : RegionStats -> RegionStats -> option Z) (h : Heap) (arr : loc)
  : outcome Heap :=
  elems ← unwrap (arrays h !! arr);
  Ok (mkHeap (objects h) (<[arr := sortBy (compareRefs h cmp) elems]> (arrays h))).

(** [sortedMatrix] on the heap; [activeMatrix] is [activeData?.matrix]. *)
Definition sortedMatrixIn (h : Heap) (activeMatrix : option loc)
    (sortConfig : option (SortKey * Direction)) : outcome (Heap * loc) :=
  match activeMatrix with
  | None =>
      let empty := fresh (dom (arrays h)) in
      Ok (mkHeap (objects h) (<[empty := []]> (arrays h)), empty)
  | Some m =>
      '(h, sortable) ← spread h m;
      match sortConfig with
      | Some c => h ← sortInPlace (compareRegions c) h sortable; Ok (h, sortable)
      | None => Ok (h, sortable)
      end
  end.

(** ** [services/dataService.ts] *)

(** A JS [Set] of strings: the members in insertion order. *)
Fixpoint Set_add (x : string) (s : list string) : list string :=
  match s with
  | [] => [x]
  | y :: s' => if String.eqb y x then y :: s' else y :: Set_add x s'
  end.

(** [Array.from(new Set(xs))] *)
Definition Set_from (xs : list string) : list string :=
  fold_left (fun s x => Set_add x s) xs [].

(** The comparison of [sort()] without a comparator, on strings. *)
Definition defaultCompare (a b : string) : option Z :=
  if String.ltb a b then Some (-1)%Z
  else if String.ltb b a then Some 1%Z
  else Some 0%Z.

Definition getUniqueCountries (data : list MovementRecord) : list string :=
  sortBy defaultCompare (Set_from (map country data)).

Definition getRegionsByCountry (data : list MovementRecord) (country0 : string) : list string :=
  sortBy defaultCompare
    (Set_from (map polygon_name (List.filter (fun d => String.eqb (country d) country0) data))).

(** A row object of [tsvParse]: a column that the header lacks reads as
    [undefined]. *)
Record RawRow := {
  raw_ds : option string;
  raw_country : option string;
  raw_polygon_source : option string;
  raw_polygon_id : option string;
  raw_polygon_name : option string;
  raw_all_day_bing_tiles_visited_relative_change : option string;
  raw_all_day_ratio_single_tile_users : option string;
  raw_baseline_name : option string;
  raw_baseline_type : option string
}.

(** ** The state of the dashboard *)

(** [l.includes(x)] *)
Definition includes (l : list string) (x : string) : bool := existsb (String.eqb x) l.

(** [l[0] || ''] *)
Definition firstOrEmpty (l : list string) : string :=
  match l with x :: _ => x | [] => "" end.

(** [primaryRegions] and [secondaryRegions] *)
Definition regionOptions (data : list MovementRecord) (selectedCountry : string) : list string :=
  WHOLE_COUNTRY_OPTION :: getRegionsByCountry data selectedCountry.

(** The effect that resets the primary region when the country changes: the
    next [selectedRegion]. *)
Definition resetSelectedRegion (selectedCountry : string) (primaryRegions : list string)
    (selectedRegion : string) : string :=
  if negb (falsy selectedCountry) && negb (includes primaryRegions selectedRegion)
  then firstOrEmpty primaryRegions
  else selectedRegion.

(** The same for the secondary region, in compare mode only. *)
Definition resetSelectedRegion2 (isCompareMode : bool) (selectedCountry2 : string)
    (secondaryRegions : list string) (selectedRegion2 : string) : string :=
  if isCompareMode && negb (falsy selectedCountry2)
     && negb (includes secondaryRegions selectedRegion2)
  then firstOrEmpty secondaryRegions
  else selectedRegion2.

(** The effect that picks the first region when the country view compares
    with a region: the next [countryViewRegion]. *)
Definition autoSelectRegion (countryCompareType : CompareType)
    (countryViewAvailableRegions : list string) (countryViewRegion : string) : string :=
  match countryCompareType, countryViewAvailableRegions with
  | compare_region, first :: _ =>
      if includes countryViewAvailableRegions countryViewRegion then countryViewRegion
      else first
  | _, _ => countryViewRegion
  end.

Section Overview.
Variable getTime : string -> option Z.

(** [primaryData] and [secondaryData] *)
Definition secondaryData (data : list MovementRecord) (isCompareMode : bool)
    (selectedCountry2 selectedRegion2 : string) : outcome (list NormalizedDataPoint) :=
  if isCompareMode then getNormalizedSeries getTime data selectedCountry2 selectedRegion2
  else Ok [].

(** [countryOverviewData2]: the aggregate the country view compares with. *)
Definition countryOverviewData2 (data : list MovementRecord) (isCountryCompareMode : bool)
    (countryCompareType : CompareType)
    (countryViewCountry countryViewCountry2 countryViewRegion : string)
  : outcome (option CountryAggregate) :=
  if negb isCountryCompareMode then Ok None
  else
    match countryCompareType with
    | compare_country => calculateCountryAggregates getTime data countryViewCountry2
    | compare_region =>
        regionSeries ← getNormalizedSeries getTime data countryViewCountry countryViewRegion;
        calculateRegionAsAggregate regionSeries countryViewRegion
    end.

End Overview.

(** The "Avg Mobility Change" card:
    [matrix.reduce((sum, r) => sum + r.avgMobility, 0) / totalRegions]. *)
Definition overviewAvgMobility (d : CountryAggregate) : outcome Q :=
  div (fold_left (fun sum r => (sum + avgMobility r)%Q) (matrix d) 0%Q) (totalRegions d).

(** The "Dataset Range" card: [trend[0]?.ds] and
    [trend[trend.length - 1]?.ds]. *)
Definition datasetRange (d : CountryAggregate) : option string * option string :=
  (option_map Trend.ds (trend d !! 0),
   option_map Trend.ds (trend d !! (length (trend d) - 1))).

Definition SortKey_eqb (a b : SortKey) : bool :=
  match a, b with
  | key_name, key_name | key_avgMobility, key_avgMobility | key_avgStay, key_avgStay
  | key_maxStay, key_maxStay | key_minMobility, key_minMobility
  | key_dataPoints, key_dataPoints => true
  | _, _ => false
  end.

(** [handleSort]: the next [sortConfig]. *)
Definition handleSort (sortConfig : option (SortKey * Direction)) (key : SortKey)
  : option (SortKey * Direction) :=
  let direction :=
    match sortConfig with
    | Some (k, asc) => if SortKey_eqb k key then desc else asc
    | _ => asc
    end in
  Some (key, direction).

(** * The embedding on the machine

    The functions whose results depend on how the engine computes.  Numbers
    are binary64 values; [+], [*] and [/] return the exact result rounded to
    the nearest binary64 value, ties to the even one; [f(...array)] throws a
    [RangeError] when the array is longer than the engine's argument limit. *)

Module Machine.

(** ** JS numbers *)

(** A number: a finite value, an infinity, or NaN.  A finite value is held
    as a rational and stands for the binary64 value nearest to it, itself
    when it is one; every operation takes that value first.  The sign of a
    zero is not kept: [toFixed] does not show it and no divisor below is a
    zero. *)
Inductive number :=
| Num (q : Q)
| Infinity (negative : bool)
| NaN.

(** [2^z] *)
Definition pow2 (z : Z) : Q :=
  if (0 <=? z)%Z then inject_Z (2 ^ z) else 1 # Z.to_pos (2 ^ (- z)).

(** The [e] with [2^e <= a < 2^(e+1)], for [a > 0]. *)
Definition log2floor (a : Q) : Z :=
  let k := (Z.log2 (Qnum a) - Z.log2 (Zpos (Qden a)))%Z in
  if Qle_bool (pow2 k) a then k else (k - 1)%Z.

(** The nearest integer, the even one of two. *)
Definition roundHalfEven (x : Q) : Z :=
  let f := Qfloor x in
  match Qcompare (x - inject_Z f) (1 # 2) with
  | Lt => f
  | Gt => (f + 1)%Z
  | Eq => if Z.even f then f else (f + 1)%Z
  end.

(** The binary64 value nearest to [q]: 53 significant bits, exponents from
    [-1022] (below it the subnormal values, spaced [2^-1074]) to [1023];
    what rounds to [2^1024] or beyond is an infinity. *)
Definition round64 (q : Q) : number :=
  let a := Qabs q in
  if Qeq_bool a 0 then Num 0
  else
    let e := Z.max (log2floor a) (-1022) in
    let ulp := pow2 (e - 52) in
    let r := (inject_Z (roundHalfEven (a / ulp)) * ulp)%Q in
    if Qle_bool (pow2 1024) r then Infinity (Qltb q 0)
    else Num (Qred (if Qltb q 0 then - r else r)).

(** The binary64 value that a number stands for. *)
Definition binary64 (x : number) : number :=
  match x with
  | Num q => round64 q
  | _ => x
  end.

(** [a + b] *)
Definition add (a b : number) : number :=
  match binary64 a, binary64 b with
  | NaN, _ | _, NaN => NaN
  | Infinity s, Infinity t => if Bool.eqb s t then Infinity s else NaN
  | Infinity s, Num _ | Num _, Infinity s => Infinity s
  | Num x, Num y => round64 (x + y)
  end.

(** [a * b] *)
Definition mul (a b : number) : number :=
  match binary64 a, binary64 b with
  | NaN, _ | _, NaN => NaN
  | Infinity s, Infinity t => Infinity (xorb s t)
  | Infinity s, Num y | Num y, Infinity s =>
      if Qeq_bool y 0 then NaN else Infinity (xorb s (Qltb y 0))
  | Num x, Num y => round64 (x * y)
  end.

(** [a / b], for a divisor that is not the negative zero. *)
Definition div (a b : number) : number :=
  match binary64 a, binary64 b with
  | NaN, _ | _, NaN => NaN
  | Infinity _, Infinity _ => NaN
  | Infinity s, Num y => Infinity (xorb s (Qltb y 0))
  | Num _, Infinity _ => Num 0
  | Num x, Num y =>
      if Qeq_bool y 0 then (if Qeq_bool x 0 then NaN else Infinity (Qltb x 0))
      else round64 (x / y)
  end.

(** The order of the values; false when either is NaN. *)
Definition below (a b : number) : bool :=
  match a, b with
  | NaN, _ | _, NaN => false
  | Infinity true, Infinity true => false
  | Infinity true, _ => true
  | _, Infinity true => false
  | Infinity false, _ => false
  | _, Infinity false => true
  | Num x, Num y => Qltb x y
  end.

(** [a < b] *)
Definition lt (a b : number) : bool := below (binary64 a) (binary64 b).

(** A count, such as [array.length], as a number. *)
Definition ofNat (n : nat) : number := Num (inject_Z (Z.of_nat n)).

(** [vals.reduce((a, b) => a + b, 0)] *)
Definition reduce_add (vals : list number) : number := fold_left add vals (Num 0).

(** [Math.max(a, b)] and [Math.min(a, b)]: NaN if either is. *)
Definition max2 (a b : number) : number :=
  match a, b with
  | NaN, _ | _, NaN => NaN
  | _, _ => if lt a b then b else a
  end.

Definition min2 (a b : number) : number :=
  match a, b with
  | NaN, _ | _, NaN => NaN
  | _, _ => if lt b a then b else a
  end.

(** [x.toFixed(1)]: the text of the exact value of [x] ([toFixed1] above),
    and the names of the values that are not finite. *)
Definition toFixed1 (x : number) : NumberText :=
  match binary64 x with
  | Num q => toFixed1 q
  | Infinity false => Digits "Infinity"
  | Infinity true => Digits "-Infinity"
  | NaN => Digits "NaN"
  end.

(** ** The data model, with machine numbers *)

Record MovementRecord := {
  ds : string;
  country : string;
  polygon_source : string;
  polygon_id : string;
  polygon_name : string;
  all_day_bing_tiles_visited_relative_change : number;
  all_day_ratio_single_tile_users : number;
  baseline_name : string;
  baseline_type : string
}.

Module Norm.
Record t := mk {
  ds : string;
  mobility : number;
  stay : number;
  baseline_type : option string
}.
End Norm.
Abbreviation NormalizedDataPoint := Norm.t.

Module Trend.
Record t := mk {
  ds : string;
  avgMobility : number;
  avgStay : number
}.
End Trend.

Record RegionStats := {
  name : string;
  avgMobility : number;
  avgStay : number;
  maxStay : number;
  minMobility : number;
  dataPoints : nat
}.

Record CountryAggregate := {
  trend : list Trend.t;
  matrix : list RegionStats;
  totalRegions : nat
}.

(** ** [calculateRegionAsAggregate] and [calculateStats] *)

Section Engine.

(** The number of arguments the engine takes in one call. *)
Variable argumentLimit : nat.

(** [Math.max(...vals)] and [Math.min(...vals)]: of no argument
    [-Infinity], resp. [Infinity]. *)
Definition Math_max (vals : list number) : outcome number :=
  if Nat.ltb argumentLimit (length vals) then RangeError
  else Ok (fold_left max2 vals (Infinity true)).

Definition Math_min (vals : list number) : outcome number :=
  if Nat.ltb argumentLimit (length vals) then RangeError
  else Ok (fold_left min2 vals (Infinity false)).

Definition calculateRegionAsAggregate (dataset : list NormalizedDataPoint) (regionName : string)
  : outcome (option CountryAggregate) :=
  if Nat.eqb (length dataset) 0 then Ok None
  else
    let trend := map (fun d => Trend.mk (Norm.ds d) (Norm.mobility d) (Norm.stay d)) dataset in
    let mobilityVals := map Norm.mobility dataset in
    let stayVals := map Norm.stay dataset in
    let avgMobility := div (reduce_add mobilityVals) (ofNat (length mobilityVals)) in
    let avgStay := div (reduce_add stayVals) (ofNat (length stayVals)) in
    minMobility ← Math_min mobilityVals;
    maxStay ← Math_max stayVals;
    let matrix :=
      [ {| name := regionName; avgMobility := avgMobility; avgStay := avgStay;
           maxStay := maxStay; minMobility := minMobility;
           dataPoints := length dataset |} ] in
    Ok (Some {| trend := trend; matrix := matrix; totalRegions := 1 |}).

Definition calculateStats (dataset : list NormalizedDataPoint) : outcome (option Stats.t) :=
  if Nat.eqb (length dataset) 0 then Ok None
  else
    let mobilityChanges := map Norm.mobility dataset in
    let stayHomeRatios := map Norm.stay dataset in
    let avgMobility := div (reduce_add mobilityChanges) (ofNat (length mobilityChanges)) in
    maxStayHome ← Math_max stayHomeRatios;
    first ← unwrap (dataset !! 0);
    last ← unwrap (dataset !! (length dataset - 1));
    Ok (Some (Stats.mk (toFixed1 (mul avgMobility (Num 100)))
                (toFixed1 (mul maxStayHome (Num 100)))
                (length dataset) (Norm.ds first) (Norm.ds last))).

End Engine.

(** ** [parseMovementData] *)

Section Parser.

(** The rows that d3-dsv's [tsvParse] reads from a text, and [parseFloat]. *)
Variable tsvRows : string -> list RawRow.
Variable parseFloat : string -> number.

(** [d.f || ''] *)
Definition orEmpty (o : option string) : string :=
  match o with Some s => s | None => "" end.

(** [d.f ? parseFloat(d.f) : 0] *)
Definition numberOrZero (o : option string) : number :=
  match o with
  | Some s => if falsy s then Num 0 else parseFloat s
  | None => Num 0
  end.

(** The row function given to [tsvParse]. *)
Definition convertRow (d : RawRow) : MovementRecord :=
  {| ds := orEmpty (raw_ds d);
     country := orEmpty (raw_country d);
     polygon_source := orEmpty (raw_polygon_source d);
     polygon_id := orEmpty (raw_polygon_id d);
     polygon_name := orEmpty (raw_polygon_name d);
     all_day_bing_tiles_visited_relative_change :=
       numberOrZero (raw_all_day_bing_tiles_visited_relative_change d);
     all_day_ratio_single_tile_users :=
       numberOrZero (raw_all_day_ratio_single_tile_users d);
     baseline_name := orEmpty (raw_baseline_name d);
     baseline_type := orEmpty (raw_baseline_type d) |}.

Definition parseMovementData (text : string) : list MovementRecord :=
  let parsed := map convertRow (tsvRows text) in
  List.filter (fun p => negb (falsy (ds p)) && negb (falsy (country p))) parsed.

End Parser.

End Machine.

(** * The vocabulary of the properties *)

(** ** Numerals *)


(** ** Grouping by a string key *)

Section Upsert.
Context {V : Type}.

(** "Look up or create, then update in place": the pattern of every
    accumulation loop of the engine. *)
Definition upsert (k : string) (init : V) (f : V -> V) (m : Map V) : Map V :=
  match Map_get k m with
  | Some e => Map_set k (f e) m
  | None => m ++ [(k, f init)]
  end.

End Upsert.

Section GroupBy.
Context {R V : Type} (key : R -> string) (init : R -> V) (upd : R -> V -> V).

(** The rows of a group, in input order. *)
Definition rows (k : string) (l : list R) : list R :=
  List.filter (fun r => String.eqb (key r) k) l.

Definition group_step (m : Map V) (r : R) : Map V := upsert (key r) (init r) (upd r) m.

Definition grouped (l : list R) : Map V := fold_left group_step l [].

End GroupBy.

Section GroupEntry.
Context {R V : Type} (key : R -> string) (closed : string -> list R -> V).
Local Abbreviation rows := (rows key).

Definition entry_of (k : string) (l : list R) : option V :=
  match rows k l with
  | [] => None
  | _ :: _ => Some (closed k (rows k l))
  end.

End GroupEntry.

(** ** Sums of rationals *)

Definition sumBy {A} (f : A -> Q) (l : list A) : Q :=
  fold_right (fun x acc => (f x + acc)%Q) 0%Q l.

(** ** The order of dates *)

Section DateOrderDefs.
Variable getTime : string -> option Z.

Definition validDate (s : string) : Prop := getTime s <> None.

(** [a] is not later than [b]. *)
Definition dateLe (a b : string) : Prop :=
  exists x y, getTime a = Some x /\ getTime b = Some y /\ (x <= y)%Z.

End DateOrderDefs.

(** ** The Country Aggregator in closed form *)

Abbreviation mob := all_day_bing_tiles_visited_relative_change.
Abbreviation sty := all_day_ratio_single_tile_users.

(** The records of a country, in input order. *)
Definition countryRows (data : list MovementRecord) (c : string) : list MovementRecord :=
  List.filter (fun d => String.eqb (country d) c) data.

(** The arithmetic mean of a non-empty list. *)
Definition mean (vals : list Q) : Q :=
  (reduce_add vals / inject_Z (Z.of_nat (length vals)))%Q.

Definition dateInit (r : MovementRecord) : DateEntry :=
  {| count := 0; mobSum := 0; staySum := 0 |}.

Definition dateUpd (r : MovementRecord) (e : DateEntry) : DateEntry :=
  {| count := S (count e);
     mobSum := (mobSum e + mob r)%Q;
     staySum := (staySum e + sty r)%Q |}.

Definition dateClosed (k : string) (rs : list MovementRecord) : DateEntry :=
  {| count := length rs;
     mobSum := reduce_add (map mob rs);
     staySum := reduce_add (map sty rs) |}.

Definition regionInit (r : MovementRecord) : RegionStats :=
  {| name := polygon_name r; avgMobility := 0; avgStay := 0;
     maxStay := (-1)%Q; minMobility := 999%Q; dataPoints := 0 |}.

Definition regionUpd (r : MovementRecord) (e : RegionStats) : RegionStats :=
  {| name := name e;
     avgMobility := (avgMobility e + mob r)%Q;
     avgStay := (avgStay e + sty r)%Q;
     maxStay := Qmax (maxStay e) (sty r);
     minMobility := Qmin (minMobility e) (mob r);
     dataPoints := S (dataPoints e) |}.

Definition regionClosed (k : string) (rs : list MovementRecord) : RegionStats :=
  {| name := k;
     avgMobility := reduce_add (map mob rs);
     avgStay := reduce_add (map sty rs);
     maxStay := fold_left Qmax (map sty rs) (-1)%Q;
     minMobility := fold_left Qmin (map mob rs) 999%Q;
     dataPoints := length rs |}.

(** The distinct dates and region names of [raw], in first-seen order. *)
Definition dates (raw : list MovementRecord) : list string :=
  map fst (grouped ds dateInit dateUpd raw).

Definition regions (raw : list MovementRecord) : list string :=
  map fst (grouped polygon_name regionInit regionUpd raw).

(** The finished trend point of a date and matrix row of a region. *)
Definition dateTrend (raw : list MovementRecord) (k : string) : Trend.t :=
  let rs := rows ds k raw in
  Trend.mk k (mean (map mob rs)) (mean (map sty rs)).

Definition regionRow (raw : list MovementRecord) (k : string) : RegionStats :=
  let rs := rows polygon_name k raw in
  {| name := k;
     avgMobility := mean (map mob rs);
     avgStay := mean (map sty rs);
     maxStay := fold_left Qmax (map sty rs) (-1)%Q;
     minMobility := fold_left Qmin (map mob rs) 999%Q;
     dataPoints := length rs |}.

Section AggregateOf.
Variable getTime : string -> option Z.

(** What [calculateCountryAggregates] returns on the non-empty list [raw] of
    a country's records. *)
Definition aggregateOf (raw : list MovementRecord) : CountryAggregate :=
  {| trend := sortBy (fun a b => dateDiff getTime (Trend.ds a) (Trend.ds b))
                (map (dateTrend raw) (dates raw));
     matrix := map (regionRow raw) (regions raw);
     totalRegions := length (regions raw) |}.

End AggregateOf.

(** ** Sample inputs *)

Definition record (date c region : string) (m s : Q) : MovementRecord :=
  {| ds := date; country := c; polygon_source := "FB"; polygon_id := region;
     polygon_name := region;
     all_day_bing_tiles_visited_relative_change := m;
     all_day_ratio_single_tile_users := s;
     baseline_name := "full_february"; baseline_type := "DAY_OF_WEEK" |}.

Definition sample : list MovementRecord :=
  [ record "2020-01-02" "X" "A" (-(2 # 10)) (5 # 10);
    record "2020-01-01" "X" "B" 0 (3 # 10);
    record "2020-01-01" "X" "A" (-(4 # 10)) (1 # 10);
    record "2020-01-01" "Y" "A" 1 1 ].

(** The two records of the worked example. *)
Definition worked : list MovementRecord :=
  [ record "2020-01-01" "X" "A" (-(2 # 10)) (5 # 10);
    record "2020-01-01" "X" "B" 0 (3 # 10) ].

(** Two records of one region on the same date, around an earlier one. *)
Definition sameDay : list MovementRecord :=
  [ record "2020-01-02" "X" "A" (1 # 10) (1 # 10);
    record "2020-01-01" "X" "A" (2 # 10) (2 # 10);
    record "2020-01-02" "X" "A" (3 # 10) (3 # 10) ].

(** A record whose country is the empty string, a value of the record
    type. *)
Definition unnamed : list MovementRecord :=
  [ record "2020-01-01" "" "A" (-(2 # 10)) (5 # 10) ].

(** A region whose only row lies beyond both seeds of the running
    extremes. *)
Definition beyondSeeds : list MovementRecord :=
  [ record "2020-01-01" "X" "A" 1000 (-2) ].

(** ** Records, counts and extremes *)

(** Some record of [data] carries the country [c]. *)
Definition hasRecord (data : list MovementRecord) (c : string) : Prop :=
  exists r, In r data /\ country r = c.

(** A count as a number. *)
Definition nat2Q (n : nat) : Q := inject_Z (Z.of_nat n).

(** The number of a country's rows on a date. *)
Definition rowCount (raw : list MovementRecord) (d : string) : nat := length (rows ds d raw).

(** [m] is the greatest, resp. the least, of [vals]. *)
Definition isMaximum (vals : list Q) (m : Q) : Prop :=
  (exists v, In v vals /\ v == m)%Q /\ forall v, In v vals -> (v <= m)%Q.

Definition isMinimum (vals : list Q) (m : Q) : Prop :=
  (exists v, In v vals /\ v == m)%Q /\ forall v, In v vals -> (m <= v)%Q.

(** ** The two aggregation paths *)


(** A series that does not ascend. *)
Definition descending : list NormalizedDataPoint :=
  [ Norm.mk "2020-01-02" (-(2 # 10)) (5 # 10) (Some "DAY_OF_WEEK");
    Norm.mk "2020-01-01" (-(4 # 10)) (1 # 10) (Some "DAY_OF_WEEK") ].

(** ** The join by date

    [comparisonChartData] and [countryComparisonChartData] are the same
    two loops over two point types. *)

Section Join.
Context {T : Type} (dsT : T -> string) (mobT stayT : T -> Q).
Variables (label1 createdLabel : option string) (label2 : string).

Definition primaryRow (d : T) : ChartDataPoint :=
  Chart.mk (dsT d) (NotNull (mobT d)) (NotNull (stayT d)) label1 None None None.

Definition createdRow (k : string) : ChartDataPoint :=
  Chart.mk k Null Null createdLabel None None None.

Definition withSecondary (d : T) (e : ChartDataPoint) : ChartDataPoint :=
  Chart.mk (Chart.ds e) (Chart.primary_mobility e) (Chart.primary_stay e)
    (Chart.primary_label e) (Some (mobT d)) (Some (stayT d)) (Some label2).

Definition primaryStep (m : Map ChartDataPoint) (d : T) : Map ChartDataPoint :=
  Map_set (dsT d) (primaryRow d) m.

Definition secondaryStep (m : Map ChartDataPoint) (d : T) : Map ChartDataPoint :=
  Map_set (dsT d)
    (withSecondary d (match Map_get (dsT d) m with Some e => e | None => createdRow (dsT d) end))
    m.

(** The two loops as one grouping of the tagged points. *)
Definition joinKey (x : T + T) : string :=
  match x with inl d => dsT d | inr d => dsT d end.

Definition joinInit (x : T + T) : ChartDataPoint := createdRow (joinKey x).

Definition joinUpd (x : T + T) (e : ChartDataPoint) : ChartDataPoint :=
  match x with inl d => primaryRow d | inr d => withSecondary d e end.

Definition joinClosed (k : string) (xs : list (T + T)) : ChartDataPoint :=
  fold_left (fun e x => joinUpd x e) xs (createdRow k).

Definition tagged (a b : list T) : list (T + T) := map inl a ++ map inr b.

Definition joined (a b : list T) : Map ChartDataPoint :=
  grouped joinKey joinInit joinUpd (tagged a b).

End Join.

(** A full outer join on the date: one row per date of either series, the
    primary values of every date of [a], the secondary values of every date
    of [b], and [null] primary values on the dates of [b] alone. *)
Definition isOuterJoin {T} (dsT : T -> string) (mobT stayT : T -> Q)
    (a b : list T) (rows : list ChartDataPoint) : Prop :=
  List.NoDup (map Chart.ds rows)
  /\ (forall d, In d (map Chart.ds rows) <-> In d (map dsT a) \/ In d (map dsT b))
  /\ length rows = length (nodup string_dec (map dsT a ++ map dsT b))
  /\ (forall row p, In row rows -> In p a -> Chart.ds row = dsT p ->
        Chart.primary_mobility row = NotNull (mobT p)
        /\ Chart.primary_stay row = NotNull (stayT p))
  /\ (forall row q, In row rows -> In q b -> Chart.ds row = dsT q ->
        Chart.secondary_mobility row = Some (mobT q)
        /\ Chart.secondary_stay row = Some (stayT q))
  /\ (forall row, In row rows -> ~ In (Chart.ds row) (map dsT a) ->
        Chart.primary_mobility row = Null /\ Chart.primary_stay row = Null).

Definition seriesA : list NormalizedDataPoint :=
  [ Norm.mk "2020-01-01" (-(4 # 10)) (1 # 10) (Some "DAY_OF_WEEK");
    Norm.mk "2020-01-02" (-(2 # 10)) (5 # 10) (Some "DAY_OF_WEEK") ].

Definition seriesB : list NormalizedDataPoint :=
  [ Norm.mk "2020-01-03" (1 # 10) (2 # 10) (Some "DAY_OF_WEEK");
    Norm.mk "2020-01-02" 0 (3 # 10) (Some "DAY_OF_WEEK") ].

(** ** Sort keys and heaps *)

(** The two rows hold equal values in the field. *)
Definition same_field (key : SortKey) (a b : RegionStats) : Prop :=
  match key with
  | key_name => name a = name b
  | key_avgMobility => (avgMobility a == avgMobility b)%Q
  | key_avgStay => (avgStay a == avgStay b)%Q
  | key_maxStay => (maxStay a == maxStay b)%Q
  | key_minMobility => (minMobility a == minMobility b)%Q
  | key_dataPoints => dataPoints a = dataPoints b
  end.

(** No two rows of the matrix hold equal values in the field. *)
Definition noDuplicateValues (key : SortKey) (m : list RegionStats) : Prop :=
  ForallOrdPairs (fun a b => ~ same_field key a b) m.

(** [b] may stand after [a] in the given direction: it is not smaller
    (ascending), resp. not greater (descending), in the field. *)
Definition inOrder (key : SortKey) (direction : Direction) (a b : RegionStats) : Prop :=
  match direction with
  | asc => field_lt key b a = false
  | desc => field_lt key a b = false
  end.

(** [a] ties with [v] in the field: neither is smaller. *)
Definition tie (key : SortKey) (v a : RegionStats) : bool :=
  negb (field_lt key a v) && negb (field_lt key v a).

(** The secondary series that a merger reads: none unless the comparison
    is on (and, in the country view, there is an aggregate to compare). *)
Definition compared {T} (isCompareMode : bool) (b : list T) : list T :=
  if isCompareMode then b else [].

Definition comparedTrend (isCountryCompareMode : bool) (o : option CountryAggregate)
  : list Trend.t :=
  match isCountryCompareMode, o with
  | true, Some d => trend d
  | _, _ => []
  end.

(** One row per date of either series; where a series has several points
    of one date, the row carries the values of the last of them. *)
Definition lastPointWins {T} (dsT : T -> string) (mobT stayT : T -> Q)
    (a b : list T) (rows : list ChartDataPoint) : Prop :=
  List.NoDup (map Chart.ds rows)
  /\ (forall d, In d (map Chart.ds rows) <-> In d (map dsT a) \/ In d (map dsT b))
  /\ (forall a1 p a2, a = a1 ++ p :: a2 -> ~ In (dsT p) (map dsT a2) ->
        exists row, In row rows /\ Chart.ds row = dsT p
          /\ Chart.primary_mobility row = NotNull (mobT p)
          /\ Chart.primary_stay row = NotNull (stayT p))
  /\ (forall b1 q b2, b = b1 ++ q :: b2 -> ~ In (dsT q) (map dsT b2) ->
        exists row, In row rows /\ Chart.ds row = dsT q
          /\ Chart.secondary_mobility row = Some (mobT q)
          /\ Chart.secondary_stay row = Some (stayT q)).

(** A series with two points of one date. *)
Definition seriesTwice : list NormalizedDataPoint :=
  [ Norm.mk "2020-01-02" (-(2 # 10)) (5 # 10) (Some "DAY_OF_WEEK");
    Norm.mk "2020-01-01" (-(4 # 10)) (1 # 10) (Some "DAY_OF_WEEK");
    Norm.mk "2020-01-02" (3 # 10) (6 # 10) (Some "DAY_OF_WEEK") ].

(** ** Machine numbers *)

(** The record with the exact values of its two numbers, when both are
    finite. *)
Definition exactRecord (p : Machine.MovementRecord) : option MovementRecord :=
  match Machine.all_day_bing_tiles_visited_relative_change p,
        Machine.all_day_ratio_single_tile_users p with
  | Machine.Num m, Machine.Num s =>
      Some {| ds := Machine.ds p; country := Machine.country p;
              polygon_source := Machine.polygon_source p;
              polygon_id := Machine.polygon_id p;
              polygon_name := Machine.polygon_name p;
              all_day_bing_tiles_visited_relative_change := m;
              all_day_ratio_single_tile_users := s;
              baseline_name := Machine.baseline_name p;
              baseline_type := Machine.baseline_type p |}
  | _, _ => None
  end.

Fixpoint exactRecords (l : list Machine.MovementRecord) : option (list MovementRecord) :=
  match l with
  | [] => Some []
  | p :: l' =>
      match exactRecord p, exactRecords l' with
      | Some r, Some rs => Some (r :: rs)
      | _, _ => None
      end
  end.

(** The point, and the series, with the exact values of its numbers, when
    they are finite. *)
Definition exactPoint (p : Machine.NormalizedDataPoint) : option NormalizedDataPoint :=
  match Machine.Norm.mobility p, Machine.Norm.stay p with
  | Machine.Num m, Machine.Num s =>
      Some (Norm.mk (Machine.Norm.ds p) m s (Machine.Norm.baseline_type p))
  | _, _ => None
  end.

Fixpoint exactSeries (l : list Machine.NormalizedDataPoint)
  : option (list NormalizedDataPoint) :=
  match l with
  | [] => Some []
  | p :: l' =>
      match exactPoint p, exactSeries l' with
      | Some q, Some qs => Some (q :: qs)
      | _, _ => None
      end
  end.



(** A fraction as a percentage. *)
Definition percentage (x : Machine.number) : Machine.number :=
  Machine.mul x (Machine.Num 100).

(** The mean as the machine takes it: the sum from the left, each partial
    sum rounded, divided by the count. *)
Definition machineMean (vals : list Machine.number) : Machine.number :=
  Machine.div (fold_left Machine.add vals (Machine.Num 0)) (Machine.ofNat (length vals)).



(** The binary64 operations of the Standard Library ([SpecFloat], with 53
    bits of precision and exponents below 1024), to compare with: the
    number that such a value denotes, and the value of an integer. *)
Definition ofSpecFloat (f : SpecFloat.spec_float) : Machine.number :=
  match f with
  | SpecFloat.S754_zero _ => Machine.Num 0
  | SpecFloat.S754_infinity negative => Machine.Infinity negative
  | SpecFloat.S754_nan => Machine.NaN
  | SpecFloat.S754_finite negative m e =>
      Machine.Num (Qred ((if negative then -1 else 1) * inject_Z (Zpos m) * Machine.pow2 e))
  end.

Definition referenceZ (z : Z) : SpecFloat.spec_float :=
  SpecFloat.binary_normalize 53 1024 z 0 false.

(** [parseFloat] on the numerals [n / 10^k] that the samples use: the
    nearest binary64 value. *)
Definition decimalNumber (n : Z) (k : nat) : Machine.number :=
  Machine.round64 (n # Pos.of_nat (10 ^ k)).

(** The point of [boundarySeries] below, with its two numerals as they are
    written. *)
Definition writtenSeries : list Machine.NormalizedDataPoint :=
  [ Machine.Norm.mk "2020-01-01" (Machine.Num (-(1235 # 10000))) (Machine.Num (45 # 10000))
      (Some "DAY_OF_WEEK") ].

(** Two series of one point whose percentages fall next to a rounding
    boundary, and a series of three points. *)
Definition boundarySeries : list Machine.NormalizedDataPoint :=
  [ Machine.Norm.mk "2020-01-01" (decimalNumber (-1235) 4) (decimalNumber 45 4)
      (Some "DAY_OF_WEEK") ].

Definition productSeries : list Machine.NormalizedDataPoint :=
  [ Machine.Norm.mk "2020-01-01" (decimalNumber 65 4) (decimalNumber 15 4)
      (Some "DAY_OF_WEEK") ].

Definition machineSeries : list Machine.NormalizedDataPoint :=
  [ Machine.Norm.mk "2020-01-02" (decimalNumber 1 1) (decimalNumber 5 1) (Some "DAY_OF_WEEK");
    Machine.Norm.mk "2020-01-03" (decimalNumber 2 1) (decimalNumber 7 1) (Some "DAY_OF_WEEK");
    Machine.Norm.mk "2020-01-01" (decimalNumber 3 1) (decimalNumber 1 1) (Some "DAY_OF_WEEK") ].

(** Three rows of a file: a full one, one without numbers and an empty
    line; a fourth row whose numbers do not read; and a [parseFloat] that
    reads the two numerals of the first. *)
Definition sampleRows : list RawRow :=
  [ {| raw_ds := Some "2020-01-01"; raw_country := Some "X";
       raw_polygon_source := Some "FB"; raw_polygon_id := Some "A";
       raw_polygon_name := Some "A";
       raw_all_day_bing_tiles_visited_relative_change := Some "-0.5";
       raw_all_day_ratio_single_tile_users := Some "0.25";
       raw_baseline_name := Some "full_february"; raw_baseline_type := Some "DAY_OF_WEEK" |};
    {| raw_ds := Some "2020-01-02"; raw_country := Some "Y";
       raw_polygon_source := None; raw_polygon_id := None; raw_polygon_name := Some "B";
       raw_all_day_bing_tiles_visited_relative_change := Some "";
       raw_all_day_ratio_single_tile_users := None;
       raw_baseline_name := None; raw_baseline_type := None |};
    {| raw_ds := Some ""; raw_country := None;
       raw_polygon_source := None; raw_polygon_id := None; raw_polygon_name := None;
       raw_all_day_bing_tiles_visited_relative_change := None;
       raw_all_day_ratio_single_tile_users := None;
       raw_baseline_name := None; raw_baseline_type := None |} ].

Definition unreadRow : RawRow :=
  {| raw_ds := Some "2020-01-03"; raw_country := Some "Z";
     raw_polygon_source := None; raw_polygon_id := None; raw_polygon_name := Some "C";
     raw_all_day_bing_tiles_visited_relative_change := Some "n/a";
     raw_all_day_ratio_single_tile_users := Some "0.25";
     raw_baseline_name := None; raw_baseline_type := None |}.

Definition sampleFloat (s : string) : Machine.number :=
  if String.eqb s "-0.5" then decimalNumber (-5) 1
  else if String.eqb s "0.25" then decimalNumber 25 2
  else Machine.NaN.

Definition sampleMatrix : CountryAggregate :=
  {| trend := [];
     matrix :=
       [ {| name := "B"; avgMobility := 0; avgStay := 3 # 10; maxStay := 3 # 10;
            minMobility := 0; dataPoints := 1 |};
         {| name := "A"; avgMobility := -(3 # 10); avgStay := 3 # 10; maxStay := 5 # 10;
            minMobility := -(4 # 10); dataPoints := 2 |};
         {| name := "C"; avgMobility := 1 # 10; avgStay := 2 # 10; maxStay := 4 # 10;
            minMobility := -(1 # 10); dataPoints := 3 |} ];
     totalRegions := 3 |}.

(** The rows an array of references denotes. *)
Fixpoint denote (h : Heap) (elems : list loc) : option (list RegionStats) :=
  match elems with
  | [] => Some []
  | l :: elems' =>
      match objects h !! l, denote h elems' with
      | Some v, Some vs => Some (v :: vs)
      | _, _ => None
      end
  end.

(** The row behind a reference (any row where there is none). *)
Definition deref (h : Heap) (l : loc) : RegionStats :=
  default (regionClosed "" []) (objects h !! l).

(** A heap that holds the matrix of [sampleMatrix] at address 10. *)
Definition sampleHeap : Heap :=
  mkHeap (list_to_map (zip [1; 2; 3]%positive (matrix sampleMatrix)))
         {[ 10%positive := [1; 2; 3]%positive ]}.

(** * Properties *)

(** ** Dates and number texts *)

Example isoTime_epoch : isoTime "1970-01-01" = Some 0%Z.
Proof. reflexivity. Qed.

Example isoTime_2020_03_01 : isoTime "2020-03-01" = Some 1583020800000%Z.
Proof. reflexivity. Qed.

Example isoTime_invalid : isoTime "2021-02-29" = None /\ isoTime "yesterday" = None.
Proof. split; reflexivity. Qed.

Example toFixed1_examples :
  toFixed1 (-(1 # 10) * 100) = Digits "-10.0" /\ toFixed1 ((1 # 3) * 100) = Digits "33.3"
  /\ toFixed1 (5 # 100) = Digits "0.1" /\ toFixed1 (-(4 # 100)) = Digits "-0.0"
  /\ toFixed1 0 = Digits "0.0" /\ toFixed1 (12345 # 10) = Digits "1234.5".
Proof. repeat split; reflexivity. Qed.


(** ** The outcome monad *)

Lemma forEach_pure {A S} (body : S -> A -> outcome S) (g : S -> A -> S) l s :
  (forall s x, body s x = Ok (g s x)) -> forEach body l s = Ok (fold_left g l s).
Proof.
  intros Hb. revert s. induction l as [|x l IH]; intros s; simpl; [reflexivity|].
  rewrite Hb. simpl. apply IH.
Qed.

Lemma mapM_pure {A B} (f : A -> outcome B) (g : A -> B) l :
  Forall (fun x => f x = Ok (g x)) l -> mapM f l = Ok (map g l).
Proof.
  induction 1 as [|x l Hx _ IH]; simpl; [reflexivity|].
  rewrite Hx, IH. reflexivity.
Qed.

Lemma fold_left_pair {A S T} (f : S -> A -> S) (g : T -> A -> T) l s t :
  fold_left (fun st x => (f (fst st) x, g (snd st) x)) l (s, t)
  = (fold_left f l s, fold_left g l t).
Proof. revert s t. induction l as [|x l IH]; intros; simpl; [reflexivity|apply IH]. Qed.

(** ** The JS [Map] *)

Section MapFacts.
Context {V : Type}.
Implicit Types (m : Map V) (k : string) (v : V).

Lemma Map_get_In k v m : Map_get k m = Some v -> In (k, v) m.
Proof.
  induction m as [|[k' v'] m IH]; simpl; [discriminate|].
  destruct (String.eqb_spec k' k) as [->|Hne].
  - intros [= ->]. now left.
  - intros H. right. auto.
Qed.

Lemma Map_get_None k m : Map_get k m = None <-> ~ In k (map fst m).
Proof.
  induction m as [|[k' v'] m IH]; simpl.
  - split; [tauto|reflexivity].
  - destruct (String.eqb_spec k' k) as [->|Hne].
    + split; [discriminate|]. intros H. exfalso. apply H. now left.
    + rewrite IH. split; [intros H [E|HI]; [congruence|tauto] | tauto].
Qed.

Lemma Map_has_In k m : Map_has k m = true <-> In k (map fst m).
Proof.
  unfold Map_has. destruct (Map_get k m) eqn:E.
  - split; [intros _|reflexivity]. apply Map_get_In in E.
    apply in_map_iff. exists (k, v). split; [reflexivity|assumption].
  - split; [discriminate|]. intros H. apply Map_get_None in E. contradiction.
Qed.

Lemma In_Map_get k v m : List.NoDup (map fst m) -> In (k, v) m -> Map_get k m = Some v.
Proof.
  induction m as [|[k' v'] m IH]; simpl; [tauto|].
  intros Hnd [E|HI].
  - injection E as -> ->. now rewrite String.eqb_refl.
  - apply NoDup_cons_iff in Hnd as [Hni Hnd].
    destruct (String.eqb_spec k' k) as [->|Hne]; [|auto].
    exfalso. apply Hni. apply in_map_iff. exists (k, v). split; [reflexivity|assumption].
Qed.

Lemma Map_set_fresh k v m : Map_get k m = None -> Map_set k v m = m ++ [(k, v)].
Proof.
  induction m as [|[k' v'] m IH]; simpl; [reflexivity|].
  destruct (String.eqb k' k); [discriminate|]. intros H. now rewrite IH.
Qed.

Lemma Map_get_set k k' v m :
  Map_get k' (Map_set k v m) = if String.eqb k k' then Some v else Map_get k' m.
Proof.
  induction m as [|[k0 v0] m IH]; simpl.
  - reflexivity.
  - destruct (String.eqb_spec k0 k) as [->|Hne]; simpl.
    + destruct (String.eqb k k'); reflexivity.
    + rewrite IH. destruct (String.eqb_spec k0 k') as [->|Hne'].
      * destruct (String.eqb_spec k k') as [->|_]; [congruence|reflexivity].
      * reflexivity.
Qed.

Lemma Map_set_keys k v m :
  map fst (Map_set k v m) = if Map_has k m then map fst m else map fst m ++ [k].
Proof.
  unfold Map_has. induction m as [|[k0 v0] m IH]; simpl; [reflexivity|].
  destruct (String.eqb_spec k0 k) as [->|Hne]; simpl; [reflexivity|].
  rewrite IH. destruct (Map_get k m); reflexivity.
Qed.

Lemma Map_set_set k v1 v2 m : Map_set k v2 (Map_set k v1 m) = Map_set k v2 m.
Proof.
  induction m as [|[k0 v0] m IH]; simpl.
  - now rewrite String.eqb_refl.
  - destruct (String.eqb_spec k0 k) as [->|Hne]; simpl.
    + now rewrite String.eqb_refl.
    + destruct (String.eqb_spec k0 k); [contradiction|]. now rewrite IH.
Qed.

Lemma has_set_get_set k init f m :
  let m1 := if Map_has k m then m else Map_set k init m in
  exists e, Map_get k m1 = Some e /\ Map_set k (f e) m1 = upsert k init f m.
Proof.
  unfold Map_has, upsert. destruct (Map_get k m) as [e|] eqn:E; simpl.
  - exists e. split; [assumption|reflexivity].
  - exists init. rewrite Map_get_set, String.eqb_refl. split; [reflexivity|].
    rewrite Map_set_set. now apply Map_set_fresh.
Qed.

Lemma upsert_get k init f m k' :
  Map_get k' (upsert k init f m)
  = if String.eqb k k' then Some (f (default init (Map_get k m))) else Map_get k' m.
Proof.
  unfold upsert. destruct (Map_get k m) as [e|] eqn:E.
  - rewrite Map_get_set. reflexivity.
  - rewrite <- (Map_set_fresh k (f init) m E), Map_get_set. reflexivity.
Qed.

Lemma upsert_keys k init f m :
  map fst (upsert k init f m) = if Map_has k m then map fst m else map fst m ++ [k].
Proof.
  unfold upsert, Map_has. destruct (Map_get k m) as [e|] eqn:E.
  - rewrite Map_set_keys. unfold Map_has. now rewrite E.
  - rewrite map_app. reflexivity.
Qed.

End MapFacts.

(** ** Grouping by a string key *)

Section Grouping.
Context {R V : Type} (key : R -> string) (init : R -> V) (upd : R -> V -> V).

Local Abbreviation rows := (rows key).
Local Abbreviation group_step := (group_step key init upd).
Local Abbreviation grouped := (grouped key init upd).

Lemma rows_snoc k l r :
  rows k (l ++ [r]) = rows k l ++ (if String.eqb (key r) k then [r] else []).
Proof. unfold rows. rewrite List.filter_app. simpl. destruct (String.eqb (key r) k); reflexivity. Qed.

Lemma rows_In k l r : In r (rows k l) <-> In r l /\ key r = k.
Proof. unfold rows. rewrite List.filter_In, String.eqb_eq. reflexivity. Qed.

Lemma rows_nonempty k l : rows k l <> [] <-> In k (map key l).
Proof.
  rewrite in_map_iff. split.
  - destruct (rows k l) as [|r rs] eqn:E; [congruence|]. intros _.
    assert (In r (rows k l)) as Hr by (rewrite E; now left).
    apply rows_In in Hr as [Hr Hk]. eauto.
  - intros (r & Hk & Hr) E. assert (In r (rows k l)) as Hr' by now apply rows_In.
    rewrite E in Hr'. contradiction.
Qed.

Lemma group_fold_keys l : forall m,
  List.NoDup (map fst m) ->
  List.NoDup (map fst (fold_left group_step l m))
  /\ forall k, In k (map fst (fold_left group_step l m)) <-> In k (map fst m) \/ In k (map key l).
Proof.
  induction l as [|r l IH]; intros m Hnd; simpl.
  - split; [assumption|]. intros k. tauto.
  - assert (List.NoDup (map fst (group_step m r))
            /\ forall k, In k (map fst (group_step m r)) <-> In k (map fst m) \/ key r = k)
      as [Hnd' Hin'].
    { unfold group_step. rewrite upsert_keys.
      destruct (Map_has (key r) m) eqn:E.
      - split; [assumption|]. intros k. apply Map_has_In in E.
        split; [tauto|]. intros [H| <-]; assumption.
      - assert (~ In (key r) (map fst m)) as Hni.
        { intros H. apply Map_has_In in H. congruence. }
        split.
        + apply List.NoDup_app; [assumption | constructor; [intros []|constructor] | ].
          intros x Hx [<-|[]]. contradiction.
        + intros k. rewrite in_app_iff. simpl. tauto. }
    destruct (IH _ Hnd') as [H1 H2]. split; [assumption|].
    intros k. rewrite H2, Hin'. tauto.
Qed.

Lemma grouped_keys_NoDup l : List.NoDup (map fst (grouped l)).
Proof. apply (group_fold_keys l []). constructor. Qed.

Lemma grouped_keys_In l k : In k (map fst (grouped l)) <-> In k (map key l).
Proof.
  unfold grouped. destruct (group_fold_keys l [] (List.NoDup_nil _)) as [_ H].
  rewrite H. simpl. tauto.
Qed.

(** When the accumulator of a group has a closed form in the rows seen so
    far, every entry of the map is that closed form on the rows of its key. *)
Section Closed.
Variable closed : string -> list R -> V.

Local Abbreviation entry_of := (entry_of key closed).

Lemma grouped_get :
  (forall r, init r = closed (key r) []) ->
  (forall rs r, upd r (closed (key r) rs) = closed (key r) (rs ++ [r])) ->
  forall l k, Map_get k (grouped l) = entry_of k l.
Proof.
  intros Hinit Hupd.
  assert (forall l p m, (forall k, Map_get k m = entry_of k p) ->
            forall k, Map_get k (fold_left group_step l m) = entry_of k (p ++ l)) as Hfold.
  { induction l as [|r l IH]; intros p m Hinv k; simpl.
    - rewrite app_nil_r. apply Hinv.
    - replace (p ++ r :: l) with ((p ++ [r]) ++ l) by now rewrite <- app_assoc.
      apply IH. clear k. intros k. unfold group_step at 1. rewrite upsert_get.
      unfold entry_of at 1. rewrite rows_snoc.
      destruct (String.eqb_spec (key r) k) as [<-|Hne].
      + rewrite Hinv. unfold entry_of. destruct (rows (key r) p) as [|r0 rs]; simpl.
        * now rewrite Hinit, Hupd.
        * now rewrite Hupd.
      + rewrite app_nil_r. apply Hinv. }
  intros l k. apply (Hfold l [] []). reflexivity.
Qed.

Lemma grouped_entries :
  (forall r, init r = closed (key r) []) ->
  (forall rs r, upd r (closed (key r) rs) = closed (key r) (rs ++ [r])) ->
  forall l, grouped l = map (fun k => (k, closed k (rows k l))) (map fst (grouped l)).
Proof.
  intros Hinit Hupd l.
  assert (forall m : Map V, (forall k v, In (k, v) m -> v = closed k (rows k l)) ->
            m = map (fun k => (k, closed k (rows k l))) (map fst m)) as Hall.
  { induction m as [|[k v] m IH]; intros H; simpl; [reflexivity|].
    rewrite <- IH by (intros; apply H; now right).
    rewrite <- (H k v) by now left. reflexivity. }
  apply Hall. intros k v Hin.
  apply In_Map_get in Hin; [|apply grouped_keys_NoDup].
  rewrite (grouped_get Hinit Hupd) in Hin. unfold entry_of in Hin.
  destruct (rows k l); congruence.
Qed.

End Closed.
End Grouping.

Lemma fold_left_Qplus l : forall a, (fold_left Qplus l a == a + sumBy id l)%Q.
Proof.
  induction l as [|x l IH]; intros a; simpl.
  - ring.
  - rewrite IH. unfold id. ring.
Qed.

Lemma sumBy_map {A B} (g : A -> B) (f : B -> Q) l : sumBy f (map g l) = sumBy (fun x => f (g x)) l.
Proof. induction l as [|x l IH]; simpl; [reflexivity|now rewrite IH]. Qed.

Lemma reduce_add_sumBy {A} (f : A -> Q) l : (reduce_add (map f l) == sumBy f l)%Q.
Proof. unfold reduce_add. rewrite fold_left_Qplus, sumBy_map, Qplus_0_l. reflexivity. Qed.

Lemma sumBy_app {A} (f : A -> Q) l1 l2 : (sumBy f (l1 ++ l2) == sumBy f l1 + sumBy f l2)%Q.
Proof.
  induction l1 as [|x l1 IH]; simpl.
  - ring.
  - rewrite IH. ring.
Qed.

Lemma sumBy_Permutation {A} (f : A -> Q) l1 l2 :
  Permutation l1 l2 -> (sumBy f l1 == sumBy f l2)%Q.
Proof.
  induction 1 as [|x l1 l2 _ IH|x y l|l1 l2 l3 _ IH1 _ IH2]; simpl.
  - reflexivity.
  - now rewrite IH.
  - ring.
  - now rewrite IH1.
Qed.

Lemma sumBy_ext {A} (f g : A -> Q) l :
  Forall (fun x => f x == g x)%Q l -> (sumBy f l == sumBy g l)%Q.
Proof.
  induction 1 as [|x l Hx _ IH]; simpl; [reflexivity|]. now rewrite Hx, IH.
Qed.

(** A sum over a list splits into the sums over its groups. *)
Lemma sumBy_indicator (k0 : string) (x : Q) (keys : list string) :
  List.NoDup keys -> In k0 keys ->
  (sumBy (fun k => if String.eqb k0 k then x else 0) keys == x)%Q.
Proof.
  induction 1 as [|k keys Hni Hnd IH]; simpl; [tauto|].
  assert (~ In k0 keys -> sumBy (fun k => if String.eqb k0 k then x else 0) keys == 0)%Q as Hz.
  { clear. induction keys as [|k keys IH]; simpl; intros Hni; [reflexivity|].
    destruct (String.eqb_spec k0 k) as [->|_]; [tauto|]. rewrite IH by tauto. ring. }
  intros [->|Hin].
  - rewrite String.eqb_refl, Hz by assumption. ring.
  - destruct (String.eqb_spec k0 k) as [->|_]; [contradiction|]. rewrite IH by assumption. ring.
Qed.

Lemma sumBy_plus {A} (f g : A -> Q) l :
  (sumBy (fun x => f x + g x) l == sumBy f l + sumBy g l)%Q.
Proof.
  induction l as [|x l IH]; simpl.
  - ring.
  - rewrite IH. ring.
Qed.

Lemma sumBy_partition {R} (key : R -> string) (f : R -> Q) (keys : list string) (l : list R) :
  List.NoDup keys -> (forall r, In r l -> In (key r) keys) ->
  (sumBy (fun k => sumBy f (rows key k l)) keys == sumBy f l)%Q.
Proof.
  intros Hnd. induction l as [|r l IH]; intros Hcov.
  - simpl. clear. induction keys as [|k keys IH]; simpl; [reflexivity|]. rewrite IH. ring.
  - transitivity
      (sumBy (fun k => (if String.eqb (key r) k then f r else 0) + sumBy f (rows key k l)) keys)%Q.
    + apply sumBy_ext, Forall_forall. intros k _. simpl.
      destruct (String.eqb (key r) k); simpl; ring.
    + rewrite sumBy_plus, sumBy_indicator, IH; try assumption.
      * reflexivity.
      * intros; apply Hcov; now right.
      * apply Hcov; now left.
Qed.

(** ** Sorting *)

Section SortFacts.
Context {A : Type} (cmp : A -> A -> option Z).

Lemma sort_insert_Permutation x l : Permutation (sort_insert cmp x l) (x :: l).
Proof.
  induction l as [|y l IH]; simpl; [reflexivity|].
  destruct (SortCompare cmp x y <=? 0)%Z; [reflexivity|].
  rewrite IH. apply perm_swap.
Qed.

Lemma sortBy_Permutation l : Permutation (sortBy cmp l) l.
Proof.
  induction l as [|x l IH]; simpl; [reflexivity|].
  rewrite sort_insert_Permutation. now constructor.
Qed.

Lemma sortBy_length l : length (sortBy cmp l) = length l.
Proof. apply Permutation_length, sortBy_Permutation. Qed.

Lemma sortBy_In l x : In x (sortBy cmp l) <-> In x l.
Proof.
  split; apply Permutation_in; [|symmetry]; apply sortBy_Permutation.
Qed.

(** On elements where the comparator is consistent with a transitive
    relation [R], the result is sorted by [R]. *)
Section Sorted.
Variables (R : A -> A -> Prop) (P : A -> Prop).
Hypothesis R_le : forall a b, P a -> P b -> (SortCompare cmp a b <= 0)%Z -> R a b.
Hypothesis R_gt : forall a b, P a -> P b -> (SortCompare cmp a b > 0)%Z -> R b a.
Hypothesis R_trans : forall a b c, P a -> P b -> P c -> R a b -> R b c -> R a c.

Lemma sort_insert_sorted x l :
  P x -> Forall P l -> StronglySorted R l -> StronglySorted R (sort_insert cmp x l).
Proof using R_le R_gt R_trans.
  intros Px. induction l as [|y l IH]; intros HP Hs; simpl.
  - repeat constructor.
  - apply Forall_cons_iff in HP as [Py HP].
    apply StronglySorted_inv in Hs as [Hs Hy].
    destruct (Z.leb_spec (SortCompare cmp x y) 0) as [Hle|Hgt].
    + constructor; [now constructor|].
      assert (R x y) as Hxy by now apply R_le.
      constructor; [assumption|].
      rewrite List.Forall_forall in *. intros z Hz.
      apply (R_trans x y z); auto.
    + constructor; [now apply IH|].
      rewrite List.Forall_forall in *. intros z Hz.
      apply (Permutation_in _ (sort_insert_Permutation x l)) in Hz as [<-|Hz].
      * apply R_gt; [assumption..|lia].
      * now apply Hy.
Qed.

Lemma sortBy_sorted l : Forall P l -> StronglySorted R (sortBy cmp l).
Proof using R_le R_gt R_trans.
  induction l as [|x l IH]; intros HP; simpl; [constructor|].
  apply Forall_cons_iff in HP as [Px HP].
  apply sort_insert_sorted; [assumption| |now apply IH].
  rewrite List.Forall_forall in *. intros z Hz. apply HP. now apply sortBy_In.
Qed.

End Sorted.
End SortFacts.

(** Sorting by date: with parseable dates the comparator is the difference
    of two times and the result ascends in time. *)
Section DateOrder.
Variable getTime : string -> option Z.

Local Abbreviation validDate := (validDate getTime).
Local Abbreviation dateLe := (dateLe getTime).

Lemma sortBy_date_sorted {A} (date : A -> string) (l : list A) :
  Forall (fun a => validDate (date a)) l ->
  StronglySorted (fun a b => dateLe (date a) (date b))
    (sortBy (fun a b => dateDiff getTime (date a) (date b)) l).
Proof.
  apply sortBy_sorted; unfold validDate, dateLe, SortCompare, dateDiff.
  - intros a b Ha Hb. destruct (getTime (date a)) as [x|], (getTime (date b)) as [y|];
      try congruence. intros H. exists x, y. repeat split; lia.
  - intros a b Ha Hb. destruct (getTime (date a)) as [x|], (getTime (date b)) as [y|];
      try congruence. intros H. exists y, x. repeat split; lia.
  - intros a b c _ _ _ (x & y & Hx & Hy & Hxy) (y' & z & Hy' & Hz & Hyz).
    exists x, z. repeat split; try assumption. rewrite Hy in Hy'. injection Hy' as <-. lia.
Qed.

End DateOrder.

Lemma accumulate_step st r :
  accumulate st r
  = Ok (group_step ds dateInit dateUpd (fst st) r,
        group_step polygon_name regionInit regionUpd (snd st) r).
Proof.
  destruct st as [dm rm]. unfold accumulate, group_step. cbv zeta.
  destruct (has_set_get_set (ds r) (dateInit r) (dateUpd r) dm) as (e & He & Hs).
  cbv zeta in He, Hs. unfold dateInit in He, Hs at 1. rewrite He. simpl.
  destruct (has_set_get_set (polygon_name r) (regionInit r) (regionUpd r) rm) as (e' & He' & Hs').
  cbv zeta in He', Hs'. unfold regionInit in He', Hs' at 1. rewrite He'. simpl.
  unfold dateUpd in Hs at 1. unfold regionUpd in Hs' at 1. rewrite Hs, Hs'. reflexivity.
Qed.

Lemma forEach_accumulate raw :
  forEach accumulate raw ([], [])
  = Ok (grouped ds dateInit dateUpd raw, grouped polygon_name regionInit regionUpd raw).
Proof.
  rewrite (forEach_pure _ _ _ _ accumulate_step), fold_left_pair. reflexivity.
Qed.

Lemma dateClosed_init r : dateInit r = dateClosed (ds r) [].
Proof. reflexivity. Qed.

Lemma dateClosed_upd rs r : dateUpd r (dateClosed (ds r) rs) = dateClosed (ds r) (rs ++ [r]).
Proof.
  unfold dateUpd, dateClosed, reduce_add. simpl.
  rewrite !map_app, !fold_left_app, length_app. simpl. f_equal. lia.
Qed.

Lemma regionClosed_init r : regionInit r = regionClosed (polygon_name r) [].
Proof. reflexivity. Qed.

Lemma regionClosed_upd rs r :
  regionUpd r (regionClosed (polygon_name r) rs) = regionClosed (polygon_name r) (rs ++ [r]).
Proof.
  unfold regionUpd, regionClosed, reduce_add. simpl.
  rewrite !map_app, !fold_left_app, length_app. simpl. f_equal. lia.
Qed.

Lemma dates_NoDup raw : List.NoDup (dates raw).
Proof. apply grouped_keys_NoDup. Qed.

Lemma dates_In raw k : In k (dates raw) <-> In k (map ds raw).
Proof. apply grouped_keys_In. Qed.

Lemma regions_NoDup raw : List.NoDup (regions raw).
Proof. apply grouped_keys_NoDup. Qed.

Lemma regions_In raw k : In k (regions raw) <-> In k (map polygon_name raw).
Proof. apply grouped_keys_In. Qed.

Lemma div_pos x n : n <> 0 -> div x n = Ok (x / inject_Z (Z.of_nat n))%Q.
Proof. unfold div. destruct n; [congruence|reflexivity]. Qed.

Lemma rows_length_pos {R} (key : R -> string) k l : In k (map key l) -> length (rows key k l) <> 0.
Proof.
  intros H. apply rows_nonempty in H. destruct (rows key k l); [congruence|discriminate].
Qed.

(** ** The Country Aggregator *)

Lemma mapM_map {A B C} (f : B -> outcome C) (h : A -> B) (g : A -> C) l :
  (forall x, In x l -> f (h x) = Ok (g x)) -> mapM f (map h l) = Ok (map g l).
Proof.
  induction l as [|x l IH]; intros H; simpl; [reflexivity|].
  rewrite H by now left. simpl. rewrite IH by (intros; apply H; now right). reflexivity.
Qed.

Section AggregateSpec.
Variable getTime : string -> option Z.

Local Abbreviation aggregateOf := (aggregateOf getTime).

Lemma calculateCountryAggregates_Some data c :
  c <> "" -> countryRows data c <> [] ->
  calculateCountryAggregates getTime data c = Ok (Some (aggregateOf (countryRows data c))).
Proof.
  intros Hc Hraw. unfold calculateCountryAggregates, falsy.
  apply String.eqb_neq in Hc. rewrite Hc.
  fold (countryRows data c). set (raw := countryRows data c) in *.
  destruct (Nat.eqb_spec (length raw) 0) as [E|_].
  { destruct raw; [congruence|discriminate]. }
  rewrite forEach_accumulate. simpl. unfold Map_entries, Map_values, Map_size.
  rewrite (grouped_entries ds dateInit dateUpd dateClosed dateClosed_init dateClosed_upd raw) at 1.
  fold (dates raw).
  rewrite (mapM_map _ _ (dateTrend raw)).
  2:{ intros k Hk. apply dates_In, (rows_length_pos ds) in Hk.
      unfold finalizeTrend, dateTrend, dateClosed, mean. simpl.
      rewrite !div_pos by assumption. simpl. now rewrite !List.length_map. }
  simpl.
  rewrite (grouped_entries polygon_name regionInit regionUpd regionClosed
             regionClosed_init regionClosed_upd raw) at 1.
  fold (regions raw). rewrite map_map. simpl.
  rewrite (mapM_map _ _ (regionRow raw)).
  2:{ intros k Hk. apply regions_In, (rows_length_pos polygon_name) in Hk.
      unfold finalizeMatrix, regionRow, regionClosed, mean. simpl.
      rewrite !div_pos by assumption. simpl. now rewrite !List.length_map. }
  simpl. unfold aggregateOf, regions. rewrite List.length_map. reflexivity.
Qed.

Lemma calculateCountryAggregates_None data c :
  c = "" \/ countryRows data c = [] -> calculateCountryAggregates getTime data c = Ok None.
Proof.
  unfold calculateCountryAggregates, falsy. intros [->|E]; [reflexivity|].
  destruct (String.eqb c ""); [reflexivity|].
  fold (countryRows data c). rewrite E. reflexivity.
Qed.

End AggregateSpec.

Lemma countryRows_In data c r : In r (countryRows data c) <-> In r data /\ country r = c.
Proof. unfold countryRows. rewrite List.filter_In, String.eqb_eq. reflexivity. Qed.

Lemma countryRows_nonempty data c : countryRows data c <> [] <-> hasRecord data c.
Proof.
  unfold hasRecord. split.
  - destruct (countryRows data c) as [|r rs] eqn:E; [congruence|]. intros _.
    exists r. apply countryRows_In. rewrite E. now left.
  - intros (r & Hr & Hc) E. assert (In r (countryRows data c)) as H by now apply countryRows_In.
    rewrite E in H. contradiction.
Qed.

Lemma calculateCountryAggregates_inv getTime data c agg :
  calculateCountryAggregates getTime data c = Ok (Some agg) ->
  c <> "" /\ hasRecord data c /\ agg = aggregateOf getTime (countryRows data c).
Proof.
  intros H.
  destruct (String.eqb_spec c "") as [->|Hc].
  { rewrite calculateCountryAggregates_None in H by now left. discriminate. }
  destruct (countryRows data c) as [|r rs] eqn:E.
  { rewrite calculateCountryAggregates_None in H by now right. discriminate. }
  assert (countryRows data c <> []) as Hne by (rewrite E; discriminate).
  rewrite calculateCountryAggregates_Some in H by assumption.
  injection H as <-. rewrite <- E. repeat split; try assumption.
  now apply countryRows_nonempty.
Qed.

Lemma name_regionRow raw : map name (map (regionRow raw) (regions raw)) = regions raw.
Proof. rewrite map_map. simpl. apply map_id. Qed.

Lemma NoDup_length_nodup (l1 l2 : list string) :
  List.NoDup l1 -> (forall x, In x l1 <-> In x l2) ->
  length l1 = length (nodup string_dec l2).
Proof.
  intros Hnd Hin. apply Permutation_length, Stdlib.Sorting.Permutation.NoDup_Permutation.
  - assumption.
  - apply List.NoDup_nodup.
  - intros x. rewrite nodup_In. apply Hin.
Qed.

(** C1.  For every country [C] with at least one matching record, the
    aggregator returns a non-null result whose matrix has exactly one entry
    per distinct region name among [C]'s records, and [matrix.length =
    totalRegions =] the number of distinct regions of [C].  The records are
    the engine's input as the specification assumes it and as the parser
    delivers it: every record names its country. *)
Theorem C1_matrix_one_entry_per_region getTime data C :
  Forall (fun r => country r <> "") data -> hasRecord data C ->
  exists agg,
    calculateCountryAggregates getTime data C = Ok (Some agg)
    /\ List.NoDup (map name (matrix agg))
    /\ (forall n, In n (map name (matrix agg))
                  <-> exists r, In r data /\ country r = C /\ polygon_name r = n)
    /\ length (matrix agg) = totalRegions agg
    /\ totalRegions agg = length (nodup string_dec (map polygon_name (countryRows data C))).
Proof.
  intros Hnamed Hrec.
  assert (C <> "") as HC.
  { destruct Hrec as (r & Hr & <-). rewrite List.Forall_forall in Hnamed. now apply Hnamed. }
  apply countryRows_nonempty in Hrec.
  exists (aggregateOf getTime (countryRows data C)).
  split; [now apply calculateCountryAggregates_Some|].
  set (raw := countryRows data C). simpl. rewrite name_regionRow.
  split; [apply regions_NoDup|]. split; [|split].
  - intros n. rewrite regions_In, in_map_iff. split.
    + intros (r & Hn & Hr). apply countryRows_In in Hr as [Hr Hc]. eauto.
    + intros (r & Hr & Hc & Hn). exists r. split; [assumption|]. now apply countryRows_In.
  - now rewrite List.length_map.
  - apply NoDup_length_nodup; [apply regions_NoDup|apply regions_In].
Qed.

Lemma C1_matrix_one_entry_per_region_witness :
  exists agg,
    calculateCountryAggregates isoTime sample "X" = Ok (Some agg)
    /\ List.NoDup (map name (matrix agg))
    /\ (forall n, In n (map name (matrix agg))
                  <-> exists r, In r sample /\ country r = "X" /\ polygon_name r = n)
    /\ length (matrix agg) = totalRegions agg
    /\ totalRegions agg = length (nodup string_dec (map polygon_name (countryRows sample "X"))).
Proof.
  apply (C1_matrix_one_entry_per_region isoTime sample "X").
  - repeat constructor; discriminate.
  - exists (record "2020-01-02" "X" "A" (-(2 # 10)) (5 # 10)). split; [now left|reflexivity].
Defined.

(** The guard [if (!country) return null]: the empty selector has no
    aggregate, whatever the records. *)
Example calculateCountryAggregates_guard :
  calculateCountryAggregates isoTime unnamed "" = Ok None
  /\ calculateCountryAggregates isoTime sample "" = Ok None.
Proof. split; reflexivity. Qed.

Lemma nat2Q_nonzero n : n <> 0 -> ~ (nat2Q n == 0)%Q.
Proof.
  intros Hn H. unfold nat2Q, Qeq in H. simpl in H. lia.
Qed.

Lemma mean_spec {A} (f : A -> Q) l : (mean (map f l) == sumBy f l / nat2Q (length l))%Q.
Proof. unfold mean, nat2Q. now rewrite reduce_add_sumBy, List.length_map. Qed.

Lemma mean_times_length {A} (f : A -> Q) l :
  length l <> 0 -> (mean (map f l) * nat2Q (length l) == sumBy f l)%Q.
Proof.
  intros Hl. rewrite mean_spec. field. now apply nat2Q_nonzero.
Qed.

(** The worked example of the specification: one trend point with the
    averages [-0.1] and [0.4], two matrix rows of one data point each. *)
Example calculateCountryAggregates_worked :
  exists t a b,
    calculateCountryAggregates isoTime worked "X"
    = Ok (Some {| trend := [t]; matrix := [a; b]; totalRegions := 2 |})
    /\ Trend.ds t = "2020-01-01"
    /\ (Trend.avgMobility t == -(1 # 10))%Q /\ (Trend.avgStay t == 4 # 10)%Q
    /\ name a = "A" /\ dataPoints a = 1 /\ name b = "B" /\ dataPoints b = 1.
Proof. do 3 eexists. split; [vm_compute; reflexivity|]. repeat split. Qed.

(** C2.  In every result of the aggregator, the matrix's averages weighted
    by their data points, and the trend's averages weighted by the row
    count of their date, both sum to the grand total of [mobilityChange]
    over the country's records (exactly, over the rationals). *)
Theorem C2_weighted_sums_agree getTime data C agg :
  calculateCountryAggregates getTime data C = Ok (Some agg) ->
  let raw := countryRows data C in
  (sumBy (fun e => avgMobility e * nat2Q (dataPoints e)) (matrix agg) == sumBy mob raw)%Q
  /\ (sumBy (fun t => Trend.avgMobility t * nat2Q (rowCount raw (Trend.ds t))) (trend agg)
      == sumBy mob raw)%Q.
Proof.
  intros H raw. apply calculateCountryAggregates_inv in H as (_ & _ & ->). fold raw. split.
  - simpl. rewrite sumBy_map. simpl.
    rewrite <- (sumBy_partition polygon_name mob (regions raw) raw).
    + apply sumBy_ext, List.Forall_forall. intros k Hk.
      apply mean_times_length, rows_length_pos. now apply regions_In.
    + apply regions_NoDup.
    + intros r Hr. apply regions_In. now apply in_map.
  - simpl. rewrite (sumBy_Permutation _ _ _ (sortBy_Permutation _ _)), sumBy_map. simpl.
    rewrite <- (sumBy_partition ds mob (dates raw) raw).
    + apply sumBy_ext, List.Forall_forall. intros k Hk. unfold rowCount.
      apply mean_times_length, rows_length_pos. now apply dates_In.
    + apply dates_NoDup.
    + intros r Hr. apply dates_In. now apply in_map.
Qed.

Lemma C2_weighted_sums_agree_witness :
  exists agg,
    calculateCountryAggregates isoTime sample "X" = Ok (Some agg)
    /\ (sumBy (fun e => avgMobility e * nat2Q (dataPoints e)) (matrix agg) == -(6 # 10))%Q
    /\ (sumBy (fun t => Trend.avgMobility t * nat2Q (rowCount (countryRows sample "X") (Trend.ds t)))
          (trend agg) == -(6 # 10))%Q.
Proof.
  eexists. split; [vm_compute; reflexivity|].
  destruct (C2_weighted_sums_agree isoTime sample "X" _ eq_refl) as [H1 H2].
  split; [rewrite H1|rewrite H2]; reflexivity.
Defined.

(** *** Running extremes *)

Lemma fold_left_Qmax_isMaximum l : forall a, isMaximum (a :: l) (fold_left Qmax l a).
Proof.
  induction l as [|x l IH]; intros a; simpl.
  - split; [exists a; split; [now left|reflexivity]|]. intros v [<-|[]]. apply Qle_refl.
  - destruct (IH (Qmax a x)) as [(v & Hv & Hm) Hub]. split.
    + destruct Hv as [<-|Hv].
      * destruct (Q.max_spec a x) as [[_ E]|[_ E]].
        -- exists x. split; [right; now left|]. now rewrite <- Hm, E.
        -- exists a. split; [now left|]. now rewrite <- Hm, E.
      * exists v. split; [right; now right|assumption].
    + assert (Qmax a x <= fold_left Qmax l (Qmax a x))%Q as Hax by (apply Hub; now left).
      intros w [<-|[<-|Hw]].
      * eapply Qle_trans; [apply Q.le_max_l|exact Hax].
      * eapply Qle_trans; [apply Q.le_max_r|exact Hax].
      * apply Hub. now right.
Qed.

Lemma fold_left_Qmin_isMinimum l : forall a, isMinimum (a :: l) (fold_left Qmin l a).
Proof.
  induction l as [|x l IH]; intros a; simpl.
  - split; [exists a; split; [now left|reflexivity]|]. intros v [<-|[]]. apply Qle_refl.
  - destruct (IH (Qmin a x)) as [(v & Hv & Hm) Hlb]. split.
    + destruct Hv as [<-|Hv].
      * destruct (Q.min_spec a x) as [[_ E]|[_ E]].
        -- exists a. split; [now left|]. now rewrite <- Hm, E.
        -- exists x. split; [right; now left|]. now rewrite <- Hm, E.
      * exists v. split; [right; now right|assumption].
    + assert (fold_left Qmin l (Qmin a x) <= Qmin a x)%Q as Hax by (apply Hlb; now left).
      intros w [<-|[<-|Hw]].
      * eapply Qle_trans; [exact Hax|apply Q.le_min_l].
      * eapply Qle_trans; [exact Hax|apply Q.le_min_r].
      * apply Hlb. now right.
Qed.

(** A seed that some value reaches does not show in the extreme. *)
Lemma isMaximum_seed a l m :
  isMaximum (a :: l) m -> (exists v, In v l /\ (a <= v)%Q) -> isMaximum l m.
Proof.
  intros [(v & Hv & Hm) Hub] (w & Hw & Haw). split; [|intros; apply Hub; now right].
  destruct Hv as [<-|Hv]; [|eauto].
  exists w. split; [assumption|]. apply Qle_antisym.
  - apply Hub. now right.
  - now rewrite <- Hm.
Qed.

Lemma isMinimum_seed a l m :
  isMinimum (a :: l) m -> (exists v, In v l /\ (v <= a)%Q) -> isMinimum l m.
Proof.
  intros [(v & Hv & Hm) Hlb] (w & Hw & Haw). split; [|intros; apply Hlb; now right].
  destruct Hv as [<-|Hv]; [|eauto].
  exists w. split; [assumption|]. apply Qle_antisym.
  - now rewrite <- Hm.
  - apply Hlb. now right.
Qed.

(** C5, as amended.  In every result of the aggregator and for every region
    [R] with a matching record, the one matrix entry named [R] has
    [dataPoints] equal to [R]'s row count, [avgMobility] and [avgStay] equal
    to the arithmetic means over [R]'s rows, [maxStay] equal to the maximum
    of the seed [-1] and the rows' [stayHomeRatio], and [minMobility] equal
    to the minimum of the seed [999] and the rows' [mobilityChange]; so they
    are the rows' own extremes when a row has a ratio of at least [-1],
    resp. a change of at most [999]. *)
Theorem C5_region_statistics getTime data C R agg :
  calculateCountryAggregates getTime data C = Ok (Some agg) ->
  (exists r, In r data /\ country r = C /\ polygon_name r = R) ->
  let rs := rows polygon_name R (countryRows data C) in
  exists e,
    In e (matrix agg) /\ name e = R
    /\ (forall e', In e' (matrix agg) -> name e' = R -> e' = e)
    /\ dataPoints e = length rs
    /\ (avgMobility e == sumBy mob rs / nat2Q (length rs))%Q
    /\ (avgStay e == sumBy sty rs / nat2Q (length rs))%Q
    /\ isMaximum ((-1)%Q :: map sty rs) (maxStay e)
    /\ isMinimum (999%Q :: map mob rs) (minMobility e)
    /\ ((exists r, In r rs /\ (-1 <= sty r)%Q) -> isMaximum (map sty rs) (maxStay e))
    /\ ((exists r, In r rs /\ (mob r <= 999)%Q) -> isMinimum (map mob rs) (minMobility e)).
Proof.
  intros H (r & Hr & Hc & HR) rs.
  apply calculateCountryAggregates_inv in H as (_ & _ & ->).
  set (raw := countryRows data C) in *.
  assert (In R (regions raw)) as HinR.
  { apply regions_In, in_map_iff. exists r. split; [assumption|]. now apply countryRows_In. }
  exists (regionRow raw R). simpl. split; [now apply in_map|]. split; [reflexivity|].
  split.
  { intros e' He' Hn. apply in_map_iff in He' as (k & <- & _). simpl in Hn. now subst k. }
  fold rs. split; [reflexivity|]. split; [apply mean_spec|]. split; [apply mean_spec|].
  pose proof (fold_left_Qmax_isMaximum (map sty rs) (-1)%Q) as Hmax.
  pose proof (fold_left_Qmin_isMinimum (map mob rs) 999%Q) as Hmin.
  split; [exact Hmax|]. split; [exact Hmin|]. split.
  - intros (r' & Hr' & Hle). apply (isMaximum_seed _ _ _ Hmax).
    exists (sty r'). split; [now apply in_map|assumption].
  - intros (r' & Hr' & Hle). apply (isMinimum_seed _ _ _ Hmin).
    exists (mob r'). split; [now apply in_map|assumption].
Qed.

Lemma C5_region_statistics_witness :
  exists agg e,
    calculateCountryAggregates isoTime sample "X" = Ok (Some agg)
    /\ In e (matrix agg) /\ name e = "A" /\ dataPoints e = 2
    /\ (avgMobility e == -(3 # 10))%Q /\ (avgStay e == 3 # 10)%Q
    /\ isMaximum [5 # 10; 1 # 10]%Q (maxStay e)
    /\ isMinimum [-(2 # 10); -(4 # 10)]%Q (minMobility e).
Proof.
  assert (exists agg, calculateCountryAggregates isoTime sample "X" = Ok (Some agg))
    as [agg Hagg] by (eexists; vm_compute; reflexivity).
  destruct (C5_region_statistics isoTime sample "X" "A" agg Hagg)
    as (e & Hin & Hn & _ & Hd & Hm & Hs & _ & _ & Hmax & Hmin).
  { exists (record "2020-01-02" "X" "A" (-(2 # 10)) (5 # 10)).
    split; [now left|split; reflexivity]. }
  exists agg, e. split; [exact Hagg|]. split; [exact Hin|]. split; [exact Hn|].
  split; [exact Hd|]. split; [rewrite Hm; reflexivity|]. split; [rewrite Hs; reflexivity|].
  split.
  - apply Hmax. eexists. split; [now left|]. discriminate.
  - apply Hmin. eexists. split; [now left|]. discriminate.
Defined.

(** C5 as stated fails beyond the seeds: the only row of region A has a
    ratio of [-2] and a change of [1000], and the entry reports [-1] and
    [999]. *)
Lemma C5_seed_counterexample :
  exists agg e,
    calculateCountryAggregates isoTime beyondSeeds "X" = Ok (Some agg)
    /\ matrix agg = [e] /\ name e = "A"
    /\ map sty (rows polygon_name "A" (countryRows beyondSeeds "X")) = [(-2)%Q]
    /\ map mob (rows polygon_name "A" (countryRows beyondSeeds "X")) = [1000%Q]
    /\ (maxStay e == -1)%Q /\ ~ isMaximum [(-2)%Q] (maxStay e)
    /\ (minMobility e == 999)%Q /\ ~ isMinimum [1000%Q] (minMobility e).
Proof.
  eexists. eexists. split; [vm_compute; reflexivity|]. simpl.
  split; [reflexivity|]. split; [reflexivity|]. split; [reflexivity|]. split; [reflexivity|].
  split; [reflexivity|]. split.
  { intros [(v & [<-|[]] & Hv) _]. vm_compute in Hv. discriminate. }
  split; [reflexivity|].
  intros [(v & [<-|[]] & Hv) _]. vm_compute in Hv. discriminate.
Qed.

(** ** The Region-as-Aggregate Adapter and the two aggregation paths *)


Lemma calculateRegionAsAggregate_nil regionName : calculateRegionAsAggregate [] regionName = Ok None.
Proof. reflexivity. Qed.

Lemma getNormalizedSeries_whole getTime data C :
  getNormalizedSeries getTime data C WHOLE_COUNTRY_OPTION
  = agg ← calculateCountryAggregates getTime data C;
    Ok (match agg with
        | None => []
        | Some agg =>
            map (fun t => Norm.mk (Trend.ds t) (Trend.avgMobility t) (Trend.avgStay t)
                            (Some "AVERAGE")) (trend agg)
        end).
Proof.
  unfold getNormalizedSeries. destruct (String.eqb_spec C "") as [->|HC].
  - reflexivity.
  - unfold falsy. apply String.eqb_neq in HC. rewrite HC. cbn [orb String.eqb].
    change (String.eqb WHOLE_COUNTRY_OPTION "") with false.
    rewrite String.eqb_refl. cbn [orb].
    destruct (calculateCountryAggregates getTime data C) as [[agg|]| | |]; reflexivity.
Qed.


Lemma dates_nonempty raw : raw <> [] -> dates raw <> [].
Proof.
  destruct raw as [|r raw]; [congruence|]. intros _ E.
  assert (In (ds r) (dates (r :: raw))) as H by (apply dates_In; now left).
  rewrite E in H. contradiction.
Qed.

Lemma trend_aggregateOf_nonempty getTime raw : raw <> [] -> trend (aggregateOf getTime raw) <> [].
Proof.
  intros Hraw E. apply (f_equal (@length _)) in E. simpl in E.
  rewrite sortBy_length, List.length_map in E.
  apply dates_nonempty in Hraw. destruct (dates raw); [congruence|discriminate].
Qed.

Lemma hasRecord_dec data C : hasRecord data C \/ ~ hasRecord data C.
Proof.
  destruct (countryRows data C) as [|r rs] eqn:E.
  - right. intros H. now apply countryRows_nonempty in H.
  - left. apply countryRows_nonempty. rewrite E. discriminate.
Qed.




(** ** The Series Normalizer *)

Lemma StronglySorted_map {A B} (f : A -> B) (R : B -> B -> Prop) l :
  StronglySorted (fun a b => R (f a) (f b)) l -> StronglySorted R (map f l).
Proof.
  induction 1 as [|x l _ IH Hx]; simpl; constructor; [assumption|].
  rewrite List.Forall_forall in *. intros y Hy.
  apply in_map_iff in Hy as (a & <- & Ha). now apply Hx.
Qed.

Lemma getNormalizedSeries_empty getTime data c r :
  c = "" \/ r = "" -> getNormalizedSeries getTime data c r = Ok [].
Proof.
  unfold getNormalizedSeries, falsy. intros [-> | ->]; [reflexivity|].
  rewrite String.eqb_refl, orb_true_r. reflexivity.
Qed.

Lemma getNormalizedSeries_region getTime data c r :
  c <> "" -> r <> "" -> r <> WHOLE_COUNTRY_OPTION ->
  getNormalizedSeries getTime data c r
  = Ok (map (fun d => Norm.mk (ds d) (mob d) (sty d) (Some (baseline_type d)))
          (sortBy (fun a b => dateDiff getTime (ds a) (ds b))
             (List.filter (fun d => String.eqb (country d) c && String.eqb (polygon_name d) r)
                data))).
Proof.
  intros Hc Hr Hw. unfold getNormalizedSeries, falsy.
  apply String.eqb_neq in Hc, Hr, Hw. rewrite Hc, Hr, Hw. reflexivity.
Qed.

Lemma trend_sorted getTime raw :
  Forall (fun d => validDate getTime (ds d)) raw ->
  StronglySorted (fun a b => dateLe getTime (Trend.ds a) (Trend.ds b))
    (trend (aggregateOf getTime raw)).
Proof.
  intros Hv. simpl. apply sortBy_date_sorted.
  rewrite List.Forall_forall in *. intros t Ht.
  apply in_map_iff in Ht as (k & <- & Hk). simpl.
  apply dates_In, in_map_iff in Hk as (d & <- & Hd). now apply Hv.
Qed.

(** C6.  The normalizer always returns a series.  For a non-empty country
    and a non-empty region selector other than the sentinel, the series is
    a rearrangement of exactly the records that match both country and
    region, each mapped to [{ds, mobility, stay, baseline_type}] with the
    record's own values; and whatever the selectors, the series ascends by
    date when the dates of the country's records parse. *)
Theorem C6_normalized_series getTime data c r :
  exists out,
    getNormalizedSeries getTime data c r = Ok out
    /\ (c <> "" -> r <> "" -> r <> WHOLE_COUNTRY_OPTION ->
        Permutation out
          (map (fun d => Norm.mk (ds d) (mob d) (sty d) (Some (baseline_type d)))
             (List.filter (fun d => String.eqb (country d) c && String.eqb (polygon_name d) r)
                data)))
    /\ (Forall (fun d => validDate getTime (ds d)) (countryRows data c) ->
        StronglySorted (fun a b => dateLe getTime (Norm.ds a) (Norm.ds b)) out).
Proof.
  destruct (String.eqb_spec c "") as [->|Hc].
  { exists []. split; [reflexivity|]. split; [congruence|constructor]. }
  destruct (String.eqb_spec r "") as [->|Hr].
  { exists []. split; [apply getNormalizedSeries_empty; now right|].
    split; [congruence|constructor]. }
  destruct (String.eqb_spec r WHOLE_COUNTRY_OPTION) as [->|Hw].
  - rewrite getNormalizedSeries_whole.
    destruct (hasRecord_dec data c) as [Hrec|Hno].
    + apply countryRows_nonempty in Hrec.
      rewrite calculateCountryAggregates_Some by assumption. simpl mbind.
      eexists. split; [reflexivity|]. split; [congruence|]. intros Hv.
      apply (StronglySorted_map
               (fun t => Norm.mk (Trend.ds t) (Trend.avgMobility t) (Trend.avgStay t)
                           (Some "AVERAGE"))
               (fun a b => dateLe getTime (Norm.ds a) (Norm.ds b))).
      now apply trend_sorted.
    + rewrite calculateCountryAggregates_None.
      * exists []. split; [reflexivity|]. split; [congruence|constructor].
      * right. destruct (countryRows data c) eqn:E; [reflexivity|].
        exfalso. apply Hno, countryRows_nonempty. rewrite E. discriminate.
  - rewrite getNormalizedSeries_region by assumption. eexists. split; [reflexivity|]. split.
    + intros _ _ _. apply Permutation_map, sortBy_Permutation.
    + intros Hv.
      apply (StronglySorted_map
               (fun d => Norm.mk (ds d) (mob d) (sty d) (Some (baseline_type d)))
               (fun a b => dateLe getTime (Norm.ds a) (Norm.ds b))).
      apply (sortBy_date_sorted getTime ds).
      rewrite List.Forall_forall in *. intros d Hd. apply Hv.
      apply List.filter_In in Hd as [Hd Hm]. apply andb_true_iff in Hm as [Hm _].
      apply countryRows_In. split; [assumption|]. now apply String.eqb_eq.
Qed.

Lemma C6_normalized_series_witness :
  exists out,
    getNormalizedSeries isoTime sample "X" "A" = Ok out
    /\ Permutation out
         [ Norm.mk "2020-01-02" (-(2 # 10)) (5 # 10) (Some "DAY_OF_WEEK");
           Norm.mk "2020-01-01" (-(4 # 10)) (1 # 10) (Some "DAY_OF_WEEK") ]
    /\ StronglySorted (fun a b => dateLe isoTime (Norm.ds a) (Norm.ds b)) out.
Proof.
  destruct (C6_normalized_series isoTime sample "X" "A") as (out & Hout & Hperm & Hsorted).
  exists out. split; [exact Hout|]. split.
  - apply Hperm; discriminate.
  - apply Hsorted. repeat constructor; discriminate.
Defined.

(** ** The Stats Summarizer *)

Lemma calculateStats_Some dataset first final :
  head dataset = Some first -> last dataset = Some final ->
  calculateStats dataset
  = Ok (Some (Stats.mk
                (toFixed1 (mean (map Norm.mobility dataset) * 100))
                (toFixed1 (fold_left Qmax (map Norm.stay (tail dataset)) (Norm.stay first) * 100))
                (length dataset) (Norm.ds first) (Norm.ds final))).
Proof.
  intros Hfirst Hlast. unfold calculateStats.
  rewrite head_lookup in Hfirst. rewrite last_lookup, <- Nat.sub_1_r in Hlast.
  destruct dataset as [|p rest]; [discriminate|].
  injection Hfirst as ->.
  cbn [length Nat.eqb]. rewrite div_pos by (rewrite List.length_map; discriminate).
  cbn [map Math_max mbind outcome_bind]. cbn [length] in Hlast.
  rewrite Hlast. reflexivity.
Qed.

Example calculateStats_descending :
  calculateStats descending
  = Ok (Some (Stats.mk (Digits "-30.0") (Digits "50.0") 2 "2020-01-02" "2020-01-01")).
Proof. reflexivity. Qed.



(** ** The normalizer returns on every input *)

Lemma getNormalizedSeries_total getTime data c r :
  exists out, getNormalizedSeries getTime data c r = Ok out.
Proof.
  destruct (String.eqb_spec c "") as [->|Hc]; [now exists []|].
  destruct (String.eqb_spec r "") as [->|Hr].
  { exists []. apply getNormalizedSeries_empty. now right. }
  destruct (String.eqb_spec r WHOLE_COUNTRY_OPTION) as [->|Hw].
  - rewrite getNormalizedSeries_whole.
    destruct (hasRecord_dec data c) as [Hrec|Hno].
    + apply countryRows_nonempty in Hrec.
      rewrite calculateCountryAggregates_Some by assumption. eexists. reflexivity.
    + rewrite calculateCountryAggregates_None; [now exists []|].
      right. destruct (countryRows data c) eqn:E; [reflexivity|].
      exfalso. apply Hno, countryRows_nonempty. rewrite E. discriminate.
  - rewrite getNormalizedSeries_region by assumption. eexists. reflexivity.
Qed.

(** ** The Comparison Merger *)

Lemma fold_left_map_l {A B S} (f : S -> B -> S) (g : A -> B) l s :
  fold_left f (map g l) s = fold_left (fun s x => f s (g x)) l s.
Proof. revert s. induction l as [|x l IH]; intros s; simpl; [reflexivity|apply IH]. Qed.

Lemma fold_left_ext_eq {A S} (f g : S -> A -> S) l s :
  (forall s x, f s x = g s x) -> fold_left f l s = fold_left g l s.
Proof.
  intros H. revert s. induction l as [|x l IH]; intros s; simpl; [reflexivity|].
  rewrite H. apply IH.
Qed.

Lemma Map_set_as_upsert {V} k (v i : V) m : Map_set k v m = upsert k i (fun _ => v) m.
Proof.
  unfold upsert. destruct (Map_get k m) eqn:E; [reflexivity|now apply Map_set_fresh].
Qed.

Lemma rows_unique {R} (key : R -> string) l p :
  List.NoDup (map key l) -> In p l -> rows key (key p) l = [p].
Proof.
  induction l as [|x l IH]; simpl; [tauto|]. intros Hnd Hin.
  apply NoDup_cons_iff in Hnd as [Hni Hnd].
  assert (forall k, ~ In k (map key l) -> rows key k l = []) as Habsent.
  { intros k Hk. destruct (rows key k l) as [|y ys] eqn:E; [reflexivity|]. exfalso.
    apply Hk, (rows_nonempty key). rewrite E. discriminate. }
  destruct Hin as [->|Hin].
  - rewrite String.eqb_refl. fold (rows key (key p) l). now rewrite Habsent.
  - destruct (String.eqb_spec (key x) (key p)) as [E|_].
    + exfalso. apply Hni. rewrite E. now apply in_map.
    + now apply IH.
Qed.

Lemma rows_absent {R} (key : R -> string) l k : ~ In k (map key l) -> rows key k l = [].
Proof.
  intros Hk. destruct (rows key k l) as [|y ys] eqn:E; [reflexivity|]. exfalso.
  apply Hk, (rows_nonempty key). rewrite E. discriminate.
Qed.

Section JoinFacts.
Context {T : Type} (dsT : T -> string) (mobT stayT : T -> Q).
Variables (label1 createdLabel : option string) (label2 : string).

Local Abbreviation key := (joinKey dsT).
Local Abbreviation init := (joinInit dsT createdLabel).
Local Abbreviation upd := (joinUpd dsT mobT stayT label1 label2).
Local Abbreviation closed := (joinClosed dsT mobT stayT label1 createdLabel label2).
Local Abbreviation join := (joined dsT mobT stayT label1 createdLabel label2).

Lemma secondaryStep_as_upsert m d :
  secondaryStep dsT mobT stayT createdLabel label2 m d
  = upsert (dsT d) (createdRow createdLabel (dsT d)) (withSecondary mobT stayT label2 d) m.
Proof.
  unfold secondaryStep, upsert. destruct (Map_get (dsT d) m) eqn:E; [reflexivity|].
  now apply Map_set_fresh.
Qed.

Lemma loops_joined a b :
  fold_left (secondaryStep dsT mobT stayT createdLabel label2) b
    (fold_left (primaryStep dsT mobT stayT label1) a [])
  = join a b.
Proof.
  unfold joined, grouped, tagged. rewrite fold_left_app, !fold_left_map_l.
  rewrite (fold_left_ext_eq _ (fun s x => group_step key init upd s (inr x)) b)
    by (intros; apply secondaryStep_as_upsert).
  f_equal. apply fold_left_ext_eq. intros s x. apply (Map_set_as_upsert _ _ (init (inl x))).
Qed.

Lemma rows_tagged k a b :
  rows key k (tagged a b) = map inl (rows dsT k a) ++ map inr (rows dsT k b).
Proof.
  unfold rows, tagged. rewrite List.filter_app. f_equal.
  - induction a as [|x a IH]; simpl; [reflexivity|].
    destruct (String.eqb (dsT x) k); simpl; now rewrite IH.
  - induction b as [|x b IH]; simpl; [reflexivity|].
    destruct (String.eqb (dsT x) k); simpl; now rewrite IH.
Qed.

Lemma joined_entries a b :
  join a b = map (fun k => (k, closed k (rows key k (tagged a b)))) (map fst (join a b)).
Proof.
  apply (grouped_entries key init upd closed).
  - reflexivity.
  - intros rs r. unfold joinClosed. now rewrite fold_left_app.
Qed.

Lemma joined_keys_NoDup a b : List.NoDup (map fst (join a b)).
Proof. apply grouped_keys_NoDup. Qed.

Lemma joined_keys_In a b k :
  In k (map fst (join a b)) <-> In k (map dsT a) \/ In k (map dsT b).
Proof.
  unfold joined. rewrite grouped_keys_In. unfold tagged.
  rewrite map_app, in_app_iff, !map_map. reflexivity.
Qed.

(** The row of a date, by where the date occurs. *)
Lemma joined_row a b k e :
  List.NoDup (map dsT a) -> List.NoDup (map dsT b) -> In (k, e) (join a b) ->
  Chart.ds e = k
  /\ (forall p, In p a -> dsT p = k ->
        Chart.primary_mobility e = NotNull (mobT p) /\ Chart.primary_stay e = NotNull (stayT p))
  /\ (forall q, In q b -> dsT q = k ->
        Chart.secondary_mobility e = Some (mobT q) /\ Chart.secondary_stay e = Some (stayT q))
  /\ (~ In k (map dsT a) -> Chart.primary_mobility e = Null /\ Chart.primary_stay e = Null).
Proof.
  intros Ha Hb Hin. rewrite joined_entries in Hin.
  apply in_map_iff in Hin as (k' & [= <- <-] & _). rewrite rows_tagged.
  assert (forall l : list T, List.NoDup (map dsT l) ->
            (rows dsT k' l = [] /\ ~ In k' (map dsT l))
            \/ (exists p, rows dsT k' l = [p] /\ In p l /\ dsT p = k'
                          /\ forall p', In p' l -> dsT p' = k' -> p' = p)) as Hcase.
  { intros l Hl. destruct (in_dec string_dec k' (map dsT l)) as [Hk|Hk].
    - right. apply in_map_iff in Hk as (p & <- & Hp). exists p.
      pose proof (rows_unique dsT l p Hl Hp) as E. repeat split; try assumption.
      intros p' Hp' Hk'. assert (In p' (rows dsT (dsT p) l)) as H by now apply rows_In.
      rewrite E in H. destruct H as [->|[]]. reflexivity.
    - left. split; [now apply rows_absent|assumption]. }
  assert (forall (l : list T) x, ~ In k' (map dsT l) -> In x l -> dsT x = k' -> False) as Habs.
  { intros l x Hn Hx Hk. apply Hn. rewrite <- Hk. now apply in_map. }
  destruct (Hcase a Ha) as [[Ea Hna]|(p & Ea & Hp & Hkp & Hup)];
    destruct (Hcase b Hb) as [[Eb Hnb]|(q & Eb & Hq & Hkq & Huq)];
    rewrite Ea, Eb; cbn.
  - split; [reflexivity|]. split; [|split].
    + intros x Hx Hkx. destruct (Habs a x Hna Hx Hkx).
    + intros x Hx Hkx. destruct (Habs b x Hnb Hx Hkx).
    + intros _. split; reflexivity.
  - split; [reflexivity|]. split; [|split].
    + intros x Hx Hkx. destruct (Habs a x Hna Hx Hkx).
    + intros x Hx Hkx. rewrite (Huq x Hx Hkx). split; reflexivity.
    + intros _. split; reflexivity.
  - split; [exact Hkp|]. split; [|split].
    + intros x Hx Hkx. rewrite (Hup x Hx Hkx). split; reflexivity.
    + intros x Hx Hkx. destruct (Habs b x Hnb Hx Hkx).
    + intros Hn. exfalso. apply Hn. rewrite <- Hkp. now apply in_map.
  - split; [exact Hkp|]. split; [|split].
    + intros x Hx Hkx. rewrite (Hup x Hx Hkx). split; reflexivity.
    + intros x Hx Hkx. rewrite (Huq x Hx Hkx). split; reflexivity.
    + intros Hn. exfalso. apply Hn. rewrite <- Hkp. now apply in_map.
Qed.

End JoinFacts.

Section JoinSpec.
Context {T : Type} (dsT : T -> string) (mobT stayT : T -> Q).
Variables (label1 createdLabel : option string) (label2 : string).

Local Abbreviation join := (joined dsT mobT stayT label1 createdLabel label2).

Lemma joined_ds a b :
  List.NoDup (map dsT a) -> List.NoDup (map dsT b) ->
  map Chart.ds (map snd (join a b)) = map fst (join a b).
Proof.
  intros Ha Hb.
  assert (forall m : Map ChartDataPoint, (forall k e, In (k, e) m -> Chart.ds e = k) ->
            map Chart.ds (map snd m) = map fst m) as Hall.
  { induction m as [|[k e] m IH]; intros H; simpl; [reflexivity|].
    rewrite IH by (intros; apply H; now right). now rewrite (H k e) by now left. }
  apply Hall. intros k e Hin.
  now destruct (joined_row dsT mobT stayT label1 createdLabel label2 a b k e Ha Hb Hin).
Qed.

Lemma joined_isOuterJoin a b rows :
  List.NoDup (map dsT a) -> List.NoDup (map dsT b) ->
  Permutation rows (map snd (join a b)) ->
  isOuterJoin dsT mobT stayT a b rows.
Proof.
  intros Ha Hb Hperm.
  assert (Permutation (map Chart.ds rows) (map fst (join a b))) as Hds.
  { rewrite <- joined_ds by assumption. now apply Permutation_map. }
  assert (List.NoDup (map Chart.ds rows)) as Hnd.
  { apply (Stdlib.Sorting.Permutation.Permutation_NoDup (Permutation_sym Hds)).
    apply joined_keys_NoDup. }
  assert (forall d, In d (map Chart.ds rows) <-> In d (map dsT a) \/ In d (map dsT b)) as Hin.
  { intros d. rewrite <- joined_keys_In. split; apply Permutation_in; [|symmetry]; exact Hds. }
  assert (forall row, In row rows -> In (Chart.ds row, row) (join a b)) as Hrow.
  { intros row Hr. apply (Permutation_in _ Hperm), in_map_iff in Hr as ([k e] & <- & He).
    simpl.
    destruct (joined_row dsT mobT stayT label1 createdLabel label2 a b k e Ha Hb He) as [-> _].
    exact He. }
  split; [exact Hnd|]. split; [exact Hin|]. split; [|split; [|split]].
  - rewrite <- (List.length_map Chart.ds). apply NoDup_length_nodup; [exact Hnd|].
    intros d. rewrite Hin, in_app_iff. reflexivity.
  - intros row p Hr Hp Hk.
    destruct (joined_row dsT mobT stayT label1 createdLabel label2 a b _ _ Ha Hb (Hrow row Hr))
      as (_ & H & _). apply H; [assumption|now symmetry].
  - intros row q Hr Hq Hk.
    destruct (joined_row dsT mobT stayT label1 createdLabel label2 a b _ _ Ha Hb (Hrow row Hr))
      as (_ & _ & H & _). apply H; [assumption|now symmetry].
  - intros row Hr Hn.
    destruct (joined_row dsT mobT stayT label1 createdLabel label2 a b _ _ Ha Hb (Hrow row Hr))
      as (_ & _ & _ & H). now apply H.
Qed.

Lemma joined_sorted getTime a b :
  List.NoDup (map dsT a) -> List.NoDup (map dsT b) ->
  Forall (validDate getTime) (map dsT a ++ map dsT b) ->
  StronglySorted (fun x y => dateLe getTime (Chart.ds x) (Chart.ds y))
    (sortBy (fun x y => dateDiff getTime (Chart.ds x) (Chart.ds y)) (map snd (join a b))).
Proof.
  intros Ha Hb Hv. apply sortBy_date_sorted.
  rewrite List.Forall_forall in *. intros row Hr. apply Hv.
  apply in_app_iff, (joined_keys_In dsT mobT stayT label1 createdLabel label2).
  rewrite <- joined_ds by assumption. now apply in_map.
Qed.

End JoinSpec.

Lemma comparisonChartData_joined getTime a b r1 c1 r2 c2 :
  comparisonChartData getTime a b true r1 c1 r2 c2
  = sortBy (fun x y => dateDiff getTime (Chart.ds x) (Chart.ds y))
      (map snd (joined Norm.ds Norm.mobility Norm.stay
                  (Some (if String.eqb r1 WHOLE_COUNTRY_OPTION then c1 +:+ " (Avg)" else r1))
                  None
                  (if String.eqb r2 WHOLE_COUNTRY_OPTION then c2 +:+ " (Avg)" else r2) a b)).
Proof.
  rewrite <- loops_joined. unfold comparisonChartData, Map_values. cbn [andb].
  destruct b as [|q b]; reflexivity.
Qed.

Lemma countryComparisonChartData_joined getTime d1 d2 c1 c2 ty reg :
  countryComparisonChartData getTime (Some d1) (Some d2) true c1 c2 ty reg
  = sortBy (fun x y => dateDiff getTime (Chart.ds x) (Chart.ds y))
      (map snd (joined Trend.ds Trend.avgMobility Trend.avgStay (Some c1) (Some c1)
                  (match ty with compare_country => c2 | compare_region => reg end)
                  (trend d1) (trend d2))).
Proof. rewrite <- loops_joined. reflexivity. Qed.

(** C4.  For two series whose dates are distinct within each, the merge is
    a full outer join on the date ([isOuterJoin]): exactly one row per date
    of either series; every row of a date of the primary series carries
    that point's primary values, not [null]; every row of a date of the
    secondary series carries that point's secondary values; rows of dates
    of the secondary series alone are present with [null] primary values.
    The rows ascend by date when the dates parse.  This holds of the merge
    of two normalized series and of the merge of two trends. *)
Theorem C4_merge_outer_join getTime :
  (forall a b r1 c1 r2 c2,
     List.NoDup (map Norm.ds a) -> List.NoDup (map Norm.ds b) ->
     let rows := comparisonChartData getTime a b true r1 c1 r2 c2 in
     isOuterJoin Norm.ds Norm.mobility Norm.stay a b rows
     /\ (Forall (validDate getTime) (map Norm.ds a ++ map Norm.ds b) ->
         StronglySorted (fun x y => dateLe getTime (Chart.ds x) (Chart.ds y)) rows))
  /\ (forall d1 d2 c1 c2 ty reg,
        List.NoDup (map Trend.ds (trend d1)) -> List.NoDup (map Trend.ds (trend d2)) ->
        let rows := countryComparisonChartData getTime (Some d1) (Some d2) true c1 c2 ty reg in
        isOuterJoin Trend.ds Trend.avgMobility Trend.avgStay (trend d1) (trend d2) rows
        /\ (Forall (validDate getTime) (map Trend.ds (trend d1) ++ map Trend.ds (trend d2)) ->
            StronglySorted (fun x y => dateLe getTime (Chart.ds x) (Chart.ds y)) rows)).
Proof.
  split.
  - intros a b r1 c1 r2 c2 Ha Hb rows. subst rows. rewrite comparisonChartData_joined. split.
    + eapply joined_isOuterJoin; [assumption..|apply sortBy_Permutation].
    + now apply joined_sorted.
  - intros d1 d2 c1 c2 ty reg Ha Hb rows. subst rows.
    rewrite countryComparisonChartData_joined. split.
    + eapply joined_isOuterJoin; [assumption..|apply sortBy_Permutation].
    + now apply joined_sorted.
Qed.

Example comparisonChartData_example :
  comparisonChartData isoTime seriesA seriesB true "A" "X" WHOLE_COUNTRY_OPTION "Y"
  = [ Chart.mk "2020-01-01" (NotNull (-(4 # 10))%Q) (NotNull (1 # 10)) (Some "A") None None None;
      Chart.mk "2020-01-02" (NotNull (-(2 # 10))%Q) (NotNull (5 # 10)) (Some "A")
        (Some 0%Q) (Some (3 # 10)) (Some "Y (Avg)");
      Chart.mk "2020-01-03" Null Null None (Some (1 # 10)) (Some (2 # 10)) (Some "Y (Avg)") ].
Proof. reflexivity. Qed.

Ltac distinct_strings :=
  repeat (constructor; [simpl; intuition discriminate|]); constructor.

Lemma C4_merge_outer_join_witness :
  let rows := comparisonChartData isoTime seriesA seriesB true "A" "X" "B" "X" in
  isOuterJoin Norm.ds Norm.mobility Norm.stay seriesA seriesB rows
  /\ StronglySorted (fun x y => dateLe isoTime (Chart.ds x) (Chart.ds y)) rows.
Proof.
  destruct (C4_merge_outer_join isoTime) as [H _].
  destruct (H seriesA seriesB "A" "X" "B" "X") as [Hjoin Hsorted]; [distinct_strings..|].
  split; [exact Hjoin|]. apply Hsorted. repeat constructor; discriminate.
Defined.

(** ** The Matrix Sorter *)

Lemma Qltb_lt a b : Qltb a b = true <-> (a < b)%Q.
Proof.
  unfold Qltb. rewrite negb_true_iff. split.
  - intros H. apply Qnot_le_lt. intros Hle. apply Qle_bool_iff in Hle. congruence.
  - intros H. destruct (Qle_bool b a) eqn:E; [|reflexivity].
    apply Qle_bool_iff in E. exfalso. now apply (Qlt_not_le _ _ H).
Qed.

Lemma string_compare_OT a : forall b, String.compare a b = OrdersEx.String_as_OT.compare a b.
Proof.
  induction a as [|x a IH]; intros [|y b]; simpl; try reflexivity.
Qed.

Lemma string_ltb_lt a b : String.ltb a b = true <-> OrdersEx.String_as_OT.lt a b.
Proof.
  unfold String.ltb, OrdersEx.String_as_OT.lt. rewrite string_compare_OT.
  destruct (OrdersEx.String_as_OT.compare a b); split; congruence.
Qed.

Lemma field_lt_irrefl key a : field_lt key a a = false.
Proof.
  destruct key; simpl.
  - destruct (String.ltb (name a) (name a)) eqn:E; [|reflexivity].
    apply string_ltb_lt in E. now apply (StrictOrder_Irreflexive (name a)) in E.
  - destruct (Qltb (avgMobility a) (avgMobility a)) eqn:E; [|reflexivity].
    apply Qltb_lt, Qlt_irrefl in E. contradiction.
  - destruct (Qltb (avgStay a) (avgStay a)) eqn:E; [|reflexivity].
    apply Qltb_lt, Qlt_irrefl in E. contradiction.
  - destruct (Qltb (maxStay a) (maxStay a)) eqn:E; [|reflexivity].
    apply Qltb_lt, Qlt_irrefl in E. contradiction.
  - destruct (Qltb (minMobility a) (minMobility a)) eqn:E; [|reflexivity].
    apply Qltb_lt, Qlt_irrefl in E. contradiction.
  - apply Nat.ltb_irrefl.
Qed.

Lemma field_lt_trans key a b c :
  field_lt key a b = true -> field_lt key b c = true -> field_lt key a c = true.
Proof.
  destruct key; simpl; rewrite ?Qltb_lt, ?string_ltb_lt, ?Nat.ltb_lt.
  - apply (StrictOrder_Transitive (name a) (name b) (name c)).
  - apply Qlt_trans.
  - apply Qlt_trans.
  - apply Qlt_trans.
  - apply Qlt_trans.
  - apply Nat.lt_trans.
Qed.

Lemma field_lt_trichotomy key a b :
  ~ same_field key a b -> field_lt key a b = true \/ field_lt key b a = true.
Proof.
  destruct key; simpl; rewrite ?Qltb_lt, ?Nat.ltb_lt.
  - intros Hne. unfold String.ltb. rewrite (String.compare_antisym (name b) (name a)).
    destruct (String.compare (name a) (name b)) eqn:E; simpl; auto.
    apply String.compare_eq_iff in E. contradiction.
  - intros Hne. destruct (Q_dec (avgMobility a) (avgMobility b)) as [[H|H]|H]; tauto.
  - intros Hne. destruct (Q_dec (avgStay a) (avgStay b)) as [[H|H]|H]; tauto.
  - intros Hne. destruct (Q_dec (maxStay a) (maxStay b)) as [[H|H]|H]; tauto.
  - intros Hne. destruct (Q_dec (minMobility a) (minMobility b)) as [[H|H]|H]; tauto.
  - lia.
Qed.

Lemma field_lt_asym key a b : field_lt key a b = true -> field_lt key b a = false.
Proof.
  intros H. destruct (field_lt key b a) eqn:E; [|reflexivity].
  pose proof (field_lt_trans key a b a H E) as Haa. rewrite field_lt_irrefl in Haa. discriminate.
Qed.

Lemma StronglySorted_rev {A} (R : A -> A -> Prop) l :
  StronglySorted R l -> StronglySorted (fun a b => R b a) (rev l).
Proof.
  induction 1 as [|x l _ IH Hx]; simpl; [constructor|].
  apply StronglySorted_app. split; [|split].
  - intros a b Ha Hb. apply list_elem_of_In in Ha, Hb. destruct Hb as [<-|[]].
    rewrite List.Forall_forall in Hx. apply Hx. now apply in_rev.
  - exact IH.
  - repeat constructor.
Qed.

Lemma StronglySorted_weaken {A} (R R' : A -> A -> Prop) l :
  (forall a b, R a b -> R' a b) -> StronglySorted R l -> StronglySorted R' l.
Proof.
  intros HR. induction 1 as [|x l _ IH Hx]; constructor; [assumption|].
  rewrite List.Forall_forall in *. auto.
Qed.

(** On a matrix without duplicate values in the field, each direction sorts
    into the strict order of the field, resp. its converse. *)
Lemma sortBy_field_sorted key direction m :
  noDuplicateValues key m ->
  StronglySorted
    (fun a b => a = b \/ match direction with
                         | asc => field_lt key a b = true
                         | desc => field_lt key b a = true
                         end)
    (sortBy (compareRegions (key, direction)) m).
Proof.
  intros Hnd.
  assert (forall a b, In a m -> In b m ->
            a = b \/ field_lt key a b = true \/ field_lt key b a = true) as Htri.
  { intros a b Ha Hb.
    destruct (ForallOrdPairs_In Hnd a b Ha Hb) as [E|[H|H]]; [now left|right..].
    - now apply field_lt_trichotomy.
    - apply or_comm. now apply field_lt_trichotomy. }
  apply (sortBy_sorted _ _ (fun a => In a m)); [| | |now apply List.Forall_forall].
  - intros a b Ha Hb. unfold SortCompare, compareRegions.
    destruct (Htri a b Ha Hb) as [E|[H|H]]; [now left| |].
    + rewrite H. destruct direction; [now right|lia].
    + rewrite (field_lt_asym _ _ _ H), H. destruct direction; [lia|now right].
  - intros a b Ha Hb. unfold SortCompare, compareRegions.
    destruct (field_lt key a b) eqn:Hab.
    + destruct direction; [lia|now right].
    + destruct (field_lt key b a) eqn:Hba; [|lia]. destruct direction; [now right|lia].
  - intros a b c _ _ _ [->|Hab] [->|Hbc]; auto. right.
    destruct direction; eapply field_lt_trans; eassumption.
Qed.

(** C9.  For every matrix and every sort key whose values in the matrix
    contain no duplicates, the reverse of the ascending sort is the
    descending sort. *)
Theorem C9_reverse_of_ascending_is_descending (agg : CountryAggregate) (key : SortKey) :
  noDuplicateValues key (matrix agg) ->
  rev (sortedMatrix (Some agg) (Some (key, asc))) = sortedMatrix (Some agg) (Some (key, desc)).
Proof.
  intros Hnd. simpl.
  apply (StronglySorted_unique_strong
           (fun a b => a = b \/ field_lt key b a = true)).
  - intros a b _ _ [->|Hba] [E|Hab]; auto.
    rewrite (field_lt_asym _ _ _ Hba) in Hab. discriminate.
  - apply (StronglySorted_weaken _ _ _ (fun a b (H : b = a \/ field_lt key b a = true) =>
                                           match H with
                                           | or_introl E => or_introl (eq_sym E)
                                           | or_intror L => or_intror L
                                           end)).
    apply (StronglySorted_rev _ _ (sortBy_field_sorted key asc _ Hnd)).
  - apply (sortBy_field_sorted key desc _ Hnd).
  - rewrite <- Permutation_rev, !sortBy_Permutation. reflexivity.
Qed.

Lemma C9_reverse_of_ascending_is_descending_witness :
  rev (sortedMatrix (Some sampleMatrix) (Some (key_avgMobility, asc)))
  = sortedMatrix (Some sampleMatrix) (Some (key_avgMobility, desc)).
Proof.
  apply (C9_reverse_of_ascending_is_descending sampleMatrix key_avgMobility).
  repeat constructor; simpl; discriminate.
Defined.

(** With equal values the two directions need not mirror each other: the
    sort is stable in both. *)
Example sortedMatrix_ties :
  rev (sortedMatrix (Some sampleMatrix) (Some (key_avgStay, asc)))
  <> sortedMatrix (Some sampleMatrix) (Some (key_avgStay, desc)).
Proof. vm_compute. discriminate. Qed.

(** ** The Matrix Sorter in memory *)

Lemma sortBy_ext_In {A} (c1 c2 : A -> A -> option Z) l :
  (forall x y, In x l -> In y l -> c1 x y = c2 x y) -> sortBy c1 l = sortBy c2 l.
Proof.
  induction l as [|x l IH]; intros H; simpl; [reflexivity|].
  rewrite <- IH by (intros; apply H; now right).
  assert (forall s, (forall y, In y s -> In y l) -> sort_insert c1 x s = sort_insert c2 x s) as Hins.
  { induction s as [|y s IHs]; intros Hs; simpl; [reflexivity|].
    unfold SortCompare. rewrite (H x y); [|now left|right; apply Hs; now left].
    rewrite IHs by (intros; apply Hs; now right). reflexivity. }
  apply Hins. intros y Hy. now apply (sortBy_In c1 l y).
Qed.

Lemma sortBy_map {A B} (g : A -> B) (c : B -> B -> option Z) l :
  map g (sortBy (fun x y => c (g x) (g y)) l) = sortBy c (map g l).
Proof.
  induction l as [|x l IH]; simpl; [reflexivity|]. rewrite <- IH.
  generalize (sortBy (fun x y => c (g x) (g y)) l). intros s.
  induction s as [|y s IHs]; simpl; [reflexivity|].
  unfold SortCompare. destruct (match c (g x) (g y) with Some v => v | None => 0%Z end <=? 0)%Z;
    simpl; [reflexivity|now rewrite IHs].
Qed.

Lemma denote_Some h elems vals :
  denote h elems = Some vals ->
  vals = map (deref h) elems /\ forall l, In l elems -> objects h !! l = Some (deref h l).
Proof.
  revert vals. induction elems as [|l elems IH]; simpl; intros vals H.
  - injection H as <-. split; [reflexivity|]. intros l [].
  - unfold deref at 1 2. destruct (objects h !! l) as [v|] eqn:Hl; [|discriminate].
    destruct (denote h elems) as [vs|]; [|discriminate]. injection H as <-.
    destruct (IH vs eq_refl) as [-> Hall]. split; [reflexivity|].
    intros l' [<-|Hin]; [|now apply Hall]. unfold deref. now rewrite Hl.
Qed.

Lemma denote_map h elems :
  (forall l, In l elems -> objects h !! l = Some (deref h l)) ->
  denote h elems = Some (map (deref h) elems).
Proof.
  induction elems as [|l elems IH]; simpl; intros H; [reflexivity|].
  rewrite (H l) by now left. rewrite IH by (intros; apply H; now right). reflexivity.
Qed.

Lemma denote_objects h1 h2 elems : objects h1 = objects h2 -> denote h1 elems = denote h2 elems.
Proof. intros E. induction elems as [|l elems IH]; simpl; [reflexivity|]. now rewrite E, IH. Qed.

Lemma denote_sortBy h cmp elems vals :
  denote h elems = Some vals ->
  denote h (sortBy (compareRefs h cmp) elems) = Some (sortBy cmp vals).
Proof.
  intros H. apply denote_Some in H as [-> Hall].
  rewrite <- sortBy_map.
  rewrite (sortBy_ext_In (compareRefs h cmp) (fun x y => cmp (deref h x) (deref h y))).
  - apply denote_map. intros l Hl. apply Hall. now apply sortBy_In in Hl.
  - intros x y Hx Hy. unfold compareRefs. now rewrite (Hall x Hx), (Hall y Hy).
Qed.

Lemma fresh_array h : arrays h !! fresh (dom (arrays h)) = None.
Proof. apply not_elem_of_dom, is_fresh. Qed.

(** C10.  The Matrix Sorter does not mutate its input.  Called on the
    matrix array [m] of a heap, it returns a freshly allocated array; no
    row object is written, the matrix array still holds the same references
    in the same order, and every array of the heap other than the new one
    is as before.  The new array denotes the sorted rows of the matrix. *)
Theorem C10_sorter_does_not_mutate (h : Heap) (m : loc) (elems : list loc)
    (sortConfig : option (SortKey * Direction)) :
  arrays h !! m = Some elems ->
  exists h' sorted,
    sortedMatrixIn h (Some m) sortConfig = Ok (h', sorted)
    /\ arrays h !! sorted = None
    /\ objects h' = objects h
    /\ arrays h' !! m = Some elems
    /\ (forall l, l <> sorted -> arrays h' !! l = arrays h !! l)
    /\ (forall agg, denote h elems = Some (matrix agg) ->
          exists elems', arrays h' !! sorted = Some elems'
                         /\ denote h' elems' = Some (sortedMatrix (Some agg) sortConfig)).
Proof.
  intros Hm. unfold sortedMatrixIn, spread. rewrite Hm. simpl.
  set (copy := fresh (dom (arrays h))).
  assert (arrays h !! copy = None) as Hfresh by apply fresh_array.
  assert (m <> copy) as Hne by (intros ->; congruence).
  destruct sortConfig as [c|]; simpl.
  - unfold sortInPlace. simpl. rewrite lookup_insert_eq. simpl.
    eexists _, copy. split; [reflexivity|]. simpl.
    split; [exact Hfresh|]. split; [reflexivity|]. split; [|split].
    + now rewrite !lookup_insert_ne by congruence.
    + intros l Hl. now rewrite !lookup_insert_ne by congruence.
    + intros agg Hd. eexists. split; [apply lookup_insert_eq|].
      rewrite <- (denote_sortBy h (compareRegions c) elems (matrix agg) Hd).
      apply denote_objects. reflexivity.
  - eexists _, copy. split; [reflexivity|]. simpl.
    split; [exact Hfresh|]. split; [reflexivity|]. split; [|split].
    + now rewrite lookup_insert_ne by congruence.
    + intros l Hl. now rewrite lookup_insert_ne by congruence.
    + intros agg Hd. eexists. split; [apply lookup_insert_eq|].
      rewrite <- Hd. apply denote_objects. reflexivity.
Qed.

Lemma C10_sorter_does_not_mutate_witness :
  exists h' sorted,
    sortedMatrixIn sampleHeap (Some 10%positive) (Some (key_name, asc)) = Ok (h', sorted)
    /\ arrays sampleHeap !! sorted = None
    /\ objects h' = objects sampleHeap
    /\ arrays h' !! 10%positive = Some [1; 2; 3]%positive
    /\ (exists elems', arrays h' !! sorted = Some elems'
                       /\ denote h' elems'
                          = Some (sortedMatrix (Some sampleMatrix) (Some (key_name, asc)))).
Proof.
  destruct (C10_sorter_does_not_mutate sampleHeap 10%positive [1; 2; 3]%positive
              (Some (key_name, asc)) eq_refl)
    as (h' & sorted & Hrun & Hfresh & Hobj & Hm & _ & Hden).
  exists h', sorted. split; [exact Hrun|]. split; [exact Hfresh|]. split; [exact Hobj|].
  split; [exact Hm|]. apply Hden. reflexivity.
Defined.

Example sortedMatrixIn_sample :
  match sortedMatrixIn sampleHeap (Some 10%positive) (Some (key_name, asc)) with
  | Ok (h', sorted) =>
      sorted = 11%positive
      /\ arrays h' !! sorted = Some [2; 1; 3]%positive
      /\ arrays h' !! 10%positive = Some [1; 2; 3]%positive
  | _ => False
  end.
Proof. vm_compute. repeat split; reflexivity. Qed.

(** * Further properties of the code *)

(** ** The lookups of [dataService] *)

Lemma Set_add_spec x s : Set_add x s = if in_dec string_dec x s then s else s ++ [x].
Proof.
  induction s as [|y s IH]; simpl; [reflexivity|].
  destruct (String.eqb_spec y x) as [->|Hne].
  - destruct (string_dec x x); [reflexivity|congruence].
  - rewrite IH. destruct (string_dec y x); [congruence|].
    destruct (in_dec string_dec x s); reflexivity.
Qed.

(** The keys of a grouping are the set of the keys, in first-seen order. *)
Lemma grouped_keys_Set_from {R V} (key : R -> string) (init : R -> V) (upd : R -> V -> V) l :
  map fst (grouped key init upd l) = Set_from (map key l).
Proof.
  unfold grouped, Set_from.
  assert (forall (m : Map V),
            map fst (fold_left (group_step key init upd) l m)
            = fold_left (fun s x => Set_add x s) (map key l) (map fst m)) as H.
  { induction l as [|r l IH]; intros m; simpl; [reflexivity|].
    rewrite IH. f_equal. unfold group_step. rewrite upsert_keys, Set_add_spec.
    destruct (in_dec string_dec (key r) (map fst m)) as [Hin|Hni].
    - apply Map_has_In in Hin. now rewrite Hin.
    - destruct (Map_has (key r) m) eqn:E; [|reflexivity].
      apply Map_has_In in E. contradiction. }
  apply (H []).
Qed.

Lemma Set_from_NoDup xs : List.NoDup (Set_from xs).
Proof.
  rewrite <- (map_id xs), <- (grouped_keys_Set_from (fun x => x) (fun _ => tt) (fun _ e => e)).
  apply grouped_keys_NoDup.
Qed.

Lemma Set_from_In xs x : In x (Set_from xs) <-> In x xs.
Proof.
  rewrite <- (map_id xs) at 1.
  rewrite <- (grouped_keys_Set_from (fun x => x) (fun _ => tt) (fun _ e => e)).
  rewrite grouped_keys_In, map_id. reflexivity.
Qed.

Lemma string_lt_trichotomy a b : a = b \/ String.ltb a b = true \/ String.ltb b a = true.
Proof.
  unfold String.ltb. rewrite (String.compare_antisym b a).
  destruct (String.compare a b) eqn:E; simpl; auto.
  left. now apply String.compare_eq_iff.
Qed.

Lemma string_ltb_trans a b c :
  String.ltb a b = true -> String.ltb b c = true -> String.ltb a c = true.
Proof. rewrite !string_ltb_lt. apply (StrictOrder_Transitive a b c). Qed.

Lemma string_ltb_irrefl a : String.ltb a a = false.
Proof.
  destruct (String.ltb a a) eqn:E; [|reflexivity].
  apply string_ltb_lt in E. now apply (StrictOrder_Irreflexive a) in E.
Qed.

(** [sort()] puts distinct strings in strictly ascending order. *)
Lemma sort_strings_sorted l :
  List.NoDup l -> StronglySorted (fun a b => String.ltb a b = true) (sortBy defaultCompare l).
Proof.
  intros Hnd.
  assert (StronglySorted (fun a b => a = b \/ String.ltb a b = true) (sortBy defaultCompare l))
    as Hs.
  { apply (sortBy_sorted _ _ (fun _ => True)); [| | |now apply List.Forall_forall].
    - intros a b _ _. unfold SortCompare, defaultCompare.
      destruct (String.ltb a b) eqn:Hab; [now right|].
      destruct (String.ltb b a) eqn:Hba; [lia|]. intros _. left.
      destruct (string_lt_trichotomy a b) as [E|[H|H]]; congruence.
    - intros a b _ _. unfold SortCompare, defaultCompare.
      destruct (String.ltb a b) eqn:Hab; [lia|].
      destruct (String.ltb b a) eqn:Hba; [now right|lia].
    - intros a b c _ _ _ [->|Hab] [->|Hbc]; auto. right. eapply string_ltb_trans; eassumption. }
  assert (List.NoDup (sortBy defaultCompare l)) as Hnd'.
  { apply (Stdlib.Sorting.Permutation.Permutation_NoDup
             (Permutation_sym (sortBy_Permutation defaultCompare l)) Hnd). }
  revert Hnd'. induction Hs as [|x s _ IH Hx]; intros Hnd'; constructor.
  - apply IH. now apply NoDup_cons_iff in Hnd'.
  - apply NoDup_cons_iff in Hnd' as [Hni _]. rewrite List.Forall_forall in *.
    intros y Hy. destruct (Hx y Hy) as [->|H]; [contradiction|exact H].
Qed.

(** X1.  [getRegionsByCountry] lists exactly the region names of the
    country's records, each once, in strictly ascending string order. *)
Theorem getRegionsByCountry_spec data c :
  List.NoDup (getRegionsByCountry data c)
  /\ StronglySorted (fun a b => String.ltb a b = true) (getRegionsByCountry data c)
  /\ forall n, In n (getRegionsByCountry data c)
               <-> exists r, In r data /\ country r = c /\ polygon_name r = n.
Proof.
  unfold getRegionsByCountry. fold (countryRows data c).
  set (names := Set_from (map polygon_name (countryRows data c))).
  assert (List.NoDup names) as Hnd by apply Set_from_NoDup.
  split; [|split].
  - apply (Stdlib.Sorting.Permutation.Permutation_NoDup
             (Permutation_sym (sortBy_Permutation defaultCompare names)) Hnd).
  - now apply sort_strings_sorted.
  - intros n. rewrite sortBy_In. unfold names. rewrite Set_from_In, in_map_iff. split.
    + intros (r & Hn & Hr). apply countryRows_In in Hr as [Hr Hc]. eauto.
    + intros (r & Hr & Hc & Hn). exists r. split; [assumption|]. now apply countryRows_In.
Qed.

(** X2.  [getUniqueCountries] lists exactly the countries that have a
    record, each once, in strictly ascending string order. *)
Theorem getUniqueCountries_spec data :
  List.NoDup (getUniqueCountries data)
  /\ StronglySorted (fun a b => String.ltb a b = true) (getUniqueCountries data)
  /\ forall c, In c (getUniqueCountries data) <-> hasRecord data c.
Proof.
  unfold getUniqueCountries. set (names := Set_from (map country data)).
  assert (List.NoDup names) as Hnd by apply Set_from_NoDup.
  split; [|split].
  - apply (Stdlib.Sorting.Permutation.Permutation_NoDup
             (Permutation_sym (sortBy_Permutation defaultCompare names)) Hnd).
  - now apply sort_strings_sorted.
  - intros c. rewrite sortBy_In. unfold names, hasRecord. rewrite Set_from_In, in_map_iff.
    split; intros (r & H1 & H2); eauto.
Qed.

Example getRegionsByCountry_sample :
  getRegionsByCountry sample "X" = ["A"; "B"] /\ getUniqueCountries sample = ["X"; "Y"].
Proof. split; reflexivity. Qed.

(** X3.  In every result of the aggregator the matrix rows stand in the
    order in which their regions first occur among the country's records;
    the region list of [getRegionsByCountry] is that list of names sorted,
    and has [totalRegions] entries. *)
Theorem matrix_in_first_seen_order getTime data C agg :
  calculateCountryAggregates getTime data C = Ok (Some agg) ->
  map name (matrix agg) = Set_from (map polygon_name (countryRows data C))
  /\ getRegionsByCountry data C = sortBy defaultCompare (map name (matrix agg))
  /\ length (getRegionsByCountry data C) = totalRegions agg.
Proof.
  intros H. apply calculateCountryAggregates_inv in H as (_ & _ & ->).
  set (raw := countryRows data C). simpl. rewrite name_regionRow.
  assert (regions raw = Set_from (map polygon_name raw)) as E by apply grouped_keys_Set_from.
  split; [exact E|]. unfold getRegionsByCountry. fold (countryRows data C). fold raw.
  rewrite <- E. split; [reflexivity|]. apply sortBy_length.
Qed.

Lemma matrix_in_first_seen_order_witness :
  exists agg,
    calculateCountryAggregates isoTime sample "X" = Ok (Some agg)
    /\ map name (matrix agg) = ["A"; "B"]
    /\ getRegionsByCountry sample "X" = sortBy defaultCompare (map name (matrix agg))
    /\ length (getRegionsByCountry sample "X") = totalRegions agg.
Proof.
  assert (exists agg, calculateCountryAggregates isoTime sample "X" = Ok (Some agg))
    as [agg Hagg] by (eexists; vm_compute; reflexivity).
  destruct (matrix_in_first_seen_order isoTime sample "X" agg Hagg) as (H1 & H2 & H3).
  exists agg. split; [exact Hagg|]. split; [rewrite H1; reflexivity|]. split; assumption.
Defined.

(** ** More on the Country Aggregator *)

(** X4.  In every result of the aggregator the trend has exactly one point
    per distinct date of the country's records; the point of a date holds
    the means of both fields over the rows of that date alone (the divisor
    is the number of rows present on the date); the trend ascends by date
    when the dates of the country's records parse. *)
Theorem trend_one_point_per_date getTime data C agg :
  calculateCountryAggregates getTime data C = Ok (Some agg) ->
  let raw := countryRows data C in
  List.NoDup (map Trend.ds (trend agg))
  /\ (forall d, In d (map Trend.ds (trend agg))
                <-> exists r, In r data /\ country r = C /\ ds r = d)
  /\ (forall t, In t (trend agg) ->
        let rs := rows ds (Trend.ds t) raw in
        rs <> []
        /\ (Trend.avgMobility t == sumBy mob rs / nat2Q (length rs))%Q
        /\ (Trend.avgStay t == sumBy sty rs / nat2Q (length rs))%Q)
  /\ (Forall (fun r => validDate getTime (ds r)) raw ->
      StronglySorted (fun a b => dateLe getTime (Trend.ds a) (Trend.ds b)) (trend agg)).
Proof.
  intros H raw. apply calculateCountryAggregates_inv in H as (_ & _ & ->). fold raw.
  assert (Permutation (map Trend.ds (trend (aggregateOf getTime raw))) (dates raw)) as Hperm.
  { simpl. rewrite (Permutation_map Trend.ds (sortBy_Permutation _ _)), map_map. simpl.
    now rewrite map_id. }
  split; [|split; [|split]].
  - apply (Stdlib.Sorting.Permutation.Permutation_NoDup (Permutation_sym Hperm)), dates_NoDup.
  - intros d. transitivity (In d (dates raw)).
    + split; apply Permutation_in; [|symmetry]; exact Hperm.
    + rewrite dates_In, in_map_iff. split.
      * intros (r & Hd & Hr). apply countryRows_In in Hr as [Hr Hc]. eauto.
      * intros (r & Hr & Hc & Hd). exists r. split; [assumption|]. now apply countryRows_In.
  - intros t Ht. simpl in Ht. apply sortBy_In, in_map_iff in Ht as (k & <- & Hk). simpl.
    split; [|split; apply mean_spec]. apply (rows_nonempty ds). now apply dates_In.
  - apply trend_sorted.
Qed.

Lemma trend_one_point_per_date_witness :
  exists agg,
    calculateCountryAggregates isoTime sample "X" = Ok (Some agg)
    /\ List.NoDup (map Trend.ds (trend agg))
    /\ StronglySorted (fun a b => dateLe isoTime (Trend.ds a) (Trend.ds b)) (trend agg).
Proof.
  assert (exists agg, calculateCountryAggregates isoTime sample "X" = Ok (Some agg))
    as [agg Hagg] by (eexists; vm_compute; reflexivity).
  destruct (trend_one_point_per_date isoTime sample "X" agg Hagg) as (H1 & _ & _ & H4).
  exists agg. split; [exact Hagg|]. split; [exact H1|]. apply H4.
  repeat constructor; discriminate.
Defined.

Lemma sumBy_ones {A} (l : list A) : (sumBy (fun _ => 1) l == nat2Q (length l))%Q.
Proof.
  induction l as [|x l IH]; [reflexivity|].
  change (sumBy (fun _ => 1%Q) (x :: l)) with (1 + sumBy (fun _ : A => 1) l)%Q.
  rewrite IH. unfold nat2Q. rewrite <- (inject_Z_plus 1). apply inject_Z_injective.
  simpl length. lia.
Qed.

Lemma sumBy_nat2Q {A} (g : A -> nat) l :
  (sumBy (fun x => nat2Q (g x)) l == nat2Q (list_sum (map g l)))%Q.
Proof.
  induction l as [|x l IH]; [reflexivity|].
  change (sumBy (fun x => nat2Q (g x)) (x :: l))
    with (nat2Q (g x) + sumBy (fun x => nat2Q (g x)) l)%Q.
  rewrite IH. unfold nat2Q. rewrite <- inject_Z_plus. apply inject_Z_injective.
  simpl. lia.
Qed.

(** X5.  Every record of the country is counted in exactly one matrix row:
    the [dataPoints] of the matrix add up to the number of the country's
    records. *)
Theorem dataPoints_add_up getTime data C agg :
  calculateCountryAggregates getTime data C = Ok (Some agg) ->
  list_sum (map dataPoints (matrix agg)) = length (countryRows data C).
Proof.
  intros H. apply calculateCountryAggregates_inv in H as (_ & _ & ->).
  set (raw := countryRows data C). simpl. rewrite map_map. simpl.
  apply Nat2Z.inj. apply inject_Z_injective. fold (nat2Q (length raw)).
  fold (nat2Q (list_sum (map (fun k => length (rows polygon_name k raw)) (regions raw)))).
  rewrite <- sumBy_nat2Q, <- sumBy_ones.
  rewrite <- (sumBy_partition polygon_name (fun _ => 1%Q) (regions raw) raw).
  - apply sumBy_ext, List.Forall_forall. intros k _. symmetry. apply sumBy_ones.
  - apply regions_NoDup.
  - intros r Hr. apply regions_In. now apply in_map.
Qed.

Lemma dataPoints_add_up_witness :
  exists agg,
    calculateCountryAggregates isoTime sample "X" = Ok (Some agg)
    /\ list_sum (map dataPoints (matrix agg)) = 3.
Proof.
  assert (exists agg, calculateCountryAggregates isoTime sample "X" = Ok (Some agg))
    as [agg Hagg] by (eexists; vm_compute; reflexivity).
  exists agg. split; [exact Hagg|].
  rewrite (dataPoints_add_up isoTime sample "X" agg Hagg). reflexivity.
Defined.

(** X6.  The stay-home sums agree as the mobility sums do: the matrix's
    [avgStay] weighted by [dataPoints] and the trend's [avgStay] weighted by
    the row count of the date both add up to the total [stayHomeRatio] of
    the country's records. *)
Theorem weighted_stay_sums_agree getTime data C agg :
  calculateCountryAggregates getTime data C = Ok (Some agg) ->
  let raw := countryRows data C in
  (sumBy (fun e => avgStay e * nat2Q (dataPoints e)) (matrix agg) == sumBy sty raw)%Q
  /\ (sumBy (fun t => Trend.avgStay t * nat2Q (rowCount raw (Trend.ds t))) (trend agg)
      == sumBy sty raw)%Q.
Proof.
  intros H raw. apply calculateCountryAggregates_inv in H as (_ & _ & ->). fold raw. split.
  - simpl. rewrite sumBy_map. simpl.
    rewrite <- (sumBy_partition polygon_name sty (regions raw) raw).
    + apply sumBy_ext, List.Forall_forall. intros k Hk.
      apply mean_times_length, rows_length_pos. now apply regions_In.
    + apply regions_NoDup.
    + intros r Hr. apply regions_In. now apply in_map.
  - simpl. rewrite (sumBy_Permutation _ _ _ (sortBy_Permutation _ _)), sumBy_map. simpl.
    rewrite <- (sumBy_partition ds sty (dates raw) raw).
    + apply sumBy_ext, List.Forall_forall. intros k Hk. unfold rowCount.
      apply mean_times_length, rows_length_pos. now apply dates_In.
    + apply dates_NoDup.
    + intros r Hr. apply dates_In. now apply in_map.
Qed.

Lemma weighted_stay_sums_agree_witness :
  exists agg,
    calculateCountryAggregates isoTime sample "X" = Ok (Some agg)
    /\ (sumBy (fun e => avgStay e * nat2Q (dataPoints e)) (matrix agg) == 9 # 10)%Q.
Proof.
  assert (exists agg, calculateCountryAggregates isoTime sample "X" = Ok (Some agg))
    as [agg Hagg] by (eexists; vm_compute; reflexivity).
  destruct (weighted_stay_sums_agree isoTime sample "X" agg Hagg) as [H1 _].
  exists agg. split; [exact Hagg|]. rewrite H1. reflexivity.
Defined.

(** ** The Region-as-Aggregate Adapter *)

Lemma calculateRegionAsAggregate_cons p rest regionName :
  calculateRegionAsAggregate (p :: rest) regionName
  = Ok (Some {| trend := map (fun d => Trend.mk (Norm.ds d) (Norm.mobility d) (Norm.stay d))
                           (p :: rest);
                matrix :=
                  [ {| name := regionName;
                       avgMobility := mean (map Norm.mobility (p :: rest));
                       avgStay := mean (map Norm.stay (p :: rest));
                       maxStay := fold_left Qmax (map Norm.stay rest) (Norm.stay p);
                       minMobility := fold_left Qmin (map Norm.mobility rest) (Norm.mobility p);
                       dataPoints := length (p :: rest) |} ];
                totalRegions := 1 |}).
Proof.
  unfold calculateRegionAsAggregate. cbn [length Nat.eqb].
  rewrite !div_pos by (rewrite List.length_map; discriminate). reflexivity.
Qed.



(** ** The cards of the country view *)

Lemma fold_left_avgMobility (m : list RegionStats) :
  (fold_left (fun sum r => (sum + avgMobility r)%Q) m 0 == sumBy avgMobility m)%Q.
Proof.
  assert (forall a, fold_left (fun sum r => (sum + avgMobility r)%Q) m a
                    == a + sumBy avgMobility m)%Q as H.
  { induction m as [|x m IH]; intros a; simpl; [ring|]. rewrite IH. ring. }
  rewrite H. ring.
Qed.

(** X8.  On every aggregate that the aggregator or the adapter returns, the
    "Avg Mobility Change" card divides by a positive [totalRegions] and
    shows the plain mean of the matrix rows' [avgMobility]. *)
Theorem overviewAvgMobility_defined getTime data C dataset regionName agg :
  calculateCountryAggregates getTime data C = Ok (Some agg)
  \/ calculateRegionAsAggregate dataset regionName = Ok (Some agg) ->
  exists v,
    overviewAvgMobility agg = Ok v
    /\ (v == sumBy avgMobility (matrix agg) / nat2Q (length (matrix agg)))%Q.
Proof.
  intros H.
  assert (totalRegions agg = length (matrix agg) /\ matrix agg <> []) as [Hn Hne].
  { destruct H as [H|H].
    - pose proof H as Hinv. apply calculateCountryAggregates_inv in Hinv as (_ & Hrec & ->).
      simpl. rewrite List.length_map. split; [reflexivity|].
      intros E. apply map_eq_nil in E.
      destruct Hrec as (r & Hr & Hc).
      assert (In (polygon_name r) (regions (countryRows data C))) as Hin.
      { apply regions_In, in_map. now apply countryRows_In. }
      rewrite E in Hin. contradiction.
    - destruct dataset as [|p rest]; [discriminate|].
      rewrite calculateRegionAsAggregate_cons in H. injection H as <-. split; [reflexivity|].
      discriminate. }
  unfold overviewAvgMobility. rewrite Hn, div_pos.
  - eexists. split; [reflexivity|]. fold (nat2Q (length (matrix agg))).
    now rewrite fold_left_avgMobility.
  - destruct (matrix agg); [congruence|discriminate].
Qed.

Lemma overviewAvgMobility_defined_witness :
  exists agg v,
    calculateCountryAggregates isoTime sample "X" = Ok (Some agg)
    /\ overviewAvgMobility agg = Ok v /\ (v == -(15 # 100))%Q.
Proof.
  assert (exists agg, calculateCountryAggregates isoTime sample "X" = Ok (Some agg))
    as [agg Hagg] by (eexists; vm_compute; reflexivity).
  destruct (overviewAvgMobility_defined isoTime sample "X" [] "" agg (or_introl Hagg))
    as (v & Hv & Hmean).
  exists agg, v. split; [exact Hagg|]. split; [exact Hv|]. rewrite Hmean.
  vm_compute in Hagg. injection Hagg as <-. reflexivity.
Defined.

Lemma StronglySorted_head {A} (R : A -> A -> Prop) l a :
  StronglySorted R l -> l !! 0 = Some a -> forall x, In x l -> x = a \/ R a x.
Proof.
  intros Hs Ha x Hx. destruct l as [|y l]; [discriminate|]. injection Ha as ->.
  apply StronglySorted_inv in Hs as [_ Hall]. rewrite List.Forall_forall in Hall.
  destruct Hx as [<-|Hx]; [now left|right; now apply Hall].
Qed.

Lemma StronglySorted_last {A} (R : A -> A -> Prop) l z :
  StronglySorted R l -> l !! (length l - 1) = Some z -> forall x, In x l -> x = z \/ R x z.
Proof.
  rewrite Nat.sub_1_r, <- last_lookup.
  induction 1 as [|y l Hs IH Hall]; intros Hz x Hx; [destruct Hx|].
  rewrite List.Forall_forall in Hall. destruct l as [|y' l'].
  - injection Hz as <-. destruct Hx as [<-|[]]. now left.
  - rewrite last_cons_cons in Hz. destruct Hx as [<-|Hx].
    + right. apply Hall. destruct (IH Hz y' (or_introl eq_refl)) as [<-|Hr]; [now left|].
      apply last_Some_elem_of, list_elem_of_In in Hz. exact Hz.
    + now apply IH.
Qed.

Lemma dateLe_refl getTime d : validDate getTime d -> dateLe getTime d d.
Proof.
  unfold validDate, dateLe. destruct (getTime d) as [x|]; [|congruence].
  intros _. exists x, x. repeat split; lia.
Qed.

(** X9.  On every result of the aggregator the "Dataset Range" card reads
    two dates of the country's records, never [undefined]; when the dates
    of the country's records parse, no record of the country is earlier
    than the first or later than the second. *)
Theorem datasetRange_bounds getTime data C agg :
  calculateCountryAggregates getTime data C = Ok (Some agg) ->
  exists lo hi,
    datasetRange agg = (Some lo, Some hi)
    /\ (exists r, In r data /\ country r = C /\ ds r = lo)
    /\ (exists r, In r data /\ country r = C /\ ds r = hi)
    /\ (Forall (fun r => validDate getTime (ds r)) (countryRows data C) ->
        forall r, In r data -> country r = C ->
                  dateLe getTime lo (ds r) /\ dateLe getTime (ds r) hi).
Proof.
  intros H. pose proof H as Hinv. apply calculateCountryAggregates_inv in Hinv as (HC & Hrec & E).
  set (raw := countryRows data C) in *.
  assert (raw <> []) as Hraw by now apply countryRows_nonempty.
  pose proof (trend_aggregateOf_nonempty getTime raw Hraw) as Hne. rewrite <- E in Hne.
  assert (forall t, In t (trend agg) -> exists r, In r data /\ country r = C /\ ds r = Trend.ds t)
    as Hdate.
  { intros t Ht. rewrite E in Ht. simpl in Ht.
    apply sortBy_In, in_map_iff in Ht as (k & <- & Hk). simpl.
    apply dates_In, in_map_iff in Hk as (r & <- & Hr). apply countryRows_In in Hr as [Hr Hc].
    eauto. }
  destruct (trend agg !! 0) as [first|] eqn:Hfirst.
  2:{ destruct (trend agg); [congruence|discriminate]. }
  destruct (trend agg !! (length (trend agg) - 1)) as [final|] eqn:Hlast.
  2:{ apply lookup_ge_None in Hlast. destruct (trend agg); [congruence|simpl in Hlast; lia]. }
  exists (Trend.ds first), (Trend.ds final). unfold datasetRange. rewrite Hfirst, Hlast.
  split; [reflexivity|]. split; [|split].
  - apply Hdate, list_elem_of_In. eapply list_elem_of_lookup_2. exact Hfirst.
  - apply Hdate, list_elem_of_In. eapply list_elem_of_lookup_2. exact Hlast.
  - intros Hv r Hr Hc.
    assert (StronglySorted (fun a b => dateLe getTime (Trend.ds a) (Trend.ds b)) (trend agg))
      as Hs by (rewrite E; now apply trend_sorted).
    assert (exists t, In t (trend agg) /\ Trend.ds t = ds r) as (t & Ht & Hd).
    { exists (dateTrend raw (ds r)). split; [|reflexivity]. rewrite E. simpl.
      apply sortBy_In, in_map, dates_In, in_map. now apply countryRows_In. }
    assert (validDate getTime (ds r)) as Hvr.
    { rewrite List.Forall_forall in Hv. apply Hv. now apply countryRows_In. }
    rewrite <- Hd. split.
    + destruct (StronglySorted_head _ _ _ Hs Hfirst t Ht) as [->|Hle]; [|exact Hle].
      apply dateLe_refl. now rewrite Hd.
    + destruct (StronglySorted_last _ _ _ Hs Hlast t Ht) as [->|Hle]; [|exact Hle].
      apply dateLe_refl. now rewrite Hd.
Qed.

Lemma datasetRange_bounds_witness :
  exists agg,
    calculateCountryAggregates isoTime sample "X" = Ok (Some agg)
    /\ datasetRange agg = (Some "2020-01-01", Some "2020-01-02")
    /\ forall r, In r sample -> country r = "X" ->
                 dateLe isoTime "2020-01-01" (ds r) /\ dateLe isoTime (ds r) "2020-01-02".
Proof.
  assert (exists agg, calculateCountryAggregates isoTime sample "X" = Ok (Some agg))
    as [agg Hagg] by (eexists; vm_compute; reflexivity).
  destruct (datasetRange_bounds isoTime sample "X" agg Hagg) as (lo & hi & Hrange & _ & _ & Hb).
  exists agg. split; [exact Hagg|].
  assert (datasetRange agg = (Some "2020-01-01", Some "2020-01-02")) as Hr.
  { vm_compute in Hagg. injection Hagg as <-. reflexivity. }
  split; [exact Hr|]. rewrite Hr in Hrange. injection Hrange as <- <-.
  apply Hb. repeat constructor; discriminate.
Defined.

(** ** More on the Series Normalizer *)

(** The three ways in which the normalizer produces its series. *)
Lemma getNormalizedSeries_cases getTime data c r out :
  getNormalizedSeries getTime data c r = Ok out ->
  out = []
  \/ (c <> "" /\ countryRows data c <> [] /\ r = WHOLE_COUNTRY_OPTION
      /\ out = map (fun t => Norm.mk (Trend.ds t) (Trend.avgMobility t) (Trend.avgStay t)
                               (Some "AVERAGE"))
                 (trend (aggregateOf getTime (countryRows data c))))
  \/ (c <> "" /\ r <> "" /\ r <> WHOLE_COUNTRY_OPTION
      /\ out = map (fun d => Norm.mk (ds d) (mob d) (sty d) (Some (baseline_type d)))
                 (sortBy (fun a b => dateDiff getTime (ds a) (ds b))
                    (List.filter
                       (fun d => String.eqb (country d) c && String.eqb (polygon_name d) r)
                       data))).
Proof.
  intros H.
  destruct (String.eqb_spec c "") as [->|Hc].
  { left. rewrite getNormalizedSeries_empty in H by now left. congruence. }
  destruct (String.eqb_spec r "") as [->|Hr].
  { left. rewrite getNormalizedSeries_empty in H by now right. congruence. }
  destruct (String.eqb_spec r WHOLE_COUNTRY_OPTION) as [->|Hw].
  - rewrite getNormalizedSeries_whole in H.
    destruct (countryRows data c) as [|x xs] eqn:E.
    + rewrite calculateCountryAggregates_None in H by now right. left. simpl in H. congruence.
    + assert (countryRows data c <> []) as Hne by (rewrite E; discriminate).
      rewrite calculateCountryAggregates_Some in H by assumption. simpl in H.
      right. left. rewrite <- E. injection H as <-. repeat split; assumption.
  - rewrite getNormalizedSeries_region in H by assumption. right. right.
    injection H as <-. repeat split; assumption.
Qed.

Lemma getNormalizedSeries_sorted getTime data c r out :
  getNormalizedSeries getTime data c r = Ok out ->
  Forall (fun d => validDate getTime (ds d)) (countryRows data c) ->
  StronglySorted (fun a b => dateLe getTime (Norm.ds a) (Norm.ds b)) out
  /\ forall p, In p out -> validDate getTime (Norm.ds p).
Proof.
  intros H Hv. rewrite List.Forall_forall in Hv.
  destruct (getNormalizedSeries_cases _ _ _ _ _ H)
    as [->|[(Hc & Hraw & -> & ->)|(Hc & Hr & Hw & ->)]].
  - split; [constructor|intros p []].
  - split.
    + apply (StronglySorted_map
               (fun t => Norm.mk (Trend.ds t) (Trend.avgMobility t) (Trend.avgStay t)
                           (Some "AVERAGE"))
               (fun a b => dateLe getTime (Norm.ds a) (Norm.ds b))).
      apply trend_sorted. now apply List.Forall_forall.
    + intros p Hp. apply in_map_iff in Hp as (t & <- & Ht). simpl in *.
      apply sortBy_In, in_map_iff in Ht as (k & <- & Hk). simpl.
      apply dates_In, in_map_iff in Hk as (d & <- & Hd). now apply Hv.
  - assert (forall d, In d (List.filter
                              (fun d => String.eqb (country d) c && String.eqb (polygon_name d) r)
                              data) -> validDate getTime (ds d)) as Hvf.
    { intros d Hd. apply Hv. apply List.filter_In in Hd as [Hd Hm].
      apply andb_true_iff in Hm as [Hm _]. apply countryRows_In.
      split; [assumption|]. now apply String.eqb_eq. }
    split.
    + apply (StronglySorted_map
               (fun d => Norm.mk (ds d) (mob d) (sty d) (Some (baseline_type d)))
               (fun a b => dateLe getTime (Norm.ds a) (Norm.ds b))).
      apply (sortBy_date_sorted getTime ds). now apply List.Forall_forall.
    + intros p Hp. apply in_map_iff in Hp as (d & <- & Hd). simpl.
      apply Hvf. now apply sortBy_In in Hd.
Qed.

(** X10.  The whole-country series has one point per distinct date of the
    country's records and none when the country is empty; every point is
    tagged [AVERAGE] and holds the means of both fields over the rows of its
    date. *)
Theorem wholeCountrySeries_spec getTime data C :
  exists out,
    getNormalizedSeries getTime data C WHOLE_COUNTRY_OPTION = Ok out
    /\ List.NoDup (map Norm.ds out)
    /\ (forall d, In d (map Norm.ds out)
                  <-> C <> "" /\ exists r, In r data /\ country r = C /\ ds r = d)
    /\ (forall p, In p out ->
          Norm.baseline_type p = Some "AVERAGE"
          /\ let rs := rows ds (Norm.ds p) (countryRows data C) in
             (Norm.mobility p == sumBy mob rs / nat2Q (length rs))%Q
             /\ (Norm.stay p == sumBy sty rs / nat2Q (length rs))%Q).
Proof.
  destruct (getNormalizedSeries_total getTime data C WHOLE_COUNTRY_OPTION) as [out Hout].
  exists out. split; [exact Hout|].
  set (raw := countryRows data C).
  destruct (getNormalizedSeries_cases _ _ _ _ _ Hout)
    as [->|[(Hc & Hraw & _ & ->)|(_ & _ & Hw & _)]]; [| |congruence].
  - split; [constructor|]. split; [|intros p []].
    intros d. split; [intros []|]. intros (HC & r & Hr & Hcr & Hd).
    assert (raw <> []) as Hraw by (apply countryRows_nonempty; exists r; auto).
    rewrite getNormalizedSeries_whole, calculateCountryAggregates_Some in Hout by assumption.
    simpl in Hout. injection Hout as Hout. apply map_eq_nil in Hout.
    now apply (trend_aggregateOf_nonempty getTime raw Hraw).
  - fold raw.
    assert (Permutation
              (map Norm.ds
                 (map (fun t => Norm.mk (Trend.ds t) (Trend.avgMobility t) (Trend.avgStay t)
                                  (Some "AVERAGE")) (trend (aggregateOf getTime raw))))
              (dates raw)) as Hperm.
    { rewrite map_map. simpl.
      rewrite (Permutation_map _ (sortBy_Permutation _ _)), map_map. simpl. now rewrite map_id. }
    split; [|split].
    + apply (Stdlib.Sorting.Permutation.Permutation_NoDup (Permutation_sym Hperm)), dates_NoDup.
    + intros d. transitivity (In d (dates raw)).
      * split; apply Permutation_in; [|symmetry]; exact Hperm.
      * rewrite dates_In, in_map_iff. split.
        -- intros (r & Hd & Hr). apply countryRows_In in Hr as [Hr Hcr]. eauto.
        -- intros (_ & r & Hr & Hcr & Hd). exists r. split; [assumption|].
           now apply countryRows_In.
    + intros p Hp. apply in_map_iff in Hp as (t & <- & Ht). simpl in Ht.
      apply sortBy_In, in_map_iff in Ht as (k & <- & Hk). simpl.
      split; [reflexivity|]. split; apply mean_spec.
Qed.

Example wholeCountrySeries_sample :
  exists p q,
    getNormalizedSeries isoTime sample "X" WHOLE_COUNTRY_OPTION = Ok [p; q]
    /\ Norm.ds p = "2020-01-01" /\ (Norm.mobility p == -(2 # 10))%Q
    /\ Norm.ds q = "2020-01-02" /\ (Norm.mobility q == -(2 # 10))%Q.
Proof. do 2 eexists. split; [vm_compute; reflexivity|]. repeat split. Qed.

(** The sort keeps the elements of a class in their order when the
    comparator never puts one element of the class after another. *)
Lemma sortBy_filter_stable {A} (cmp : A -> A -> option Z) (p : A -> bool) l :
  (forall x y, p x = true -> p y = true -> (SortCompare cmp x y <= 0)%Z) ->
  List.filter p (sortBy cmp l) = List.filter p l.
Proof.
  intros Hp.
  assert (forall x s, List.filter p (sort_insert cmp x s) = List.filter p (x :: s)) as Hins.
  { intros x. induction s as [|y s IH]; [reflexivity|]. cbn [sort_insert].
    destruct (Z.leb_spec (SortCompare cmp x y) 0) as [Hle|Hgt]; [reflexivity|].
    cbn [List.filter] in *. rewrite IH.
    destruct (p x) eqn:Px, (p y) eqn:Py; try reflexivity.
    specialize (Hp x y Px Py). lia. }
  induction l as [|x l IH]; [reflexivity|]. cbn [sortBy]. rewrite Hins. cbn [List.filter].
  now rewrite IH.
Qed.

Lemma filter_map_comm {A B} (f : A -> B) (p : B -> bool) l :
  List.filter p (map f l) = map f (List.filter (fun x => p (f x)) l).
Proof.
  induction l as [|x l IH]; simpl; [reflexivity|].
  destruct (p (f x)); simpl; now rewrite IH.
Qed.

(** X11.  Where the dates of the country's records parse, the series of a
    region is the stable sort of the matching records by date: it ascends
    by date and keeps records of the same date in the order of the record
    collection, so that its points on any one date are the matching records
    of that date, mapped, in input order. *)
Theorem region_series_stable getTime data c r d :
  c <> "" -> r <> "" -> r <> WHOLE_COUNTRY_OPTION ->
  Forall (fun x => validDate getTime (ds x)) (countryRows data c) ->
  exists out,
    getNormalizedSeries getTime data c r = Ok out
    /\ StronglySorted (fun a b => dateLe getTime (Norm.ds a) (Norm.ds b)) out
    /\ List.filter (fun p => String.eqb (Norm.ds p) d) out
       = map (fun x => Norm.mk (ds x) (mob x) (sty x) (Some (baseline_type x)))
           (List.filter (fun x => String.eqb (ds x) d)
              (List.filter
                 (fun x => String.eqb (country x) c && String.eqb (polygon_name x) r) data)).
Proof.
  intros Hc Hr Hw Hv. eexists. split; [now apply getNormalizedSeries_region|]. split.
  - eapply getNormalizedSeries_sorted; [now apply getNormalizedSeries_region|exact Hv].
  - rewrite filter_map_comm. cbn [Norm.ds]. f_equal.
    apply sortBy_filter_stable. intros x y Hx Hy.
    apply String.eqb_eq in Hx, Hy. unfold SortCompare, dateDiff. rewrite Hx, Hy.
    destruct (getTime d); lia.
Qed.

Lemma region_series_stable_witness :
  exists out,
    getNormalizedSeries isoTime sameDay "X" "A" = Ok out
    /\ List.filter (fun p => String.eqb (Norm.ds p) "2020-01-02") out
       = [ Norm.mk "2020-01-02" (1 # 10) (1 # 10) (Some "DAY_OF_WEEK");
           Norm.mk "2020-01-02" (3 # 10) (3 # 10) (Some "DAY_OF_WEEK") ].
Proof.
  destruct (region_series_stable isoTime sameDay "X" "A" "2020-01-02")
    as (out & Hout & _ & Hst); [discriminate..| |].
  - apply List.Forall_forall. intros x Hx. apply countryRows_In in Hx as [Hx _].
    repeat (destruct Hx as [<-|Hx]; [discriminate|]). destruct Hx.
  - exists out. split; [exact Hout|]. rewrite Hst. reflexivity.
Defined.

(** X12.  Summarized after the normalizer, a series of parseable dates is
    spanned by the summary: no point is earlier than [start] or later than
    [end]. *)
Theorem summary_spans_series getTime data c r series st :
  getNormalizedSeries getTime data c r = Ok series ->
  calculateStats series = Ok (Some st) ->
  Forall (fun d => validDate getTime (ds d)) (countryRows data c) ->
  forall p, In p series ->
            dateLe getTime (Stats.start st) (Norm.ds p)
            /\ dateLe getTime (Norm.ds p) (Stats.end_ st).
Proof.
  intros Hseries Hst Hv p Hp.
  destruct (getNormalizedSeries_sorted _ _ _ _ _ Hseries Hv) as [Hs Hvalid].
  destruct (series !! 0) as [first|] eqn:Hfirst.
  2:{ destruct series; [destruct Hp|discriminate]. }
  destruct (series !! (length series - 1)) as [final|] eqn:Hlast.
  2:{ apply lookup_ge_None in Hlast. destruct series; [destruct Hp|simpl in Hlast; lia]. }
  rewrite (calculateStats_Some series first final) in Hst.
  - injection Hst as <-. simpl. split.
    + destruct (StronglySorted_head _ _ _ Hs Hfirst p Hp) as [->|Hle]; [|exact Hle].
      apply dateLe_refl. now apply Hvalid.
    + destruct (StronglySorted_last _ _ _ Hs Hlast p Hp) as [->|Hle]; [|exact Hle].
      apply dateLe_refl. now apply Hvalid.
  - now rewrite head_lookup.
  - now rewrite last_lookup, <- Nat.sub_1_r.
Qed.

Lemma summary_spans_series_witness :
  exists series st,
    getNormalizedSeries isoTime sample "X" "A" = Ok series
    /\ calculateStats series = Ok (Some st)
    /\ Stats.start st = "2020-01-01" /\ Stats.end_ st = "2020-01-02"
    /\ forall p, In p series ->
                 dateLe isoTime (Stats.start st) (Norm.ds p)
                 /\ dateLe isoTime (Norm.ds p) (Stats.end_ st).
Proof.
  eexists. eexists. split; [vm_compute; reflexivity|]. split; [vm_compute; reflexivity|].
  split; [reflexivity|]. split; [reflexivity|].
  apply (summary_spans_series isoTime sample "X" "A"); [reflexivity|reflexivity|].
  repeat constructor; discriminate.
Defined.

(** ** The comparison with a region of the same country *)










(** ** More on the Matrix Sorter *)

Lemma same_field_dec key a b : same_field key a b \/ ~ same_field key a b.
Proof.
  destruct key; simpl.
  - destruct (string_dec (name a) (name b)); auto.
  - destruct (Qeq_dec (avgMobility a) (avgMobility b)); auto.
  - destruct (Qeq_dec (avgStay a) (avgStay b)); auto.
  - destruct (Qeq_dec (maxStay a) (maxStay b)); auto.
  - destruct (Qeq_dec (minMobility a) (minMobility b)); auto.
  - destruct (Nat.eq_dec (dataPoints a) (dataPoints b)); auto.
Qed.

Lemma field_lt_same_l key a b c :
  same_field key a b -> field_lt key a c = true -> field_lt key b c = true.
Proof.
  destruct key; simpl; rewrite ?Qltb_lt; intros E; try (now rewrite E).
Qed.

Lemma field_lt_same_r key a b c :
  same_field key a b -> field_lt key c a = true -> field_lt key c b = true.
Proof.
  destruct key; simpl; rewrite ?Qltb_lt; intros E; try (now rewrite E).
Qed.

Lemma field_not_lt_trans key a b c :
  field_lt key b a = false -> field_lt key c b = false -> field_lt key c a = false.
Proof.
  intros Hba Hcb. destruct (field_lt key c a) eqn:Hca; [|reflexivity]. exfalso.
  destruct (same_field_dec key a b) as [E|Hne].
  - rewrite (field_lt_same_r key a b c E Hca) in Hcb. discriminate.
  - destruct (field_lt_trichotomy key a b Hne) as [Hab|Hab'].
    + rewrite (field_lt_trans key c a b Hca Hab) in Hcb. discriminate.
    + congruence.
Qed.

(** X14.  For every matrix, key and direction (equal values allowed) the
    sorter returns the rows of the matrix, rearranged so that no row stands
    before one that is smaller in the field (ascending), resp. greater
    (descending); without a sort configuration it returns the matrix as it
    is, and without data the empty list. *)
Theorem sortedMatrix_sorted agg key direction :
  Permutation (sortedMatrix (Some agg) (Some (key, direction))) (matrix agg)
  /\ StronglySorted (inOrder key direction) (sortedMatrix (Some agg) (Some (key, direction)))
  /\ sortedMatrix (Some agg) None = matrix agg
  /\ sortedMatrix None (Some (key, direction)) = [].
Proof.
  split; [apply sortBy_Permutation|]. split; [|split; reflexivity]. simpl.
  apply (sortBy_sorted _ _ (fun _ => True)); [| | |now apply List.Forall_forall].
  - intros a b _ _. unfold SortCompare, compareRegions, inOrder.
    destruct (field_lt key a b) eqn:Hab.
    + destruct direction; [intros _; now apply field_lt_asym|lia].
    + destruct (field_lt key b a) eqn:Hba; destruct direction; try lia; auto.
  - intros a b _ _. unfold SortCompare, compareRegions, inOrder.
    destruct (field_lt key a b) eqn:Hab.
    + destruct direction; [lia|intros _; now apply field_lt_asym].
    + destruct (field_lt key b a) eqn:Hba; destruct direction; try lia; auto.
  - intros a b c _ _ _. unfold inOrder. destruct direction.
    + apply field_not_lt_trans.
    + intros H1 H2. exact (field_not_lt_trans key c b a H2 H1).
Qed.

Example sortedMatrix_sample :
  map name (sortedMatrix (Some sampleMatrix) (Some (key_avgStay, desc))) = ["B"; "A"; "C"]
  /\ map name (sortedMatrix (Some sampleMatrix) (Some (key_name, asc))) = ["A"; "B"; "C"].
Proof. split; reflexivity. Qed.

(** X15.  The sorter is stable in both directions: the rows that tie with
    a given row in the sort field stand in the result in the order they
    have in the matrix. *)
Theorem sortedMatrix_stable agg key direction v :
  List.filter (tie key v) (sortedMatrix (Some agg) (Some (key, direction)))
  = List.filter (tie key v) (matrix agg).
Proof.
  simpl. apply sortBy_filter_stable. intros x y Hx Hy.
  unfold tie in Hx, Hy. apply andb_true_iff in Hx as [Hxv Hvx], Hy as [Hyv Hvy].
  apply negb_true_iff in Hxv, Hvx, Hyv, Hvy.
  assert (forall a b, field_lt key a v = false -> field_lt key v a = false ->
                      field_lt key b v = false -> field_lt key v b = false ->
                      field_lt key a b = false) as Hno.
  { intros a b Hav Hva Hbv Hvb. destruct (field_lt key a b) eqn:Hab; [|reflexivity]. exfalso.
    destruct (same_field_dec key a v) as [E|Hne].
    - rewrite (field_lt_same_l key a v b E Hab) in Hvb. discriminate.
    - destruct (field_lt_trichotomy key a v Hne); congruence. }
  unfold SortCompare, compareRegions.
  rewrite (Hno x y Hxv Hvx Hyv Hvy), (Hno y x Hyv Hvy Hxv Hvx). lia.
Qed.

(** ** [handleSort] *)

Lemma SortKey_eqb_refl key : SortKey_eqb key key = true.
Proof. destruct key; reflexivity. Qed.

Lemma sortBy_directions_mirror key m :
  noDuplicateValues key m ->
  rev (sortBy (compareRegions (key, asc)) m) = sortBy (compareRegions (key, desc)) m.
Proof.
  intros Hnd.
  apply (StronglySorted_unique_strong (fun a b => a = b \/ field_lt key b a = true)).
  - intros a b _ _ [->|Hba] [E|Hab]; auto.
    rewrite (field_lt_asym _ _ _ Hba) in Hab. discriminate.
  - apply (StronglySorted_weaken (fun a b => b = a \/ field_lt key b a = true)).
    + intros a b [E|L]; [left; now symmetry|now right].
    + apply (StronglySorted_rev _ _ (sortBy_field_sorted key asc _ Hnd)).
  - apply (sortBy_field_sorted key desc _ Hnd).
  - rewrite <- Permutation_rev, !sortBy_Permutation. reflexivity.
Qed.

(** X16.  A click on a column header always leaves a sort configuration on
    that column: ascending, unless the table was sorted ascending by that
    very column, in which case descending.  Such a second click shows the
    rows in reverse when the column holds no duplicate values. *)
Theorem handleSort_spec sortConfig key agg :
  (exists direction,
     handleSort sortConfig key = Some (key, direction)
     /\ (direction = desc <-> sortConfig = Some (key, asc)))
  /\ (noDuplicateValues key (matrix agg) ->
      sortedMatrix (Some agg) (handleSort (Some (key, asc)) key)
      = rev (sortedMatrix (Some agg) (Some (key, asc)))).
Proof.
  split.
  - unfold handleSort. destruct sortConfig as [[k [|]]|].
    + destruct (SortKey_eqb k key) eqn:E.
      * exists desc. split; [reflexivity|]. split; [intros _|reflexivity].
        destruct k, key; try discriminate; reflexivity.
      * exists asc. split; [reflexivity|]. split; [discriminate|].
        intros [= ->]. rewrite SortKey_eqb_refl in E. discriminate.
    + exists asc. split; [reflexivity|]. split; discriminate.
    + exists asc. split; [reflexivity|]. split; discriminate.
  - intros Hnd. unfold handleSort. rewrite SortKey_eqb_refl. simpl.
    symmetry. now apply sortBy_directions_mirror.
Qed.

Lemma handleSort_spec_witness :
  sortedMatrix (Some sampleMatrix) (handleSort (Some (key_name, asc)) key_name)
  = rev (sortedMatrix (Some sampleMatrix) (Some (key_name, asc))).
Proof.
  destruct (handleSort_spec (Some (key_name, asc)) key_name sampleMatrix) as [_ H].
  apply H. repeat constructor; simpl; discriminate.
Defined.

(** ** More on the Comparison Merger *)

Section JoinLast.
Context {T : Type} (dsT : T -> string) (mobT stayT : T -> Q).
Variables (label1 createdLabel : option string) (label2 : string).

Local Abbreviation upd := (joinUpd dsT mobT stayT label1 label2).
Local Abbreviation join := (joined dsT mobT stayT label1 createdLabel label2).

Lemma fold_primary ra e0 :
  fold_left (fun e x => upd x e) (map inl ra) e0
  = match last ra with Some p => primaryRow dsT mobT stayT label1 p | None => e0 end.
Proof.
  destruct ra as [|p ra _] using rev_ind; [reflexivity|].
  rewrite map_app, fold_left_app, last_snoc. reflexivity.
Qed.

Lemma fold_secondary rb e1 :
  let e := fold_left (fun e x => upd x e) (map inr rb) e1 in
  Chart.ds e = Chart.ds e1
  /\ Chart.primary_mobility e = Chart.primary_mobility e1
  /\ Chart.primary_stay e = Chart.primary_stay e1
  /\ Chart.primary_label e = Chart.primary_label e1
  /\ Chart.secondary_mobility e
     = match last rb with Some q => Some (mobT q) | None => Chart.secondary_mobility e1 end
  /\ Chart.secondary_stay e
     = match last rb with Some q => Some (stayT q) | None => Chart.secondary_stay e1 end
  /\ Chart.secondary_label e
     = match last rb with Some _ => Some label2 | None => Chart.secondary_label e1 end.
Proof.
  induction rb as [|q rb IH] using rev_ind; [cbn; repeat split|].
  cbn zeta in *. rewrite map_app, fold_left_app, last_snoc. cbn.
  destruct IH as (H1 & H2 & H3 & H4 & _). repeat split; assumption.
Qed.

Lemma last_In {A} (l : list A) x : last l = Some x -> In x l.
Proof. intros H. apply last_Some in H as [l' ->]. apply in_app_iff. right. now left. Qed.

(** The row of a date, by the last points of that date. *)
Lemma joined_row_last a b k e :
  In (k, e) (join a b) ->
  Chart.ds e = k
  /\ Chart.primary_mobility e
     = match last (rows dsT k a) with Some p => NotNull (mobT p) | None => Null end
  /\ Chart.primary_stay e
     = match last (rows dsT k a) with Some p => NotNull (stayT p) | None => Null end
  /\ Chart.primary_label e
     = match last (rows dsT k a) with Some _ => label1 | None => createdLabel end
  /\ Chart.secondary_mobility e
     = match last (rows dsT k b) with Some q => Some (mobT q) | None => None end
  /\ Chart.secondary_stay e
     = match last (rows dsT k b) with Some q => Some (stayT q) | None => None end
  /\ Chart.secondary_label e
     = match last (rows dsT k b) with Some _ => Some label2 | None => None end.
Proof.
  intros Hin. rewrite joined_entries in Hin.
  apply in_map_iff in Hin as (k' & [= <- <-] & _). rewrite rows_tagged.
  unfold joinClosed. rewrite fold_left_app, fold_primary.
  match goal with |- context [fold_left _ (map inr ?rb) ?e1] =>
    destruct (fold_secondary rb e1) as (H1 & H2 & H3 & H4 & H5 & H6 & H7) end.
  rewrite H1, H2, H3, H4, H5, H6, H7.
  destruct (last (rows dsT k' a)) as [p|] eqn:Ea; cbn.
  - apply last_In, rows_In in Ea as [_ Ek].
    repeat split; try assumption; destruct (last (rows dsT k' b)); reflexivity.
  - repeat split; destruct (last (rows dsT k' b)); reflexivity.
Qed.

Lemma rows_last_of_date (l1 l2 : list T) p :
  ~ In (dsT p) (map dsT l2) -> last (rows dsT (dsT p) (l1 ++ p :: l2)) = Some p.
Proof.
  intros Hn. unfold rows. rewrite List.filter_app. simpl. rewrite String.eqb_refl.
  fold (rows dsT (dsT p) l2). rewrite (rows_absent dsT l2 _ Hn).
  apply (last_snoc p).
Qed.

Lemma rows_last_In k (l : list T) :
  (In k (map dsT l) -> exists p, last (rows dsT k l) = Some p)
  /\ (~ In k (map dsT l) -> last (rows dsT k l) = None).
Proof.
  split.
  - intros Hk. apply (rows_nonempty dsT) in Hk.
    destruct (last (rows dsT k l)) eqn:E; [eauto|]. now apply last_None in E.
  - intros Hn. now rewrite (rows_absent dsT l k Hn).
Qed.

Lemma joined_ds_any a b : map Chart.ds (map snd (join a b)) = map fst (join a b).
Proof.
  assert (forall m : Map ChartDataPoint, (forall k e, In (k, e) m -> Chart.ds e = k) ->
            map Chart.ds (map snd m) = map fst m) as Hall.
  { induction m as [|[k e] m IH]; intros H; simpl; [reflexivity|].
    rewrite IH by (intros; apply H; now right). now rewrite (H k e) by now left. }
  apply Hall. intros k e Hin. now destruct (joined_row_last a b k e Hin).
Qed.

Lemma joined_row_of rows a b row :
  Permutation rows (map snd (join a b)) -> In row rows -> In (Chart.ds row, row) (join a b).
Proof.
  intros Hperm Hr. apply (Permutation_in _ Hperm), in_map_iff in Hr as ([k e] & <- & He).
  simpl. destruct (joined_row_last a b k e He) as [-> _]. exact He.
Qed.

Lemma joined_lastPointWins a b rows :
  Permutation rows (map snd (join a b)) -> lastPointWins dsT mobT stayT a b rows.
Proof.
  intros Hperm.
  assert (Permutation (map Chart.ds rows) (map fst (join a b))) as Hds.
  { rewrite <- joined_ds_any. now apply Permutation_map. }
  assert (forall d, In d (map Chart.ds rows) <-> In d (map dsT a) \/ In d (map dsT b)) as Hin.
  { intros d. rewrite <- (joined_keys_In dsT mobT stayT label1 createdLabel label2).
    split; apply Permutation_in; [|symmetry]; exact Hds. }
  split; [|split; [exact Hin|split]].
  - apply (Stdlib.Sorting.Permutation.Permutation_NoDup (Permutation_sym Hds)).
    apply joined_keys_NoDup.
  - intros a1 p a2 -> Hn.
    assert (In (dsT p) (map Chart.ds rows)) as Hp.
    { apply Hin. left. rewrite map_app, in_app_iff. right. now left. }
    apply in_map_iff in Hp as (row & Hk & Hr). exists row.
    destruct (joined_row_last _ _ _ _ (joined_row_of rows _ b row Hperm Hr))
      as (_ & Hm & Hs & _).
    rewrite Hk, (rows_last_of_date a1 a2 p Hn) in Hm, Hs. repeat split; assumption.
  - intros b1 q b2 -> Hn.
    assert (In (dsT q) (map Chart.ds rows)) as Hq.
    { apply Hin. right. rewrite map_app, in_app_iff. right. now left. }
    apply in_map_iff in Hq as (row & Hk & Hr). exists row.
    destruct (joined_row_last _ _ _ _ (joined_row_of rows a _ row Hperm Hr))
      as (_ & _ & _ & _ & Hm & Hs & _).
    rewrite Hk, (rows_last_of_date b1 b2 q Hn) in Hm, Hs. repeat split; assumption.
Qed.

(** The labels of a row, and the absence of secondary values. *)
Lemma joined_labels a b rows row :
  Permutation rows (map snd (join a b)) -> In row rows ->
  (In (Chart.ds row) (map dsT a) -> Chart.primary_label row = label1)
  /\ (~ In (Chart.ds row) (map dsT a) -> Chart.primary_label row = createdLabel)
  /\ (In (Chart.ds row) (map dsT b) -> Chart.secondary_label row = Some label2)
  /\ (~ In (Chart.ds row) (map dsT b) ->
      Chart.secondary_label row = None /\ Chart.secondary_mobility row = None
      /\ Chart.secondary_stay row = None).
Proof.
  intros Hperm Hr.
  destruct (joined_row_last _ _ _ _ (joined_row_of rows a b row Hperm Hr))
    as (_ & _ & _ & Hl & Hm & Hs & Hl2).
  destruct (rows_last_In (Chart.ds row) a) as [Ha Hna].
  destruct (rows_last_In (Chart.ds row) b) as [Hb Hnb].
  split; [|split; [|split]].
  - intros H. destruct (Ha H) as [p E]. now rewrite E in Hl.
  - intros H. now rewrite (Hna H) in Hl.
  - intros H. destruct (Hb H) as [q E]. now rewrite E in Hl2.
  - intros H. rewrite (Hnb H) in Hm, Hs, Hl2. repeat split; assumption.
Qed.

End JoinLast.

Lemma comparisonChartData_any getTime a b isCompareMode r1 c1 r2 c2 :
  comparisonChartData getTime a b isCompareMode r1 c1 r2 c2
  = sortBy (fun x y => dateDiff getTime (Chart.ds x) (Chart.ds y))
      (map snd (joined Norm.ds Norm.mobility Norm.stay
                  (Some (if String.eqb r1 WHOLE_COUNTRY_OPTION then c1 +:+ " (Avg)" else r1))
                  None
                  (if String.eqb r2 WHOLE_COUNTRY_OPTION then c2 +:+ " (Avg)" else r2)
                  a (compared isCompareMode b))).
Proof.
  destruct isCompareMode; [apply comparisonChartData_joined|].
  rewrite <- loops_joined. reflexivity.
Qed.

Lemma countryComparisonChartData_any getTime d1 o2 isCountryCompareMode c1 c2 ty reg :
  countryComparisonChartData getTime (Some d1) o2 isCountryCompareMode c1 c2 ty reg
  = sortBy (fun x y => dateDiff getTime (Chart.ds x) (Chart.ds y))
      (map snd (joined Trend.ds Trend.avgMobility Trend.avgStay (Some c1) (Some c1)
                  (match ty with compare_country => c2 | compare_region => reg end)
                  (trend d1) (comparedTrend isCountryCompareMode o2))).
Proof.
  destruct isCountryCompareMode, o2 as [d2|];
    [apply countryComparisonChartData_joined|rewrite <- loops_joined; reflexivity..].
Qed.

(** X17.  Both mergers give one row per date of either series also when a
    series has several points of one date, as the series of a region has
    where the data holds several records of a day: the row of a date then
    carries the values of the last point of that date, for the primary and
    for the secondary values alike.  With the comparison off the secondary
    series is not read. *)
Theorem merge_last_point_wins getTime :
  (forall a b isCompareMode r1 c1 r2 c2,
     lastPointWins Norm.ds Norm.mobility Norm.stay a (compared isCompareMode b)
       (comparisonChartData getTime a b isCompareMode r1 c1 r2 c2))
  /\ (forall d1 o2 isCountryCompareMode c1 c2 ty reg,
        lastPointWins Trend.ds Trend.avgMobility Trend.avgStay
          (trend d1) (comparedTrend isCountryCompareMode o2)
          (countryComparisonChartData getTime (Some d1) o2 isCountryCompareMode c1 c2 ty reg)).
Proof.
  split.
  - intros. rewrite comparisonChartData_any.
    eapply joined_lastPointWins, sortBy_Permutation.
  - intros. rewrite countryComparisonChartData_any.
    eapply joined_lastPointWins, sortBy_Permutation.
Qed.

Example comparisonChartData_sameDay :
  comparisonChartData isoTime seriesTwice seriesB false "A" "X" "B" "X"
  = [ Chart.mk "2020-01-01" (NotNull (-(4 # 10))%Q) (NotNull (1 # 10)) (Some "A") None None None;
      Chart.mk "2020-01-02" (NotNull (3 # 10)) (NotNull (6 # 10)) (Some "A") None None None ].
Proof. reflexivity. Qed.

Lemma merge_last_point_wins_witness :
  exists row,
    In row (comparisonChartData isoTime seriesTwice seriesB true "A" "X" "B" "X")
    /\ Chart.ds row = "2020-01-02"
    /\ Chart.primary_mobility row = NotNull (3 # 10)
    /\ Chart.primary_stay row = NotNull (6 # 10).
Proof.
  destruct (merge_last_point_wins isoTime) as [H _].
  destruct (H seriesTwice seriesB true "A" "X" "B" "X") as (_ & _ & Hlast & _).
  apply (Hlast [ Norm.mk "2020-01-02" (-(2 # 10)) (5 # 10) (Some "DAY_OF_WEEK");
                 Norm.mk "2020-01-01" (-(4 # 10)) (1 # 10) (Some "DAY_OF_WEEK") ]
               (Norm.mk "2020-01-02" (3 # 10) (6 # 10) (Some "DAY_OF_WEEK")) []).
  - reflexivity.
  - simpl. tauto.
Defined.

(** X18.  The labels of the chart rows.  In the region view a row carries
    the primary label (the region, or the country with [(Avg)] for the
    whole country) exactly when its date is in the primary series, and the
    secondary label exactly when its date is in the secondary series that
    is compared; a row whose date is not in it has no secondary value at
    all.  In the country view every row carries the country as primary
    label, also the rows of dates that only the compared trend has, and the
    secondary label is the compared country or region.  Without a primary
    aggregate the country chart is empty. *)
Theorem chart_labels getTime :
  (forall a b isCompareMode r1 c1 r2 c2 row,
     In row (comparisonChartData getTime a b isCompareMode r1 c1 r2 c2) ->
     let label1 := if String.eqb r1 WHOLE_COUNTRY_OPTION then c1 +:+ " (Avg)" else r1 in
     let label2 := if String.eqb r2 WHOLE_COUNTRY_OPTION then c2 +:+ " (Avg)" else r2 in
     let b' := compared isCompareMode b in
     (In (Chart.ds row) (map Norm.ds a) -> Chart.primary_label row = Some label1)
     /\ (~ In (Chart.ds row) (map Norm.ds a) -> Chart.primary_label row = None)
     /\ (In (Chart.ds row) (map Norm.ds b') -> Chart.secondary_label row = Some label2)
     /\ (~ In (Chart.ds row) (map Norm.ds b') ->
         Chart.secondary_label row = None /\ Chart.secondary_mobility row = None
         /\ Chart.secondary_stay row = None))
  /\ (forall d1 o2 isCountryCompareMode c1 c2 ty reg row,
        In row (countryComparisonChartData getTime (Some d1) o2 isCountryCompareMode
                  c1 c2 ty reg) ->
        let label2 := match ty with compare_country => c2 | compare_region => reg end in
        let t2 := comparedTrend isCountryCompareMode o2 in
        Chart.primary_label row = Some c1
        /\ (In (Chart.ds row) (map Trend.ds t2) -> Chart.secondary_label row = Some label2)
        /\ (~ In (Chart.ds row) (map Trend.ds t2) ->
            Chart.secondary_label row = None /\ Chart.secondary_mobility row = None
            /\ Chart.secondary_stay row = None))
  /\ (forall o2 isCountryCompareMode c1 c2 ty reg,
        countryComparisonChartData getTime None o2 isCountryCompareMode c1 c2 ty reg = []).
Proof.
  split; [|split].
  - intros a b mode r1 c1 r2 c2 row Hr. rewrite comparisonChartData_any in Hr.
    cbn zeta. eapply joined_labels; [|exact Hr]. apply sortBy_Permutation.
  - intros d1 o2 mode c1 c2 ty reg row Hr. rewrite countryComparisonChartData_any in Hr.
    cbn zeta.
    destruct (joined_labels _ _ _ _ _ _ _ _ _ row (sortBy_Permutation _ _) Hr)
      as (H1 & H2 & H3 & H4).
    split; [|split; assumption].
    destruct (in_dec string_dec (Chart.ds row) (map Trend.ds (trend d1))); auto.
  - reflexivity.
Qed.

Lemma chart_labels_witness :
  let row := Chart.mk "2020-01-03" Null Null None (Some (1 # 10)) (Some (2 # 10))
               (Some "Y (Avg)") in
  In row (comparisonChartData isoTime seriesA seriesB true "A" "X" WHOLE_COUNTRY_OPTION "Y")
  /\ Chart.primary_label row = None
  /\ Chart.secondary_label row = Some "Y (Avg)".
Proof.
  cbn zeta.
  assert (In (Chart.mk "2020-01-03" Null Null None (Some (1 # 10)) (Some (2 # 10))
                (Some "Y (Avg)"))
             (comparisonChartData isoTime seriesA seriesB true "A" "X" WHOLE_COUNTRY_OPTION "Y"))
    as Hin by (vm_compute; tauto).
  destruct (chart_labels isoTime) as [H _].
  destruct (H seriesA seriesB true "A" "X" WHOLE_COUNTRY_OPTION "Y" _ Hin) as (_ & H2 & H3 & _).
  split; [exact Hin|]. split.
  - apply H2. simpl. intuition discriminate.
  - apply H3. simpl. tauto.
Defined.

(** ** The parser *)

Lemma orEmpty_nonempty o s : Machine.orEmpty o = s -> s <> "" -> o = Some s.
Proof. destruct o; simpl; intros <- H; [reflexivity|congruence]. Qed.

Lemma exactRecord_fields p r :
  exactRecord p = Some r -> ds r = Machine.ds p /\ country r = Machine.country p.
Proof.
  unfold exactRecord. intros H.
  destruct (Machine.all_day_bing_tiles_visited_relative_change p); try discriminate.
  destruct (Machine.all_day_ratio_single_tile_users p); try discriminate.
  injection H as <-. split; reflexivity.
Qed.

Lemma exactRecords_In l : forall recs,
  exactRecords l = Some recs ->
  forall r, In r recs -> exists p, In p l /\ exactRecord p = Some r.
Proof.
  induction l as [|p l IH]; intros recs H r Hr; simpl in H.
  - injection H as <-. destruct Hr.
  - destruct (exactRecord p) as [r0|] eqn:Ep; [|discriminate].
    destruct (exactRecords l) as [rs|]; [|discriminate]. injection H as <-.
    destruct Hr as [<-|Hr]; [exists p; split; [now left|assumption]|].
    destruct (IH rs eq_refl r Hr) as (p' & Hp' & E). exists p'. split; [now right|assumption].
Qed.

(** X19.  The parser returns, for every text, the converted rows that hold
    a non-empty date and a non-empty country; it keeps such a row also when
    its numbers do not read, with what [parseFloat] gives (NaN) in their
    place.  So every record has a non-empty date and country and comes from
    a row of the file that holds both, and there are no more records than
    rows.  Where all the numbers of the records are finite, a country is
    listed by [getUniqueCountries] exactly when the aggregator returns an
    aggregate for it: the country selector offers no country without an
    overview. *)
Theorem parsed_countries_have_overviews tsvRows parseFloat getTime text :
  let parsed := Machine.parseMovementData tsvRows parseFloat text in
  (forall p, In p parsed ->
     Machine.ds p <> "" /\ Machine.country p <> ""
     /\ exists d, In d (tsvRows text) /\ p = Machine.convertRow parseFloat d
                  /\ raw_ds d = Some (Machine.ds p)
                  /\ raw_country d = Some (Machine.country p))
  /\ (forall d, In d (tsvRows text) ->
        (exists date c, raw_ds d = Some date /\ date <> ""
                        /\ raw_country d = Some c /\ c <> "") ->
        In (Machine.convertRow parseFloat d) parsed)
  /\ length parsed <= length (tsvRows text)
  /\ (forall recs, exactRecords parsed = Some recs ->
      forall C, In C (getUniqueCountries recs)
                <-> exists agg, calculateCountryAggregates getTime recs C = Ok (Some agg)).
Proof.
  cbn zeta. unfold Machine.parseMovementData.
  set (keep := fun p => negb (falsy (Machine.ds p)) && negb (falsy (Machine.country p))).
  assert (forall p, keep p = true <-> Machine.ds p <> "" /\ Machine.country p <> "") as Hkeep.
  { intros p. unfold keep, falsy. rewrite andb_true_iff, !negb_true_iff, !String.eqb_neq.
    reflexivity. }
  assert (forall p, In p (List.filter keep (map (Machine.convertRow parseFloat) (tsvRows text))) ->
            Machine.ds p <> "" /\ Machine.country p <> "") as Hnamed.
  { intros p Hp. apply List.filter_In in Hp as [_ Hp]. now apply Hkeep. }
  split; [|split; [|split]].
  - intros p Hp. destruct (Hnamed p Hp) as [Hd Hc]. split; [assumption|]. split; [assumption|].
    apply List.filter_In in Hp as [Hp _]. apply in_map_iff in Hp as (d & <- & Hin).
    exists d. split; [assumption|]. split; [reflexivity|].
    split; apply orEmpty_nonempty; auto.
  - intros d Hd (date & c & Ed & Hdate & Ec & Hcn). apply List.filter_In. split.
    + now apply in_map.
    + apply Hkeep. simpl. rewrite Ed, Ec. now split.
  - rewrite <- (List.length_map (Machine.convertRow parseFloat) (tsvRows text)).
    apply List.filter_length_le.
  - intros recs Hrecs C. unfold getUniqueCountries.
    rewrite sortBy_In, Set_from_In, in_map_iff. split.
    + intros (r & <- & Hr).
      destruct (exactRecords_In _ _ Hrecs r Hr) as (p & Hp & E).
      destruct (exactRecord_fields p r E) as [_ Ec]. destruct (Hnamed p Hp) as [_ Hc].
      eexists. apply calculateCountryAggregates_Some; [now rewrite Ec|].
      apply countryRows_nonempty. exists r. now split.
    + intros (agg & Hagg). apply calculateCountryAggregates_inv in Hagg as (_ & (r & Hr & Hc) & _).
      exists r. now split.
Qed.

Example parseMovementData_sample :
  Machine.parseMovementData (fun _ => sampleRows ++ [unreadRow]) sampleFloat "text"
  = [ {| Machine.ds := "2020-01-01"; Machine.country := "X"; Machine.polygon_source := "FB";
         Machine.polygon_id := "A"; Machine.polygon_name := "A";
         Machine.all_day_bing_tiles_visited_relative_change := Machine.Num (-(1 # 2));
         Machine.all_day_ratio_single_tile_users := Machine.Num (1 # 4);
         Machine.baseline_name := "full_february"; Machine.baseline_type := "DAY_OF_WEEK" |};
      {| Machine.ds := "2020-01-02"; Machine.country := "Y"; Machine.polygon_source := "";
         Machine.polygon_id := ""; Machine.polygon_name := "B";
         Machine.all_day_bing_tiles_visited_relative_change := Machine.Num 0;
         Machine.all_day_ratio_single_tile_users := Machine.Num 0;
         Machine.baseline_name := ""; Machine.baseline_type := "" |};
      {| Machine.ds := "2020-01-03"; Machine.country := "Z"; Machine.polygon_source := "";
         Machine.polygon_id := ""; Machine.polygon_name := "C";
         Machine.all_day_bing_tiles_visited_relative_change := Machine.NaN;
         Machine.all_day_ratio_single_tile_users := Machine.Num (1 # 4);
         Machine.baseline_name := ""; Machine.baseline_type := "" |} ].
Proof. vm_compute. reflexivity. Qed.

Lemma parsed_countries_have_overviews_witness :
  exists recs : list MovementRecord,
    exactRecords (Machine.parseMovementData (fun _ => sampleRows) sampleFloat "text") = Some recs
    /\ (In "Y" (getUniqueCountries recs)
        <-> exists agg, calculateCountryAggregates isoTime recs "Y" = Ok (Some agg))
    /\ In (Machine.convertRow sampleFloat unreadRow)
          (Machine.parseMovementData (fun _ => sampleRows ++ [unreadRow]) sampleFloat "text").
Proof.
  assert (exists recs,
            exactRecords (Machine.parseMovementData (fun _ => sampleRows) sampleFloat "text")
            = Some recs) as [recs Hrecs] by (eexists; vm_compute; reflexivity).
  exists recs. split; [exact Hrecs|].
  destruct (parsed_countries_have_overviews (fun _ => sampleRows) sampleFloat isoTime "text")
    as (_ & _ & _ & Hlist).
  destruct (parsed_countries_have_overviews (fun _ => sampleRows ++ [unreadRow]) sampleFloat
              isoTime "text") as (_ & Hkept & _).
  split; [apply (Hlist recs Hrecs)|]. apply Hkept.
  - apply in_app_iff. right. now left.
  - exists "2020-01-03", "Z". repeat split; discriminate.
Defined.

(** ** The selected regions *)

Lemma includes_In l x : includes l x = true <-> In x l.
Proof.
  unfold includes. rewrite existsb_exists. split.
  - intros (y & Hy & E). apply String.eqb_eq in E. now subst.
  - intros H. exists x. split; [assumption|apply String.eqb_refl].
Qed.

(** X20.  Once a country is selected, the effect that follows the options
    leaves a region that is one of the options: the selected one if it
    still is an option, the whole-country option otherwise; run again, the
    effect changes nothing.  The same holds of the secondary region while
    the comparison is on; while it is off the secondary region is left as
    it is. *)
Theorem resetSelectedRegion_settles data selectedCountry selectedRegion :
  selectedCountry <> "" ->
  let options := regionOptions data selectedCountry in
  let next := resetSelectedRegion selectedCountry options selectedRegion in
  let next2 := resetSelectedRegion2 true selectedCountry options selectedRegion in
  In next options
  /\ (In selectedRegion options -> next = selectedRegion)
  /\ (~ In selectedRegion options -> next = WHOLE_COUNTRY_OPTION)
  /\ resetSelectedRegion selectedCountry options next = next
  /\ next2 = next
  /\ resetSelectedRegion2 false selectedCountry options selectedRegion = selectedRegion.
Proof.
  intros Hc. cbn zeta. unfold resetSelectedRegion, resetSelectedRegion2, falsy.
  apply String.eqb_neq in Hc. rewrite Hc. cbn [negb andb].
  destruct (includes (regionOptions data selectedCountry) selectedRegion) eqn:E; cbn [negb].
  - apply includes_In in E as Hin. rewrite E. cbn [negb].
    repeat split; auto. intros Hn. contradiction.
  - assert (~ In selectedRegion (regionOptions data selectedCountry)) as Hn.
    { intros Hin. apply includes_In in Hin. congruence. }
    assert (includes (regionOptions data selectedCountry)
              (firstOrEmpty (regionOptions data selectedCountry)) = true) as Hfirst.
    { apply includes_In. now left. }
    rewrite Hfirst. cbn [negb].
    repeat split; auto; [now left|intros Hin; contradiction].
Qed.

Lemma resetSelectedRegion_settles_witness :
  resetSelectedRegion "X" (regionOptions sample "X") "C" = WHOLE_COUNTRY_OPTION
  /\ resetSelectedRegion "X" (regionOptions sample "X") "B" = "B".
Proof.
  assert ("X" <> "") as Hc by discriminate.
  destruct (resetSelectedRegion_settles sample "X" "C" Hc) as (_ & _ & H & _).
  destruct (resetSelectedRegion_settles sample "X" "B" Hc) as (_ & H' & _).
  split.
  - apply H. vm_compute. intuition discriminate.
  - apply H'. vm_compute. tauto.
Defined.

Lemma getRegionsByCountry_sorted data c :
  StronglySorted (fun a b => String.ltb a b = true) (getRegionsByCountry data c)
  /\ forall n, In n (getRegionsByCountry data c)
               <-> exists r, In r data /\ country r = c /\ polygon_name r = n.
Proof.
  unfold getRegionsByCountry. fold (countryRows data c). split.
  - apply sort_strings_sorted, Set_from_NoDup.
  - intros n. rewrite sortBy_In, Set_from_In, in_map_iff. split.
    + intros (r & Hn & Hr). apply countryRows_In in Hr as [Hr Hc]. eauto.
    + intros (r & Hr & Hc & Hn). exists r. split; [assumption|]. now apply countryRows_In.
Qed.

(** X21.  When the country view compares with a region and the country has
    records, the auto-select effect leaves a region of the country: the
    selected one if it is a region of the country, otherwise the one whose
    name comes first in string order; run again, the effect changes
    nothing.  In the other comparison, or for a country without records,
    it leaves the region as it is. *)
Theorem autoSelectRegion_settles data countryViewCountry countryViewRegion :
  hasRecord data countryViewCountry ->
  let available := getRegionsByCountry data countryViewCountry in
  let next := autoSelectRegion compare_region available countryViewRegion in
  In next available
  /\ (In countryViewRegion available -> next = countryViewRegion)
  /\ (~ In countryViewRegion available ->
      forall n, In n available -> n = next \/ String.ltb next n = true)
  /\ autoSelectRegion compare_region available next = next
  /\ autoSelectRegion compare_country available countryViewRegion = countryViewRegion
  /\ autoSelectRegion compare_region [] countryViewRegion = countryViewRegion.
Proof.
  intros (r & Hr & Hc). cbn zeta.
  destruct (getRegionsByCountry_sorted data countryViewCountry) as (Hsorted & Hin).
  assert (In (polygon_name r) (getRegionsByCountry data countryViewCountry)) as Hne
    by (apply Hin; eauto).
  unfold autoSelectRegion.
  destruct (getRegionsByCountry data countryViewCountry) as [|first rest] eqn:E;
    [destruct Hne|].
  destruct (includes (first :: rest) countryViewRegion) eqn:Ei.
  - apply includes_In in Ei as Hi. rewrite Ei.
    repeat split; auto; try (intros; contradiction).
  - assert (~ In countryViewRegion (first :: rest)) as Hn.
    { intros Hi. apply includes_In in Hi. congruence. }
    assert (includes (first :: rest) first = true) as Hfirst by (apply includes_In; now left).
    rewrite Hfirst. repeat split; auto; try (now left); try (intros; contradiction).
    intros _ n Hn'. apply (StronglySorted_head _ _ first Hsorted eq_refl n) in Hn'.
    destruct Hn' as [->|Hlt]; auto.
Qed.

Lemma autoSelectRegion_settles_witness :
  In (autoSelectRegion compare_region (getRegionsByCountry sample "X") "")
     (getRegionsByCountry sample "X")
  /\ autoSelectRegion compare_region (getRegionsByCountry sample "X") "B" = "B".
Proof.
  assert (hasRecord sample "X") as Hrec.
  { exists (record "2020-01-02" "X" "A" (-(2 # 10)) (5 # 10)).
    split; [now left|reflexivity]. }
  destruct (autoSelectRegion_settles sample "X" "" Hrec) as (Hin & _).
  destruct (autoSelectRegion_settles sample "X" "B" Hrec) as (_ & Hkeep & _).
  split; [exact Hin|]. apply Hkeep. vm_compute. tauto.
Defined.




(** * Properties of the machine embedding *)

(** ** Numbers *)


(** ** Rounding to binary64 *)

Lemma pow2_Qpower z : (Machine.pow2 z == 2 ^ z)%Q.
Proof.
  unfold Machine.pow2. destruct (Z.leb_spec 0 z) as [H|H].
  - now rewrite Zpower_Qpower.
  - destruct z as [|p|p]; try lia. change (2 ^ Z.neg p)%Q with (/ (2 ^ Z.pos p))%Q.
    rewrite <- (Zpower_Qpower 2 (Z.pos p)) by lia. change (- Z.neg p)%Z with (Z.pos p).
    assert (0 < 2 ^ Z.pos p)%Z as Hpos by (apply Z.pow_pos_nonneg; lia).
    destruct (2 ^ Z.pos p)%Z as [|m|m]; try lia. reflexivity.
Qed.

Lemma pow2_pos z : (0 < Machine.pow2 z)%Q.
Proof. rewrite pow2_Qpower. apply Qpower_0_lt. reflexivity. Qed.

Lemma pow2_add x y : (Machine.pow2 (x + y) == Machine.pow2 x * Machine.pow2 y)%Q.
Proof. rewrite !pow2_Qpower. apply Qpower_plus. discriminate. Qed.

Lemma pow2_le x y : (x <= y)%Z -> (Machine.pow2 x <= Machine.pow2 y)%Q.
Proof. intros H. rewrite !pow2_Qpower. apply Qpower_le_compat_l; [assumption|discriminate]. Qed.

Lemma pow2_nonneg_exponent z : (0 <= z)%Z -> Machine.pow2 z = inject_Z (2 ^ z).
Proof. intros H. unfold Machine.pow2. now destruct (Z.leb_spec 0 z); [|lia]. Qed.

(** [log2floor] gives the exponent of a positive value. *)
Lemma log2floor_spec a :
  (0 < a)%Q ->
  (Machine.pow2 (Machine.log2floor a) <= a)%Q
  /\ (a < Machine.pow2 (Machine.log2floor a + 1))%Q.
Proof.
  intros Ha. destruct a as [n d]. assert (0 < n)%Z as Hn.
  { unfold Qlt in Ha. simpl in Ha. lia. }
  unfold Machine.log2floor. cbn [Qnum Qden].
  set (ln := Z.log2 n). set (ld := Z.log2 (Z.pos d)). set (k := (ln - ld)%Z).
  destruct (Z.log2_spec n Hn) as [Hn1 Hn2]. fold ln in Hn1, Hn2.
  destruct (Z.log2_spec (Z.pos d) eq_refl) as [Hd1 Hd2]. fold ld in Hd1, Hd2.
  assert (0 <= ln)%Z as Hln by apply Z.log2_nonneg.
  assert (0 <= ld)%Z as Hld by apply Z.log2_nonneg.
  rewrite Zle_Qle in Hn1, Hd1. rewrite Zlt_Qlt in Hn2, Hd2.
  rewrite <- Z.add_1_r in Hn2, Hd2.
  rewrite <- pow2_nonneg_exponent in Hn1, Hn2, Hd1, Hd2 by lia.
  set (N := inject_Z n) in *. set (D := inject_Z (Z.pos d)) in *.
  assert (0 < D)%Q as HD by reflexivity.
  assert (n # d == N / D)%Q as Ea by apply Qmake_Qdiv.
  assert (ln = (k + ld)%Z) as Hk by (unfold k; lia). clearbody k.
  assert (Machine.pow2 ln == Machine.pow2 (k - 1) * Machine.pow2 (ld + 1))%Q as E1.
  { rewrite <- pow2_add. replace (k - 1 + (ld + 1))%Z with ln by lia. reflexivity. }
  assert (Machine.pow2 (ln + 1) == Machine.pow2 (k + 1) * Machine.pow2 ld)%Q as E2.
  { rewrite <- pow2_add. replace (k + 1 + ld)%Z with (ln + 1)%Z by lia. reflexivity. }
  assert (Machine.pow2 (k - 1) <= n # d)%Q as Hlow.
  { rewrite Ea. apply Qle_shift_div_l; [assumption|].
    apply Qle_trans with (Machine.pow2 ln); [|assumption]. rewrite E1.
    apply Qmult_le_l; [apply pow2_pos|]. now apply Qlt_le_weak. }
  assert (n # d < Machine.pow2 (k + 1))%Q as Hhigh.
  { rewrite Ea. apply Qlt_shift_div_r; [assumption|].
    apply Qlt_le_trans with (Machine.pow2 (ln + 1)); [assumption|]. rewrite E2.
    apply Qmult_le_l; [apply pow2_pos|assumption]. }
  destruct (Qle_bool (Machine.pow2 k) (n # d)) eqn:E.
  - apply Qle_bool_iff in E. split; assumption.
  - split; [assumption|]. replace (k - 1 + 1)%Z with k by lia.
    apply Qnot_le_lt. intros H. apply Qle_bool_iff in H. congruence.
Qed.

(** [roundHalfEven] gives a nearest integer, the even one of two. *)
Lemma roundHalfEven_spec x :
  let n := Machine.roundHalfEven x in
  (Qabs (inject_Z n - x) <= 1 # 2)%Q
  /\ ((Qabs (inject_Z n - x) == 1 # 2)%Q -> Z.even n = true)
  /\ (Qfloor x <= n <= Qfloor x + 1)%Z.
Proof.
  cbn zeta. unfold Machine.roundHalfEven.
  pose proof (Qfloor_le x) as Hlo. pose proof (Qlt_floor x) as Hhi.
  rewrite inject_Z_plus in Hhi. change (inject_Z 1) with 1%Q in Hhi.
  set (f := Qfloor x) in *.
  destruct (Qcompare_spec (x - inject_Z f) (1 # 2)) as [E|L|G].
  - destruct (Z.even f) eqn:Hev.
    + split; [|split; [auto|lia]]. apply Qabs_Qle_condition. split; lra.
    + split; [|split; [|lia]].
      * rewrite inject_Z_plus. change (inject_Z 1) with 1%Q. apply Qabs_Qle_condition.
        split; lra.
      * intros _. rewrite Z.add_1_r, Z.even_succ, <- Z.negb_even, Hev. reflexivity.
  - split; [|split; [|lia]].
    + apply Qabs_Qle_condition. split; lra.
    + intros H. exfalso. rewrite Qabs_neg in H by lra. lra.
  - split; [|split; [|lia]].
    + rewrite inject_Z_plus. change (inject_Z 1) with 1%Q. apply Qabs_Qle_condition.
      split; lra.
    + intros H. exfalso. rewrite inject_Z_plus in H. change (inject_Z 1) with 1%Q in H.
      rewrite Qabs_pos in H by lra. lra.
Qed.

(** [round64] rounds to the nearest binary64 value, to the even one of
    two.  With [e] the exponent of [q], or [-1022] for a smaller [q], the
    binary64 values from [2^e] to [2^(e+1)] are the multiples [n * 2^(e-52)]
    with [n] up to [2^53]; the result is such a multiple, no farther from
    [|q|] than half the spacing and with an even [n] when it is that far,
    with the sign of [q]; an infinity when the multiple is [2^1024]. *)
Lemma round64_nearest q :
  ~ (q == 0)%Q ->
  exists e n : Z,
    (((Machine.pow2 e <= Qabs q)%Q /\ (Qabs q < Machine.pow2 (e + 1))%Q)
     \/ (e = (-1022)%Z /\ (Qabs q < Machine.pow2 (-1022))%Q))
    /\ (-1022 <= e)%Z
    /\ (0 <= n <= 2 ^ 53)%Z
    /\ (Qabs (inject_Z n * Machine.pow2 (e - 52) - Qabs q) <= Machine.pow2 (e - 52) / 2)%Q
    /\ ((Qabs (inject_Z n * Machine.pow2 (e - 52) - Qabs q) == Machine.pow2 (e - 52) / 2)%Q ->
        Z.even n = true)
    /\ Machine.round64 q
       = if Qle_bool (Machine.pow2 1024) (inject_Z n * Machine.pow2 (e - 52))
         then Machine.Infinity (Qltb q 0)
         else Machine.Num (Qred (if Qltb q 0 then - (inject_Z n * Machine.pow2 (e - 52))
                                 else inject_Z n * Machine.pow2 (e - 52))).
Proof.
  intros Hq.
  assert (0 < Qabs q)%Q as Ha.
  { destruct (Qlt_le_dec 0 (Qabs q)) as [H|H]; [assumption|]. exfalso. apply Hq.
    pose proof (Qabs_nonneg q) as H0. apply Qabs_Qle_condition in H. lra. }
  set (a := Qabs q) in *.
  set (e := Z.max (Machine.log2floor a) (-1022)).
  set (ulp := Machine.pow2 (e - 52)).
  set (x := (a / ulp)%Q).
  set (n := Machine.roundHalfEven x).
  assert (0 < ulp)%Q as Hulp by apply pow2_pos.
  assert (x * ulp == a)%Q as Hx by (unfold x; field; lra).
  destruct (log2floor_spec a Ha) as [Hlo Hhi].
  assert (a < Machine.pow2 (e + 1))%Q as Hup.
  { apply Qlt_le_trans with (Machine.pow2 (Machine.log2floor a + 1)); [assumption|].
    apply pow2_le. unfold e. lia. }
  assert (Machine.pow2 (e + 1) == inject_Z (2 ^ 53) * ulp)%Q as E53.
  { unfold ulp. rewrite <- (pow2_nonneg_exponent 53) by lia. rewrite <- pow2_add.
    replace (53 + (e - 52))%Z with (e + 1)%Z by lia. reflexivity. }
  destruct (roundHalfEven_spec x) as (Hnear & Htie & Hfl). fold n in Hnear, Htie, Hfl.
  assert (inject_Z n * ulp - a == (inject_Z n - x) * ulp)%Q as Ediff by (rewrite <- Hx; ring).
  assert (Qabs (inject_Z n * ulp - a) == Qabs (inject_Z n - x) * ulp)%Q as Eabs.
  { rewrite Ediff, Qabs_Qmult, (Qabs_pos ulp) by lra. reflexivity. }
  exists e, n. fold a ulp. split; [|split; [|split; [|split; [|split]]]].
  - destruct (Z.max_spec (Machine.log2floor a) (-1022)) as [[Hlt E]|[Hge E]]; fold e in E.
    + right. split; [assumption|].
      apply Qlt_le_trans with (Machine.pow2 (Machine.log2floor a + 1)); [assumption|].
      apply pow2_le. lia.
    + left. rewrite E. split; assumption.
  - unfold e. lia.
  - assert (0 <= x)%Q as Hx0.
    { unfold x. apply Qle_shift_div_l; [assumption|]. lra. }
    assert (0 <= Qfloor x)%Z as Hf0.
    { change 0%Z with (Qfloor 0). now apply Qfloor_resp_le. }
    assert (x < inject_Z (2 ^ 53))%Q as Hx53.
    { unfold x. apply Qlt_shift_div_r; [assumption|]. now rewrite <- E53. }
    assert (Qfloor x < 2 ^ 53)%Z as Hf53.
    { rewrite Zlt_Qlt. apply Qle_lt_trans with x; [apply Qfloor_le|assumption]. }
    lia.
  - rewrite Eabs. apply Qle_trans with ((1 # 2) * ulp)%Q.
    + apply Qmult_le_compat_r; [assumption|lra].
    + apply Qle_lteq. right. field.
  - intros H. apply Htie. rewrite Eabs in H.
    apply (Qmult_inj_r _ _ ulp); [lra|]. rewrite H. field.
  - unfold Machine.round64. fold a.
    destruct (Qeq_bool a 0) eqn:E0; [apply Qeq_bool_iff in E0; lra|]. reflexivity.
Qed.

(** ** The order of the numbers *)













Lemma Math_max_beyond argumentLimit vals :
  argumentLimit < length vals -> Machine.Math_max argumentLimit vals = RangeError.
Proof.
  intros H. unfold Machine.Math_max. now destruct (Nat.ltb_spec argumentLimit (length vals)); [|lia].
Qed.

Lemma Math_min_beyond argumentLimit vals :
  argumentLimit < length vals -> Machine.Math_min argumentLimit vals = RangeError.
Proof.
  intros H. unfold Machine.Math_min. now destruct (Nat.ltb_spec argumentLimit (length vals)); [|lia].
Qed.

(** The values that are not finite, and the zero that a small negative
    value rounds to. *)
Example machine_numbers :
  Machine.add (Machine.Infinity false) (Machine.Infinity true) = Machine.NaN
  /\ Machine.mul (Machine.Infinity true) (Machine.Num 0) = Machine.NaN
  /\ Machine.div (Machine.Num 1) (Machine.Num 0) = Machine.Infinity false
  /\ Machine.div (Machine.Num 0) (Machine.Num 0) = Machine.NaN
  /\ Machine.max2 (Machine.Num 1) Machine.NaN = Machine.NaN
  /\ Machine.max2 (Machine.Num 1) (Machine.Infinity false) = Machine.Infinity false
  /\ Machine.Math_max 10 [] = Ok (Machine.Infinity true)
  /\ Machine.toFixed1 (Machine.mul (Machine.Infinity false) (Machine.Num 100)) = Digits "Infinity"
  /\ Machine.toFixed1 Machine.NaN = Digits "NaN"
  /\ Machine.toFixed1 (decimalNumber (-4) 2) = Digits "-0.0"
  /\ Machine.toFixed1 (decimalNumber 25 2) = Digits "0.3"
  /\ Machine.toFixed1 (decimalNumber 15 2) = Digits "0.1".
Proof. vm_compute. repeat split; reflexivity. Qed.

(** ** [toFixed(1)] *)




(** ** The Stats Summarizer on the machine *)

Lemma machine_calculateStats_within argumentLimit dataset first final :
  head dataset = Some first -> last dataset = Some final ->
  length dataset <= argumentLimit ->
  Machine.calculateStats argumentLimit dataset
  = Ok (Some (Stats.mk
                (Machine.toFixed1 (percentage (machineMean (map Machine.Norm.mobility dataset))))
                (Machine.toFixed1
                   (percentage (fold_left Machine.max2 (map Machine.Norm.stay dataset)
                                  (Machine.Infinity true))))
                (length dataset) (Machine.Norm.ds first) (Machine.Norm.ds final))).
Proof.
  intros Hfirst Hlast Hlen. unfold Machine.calculateStats, Machine.Math_max.
  rewrite head_lookup in Hfirst. rewrite last_lookup, <- Nat.sub_1_r in Hlast.
  destruct dataset as [|p rest]; [discriminate|].
  cbn [length Nat.eqb].
  destruct (Nat.ltb_spec argumentLimit (length (map Machine.Norm.stay (p :: rest)))) as [H|_];
    [rewrite List.length_map in H; lia|].
  cbn [mbind outcome_bind]. rewrite Hfirst. cbn [mbind outcome_bind unwrap].
  cbn [length] in Hlast. rewrite Hlast. cbn [mbind outcome_bind unwrap].
  unfold percentage, machineMean, Machine.reduce_add. rewrite List.length_map. reflexivity.
Qed.

Lemma machine_calculateStats_beyond argumentLimit dataset :
  argumentLimit < length dataset -> Machine.calculateStats argumentLimit dataset = RangeError.
Proof.
  intros H. unfold Machine.calculateStats.
  destruct dataset as [|p rest]; [simpl in H; lia|]. cbn [length Nat.eqb].
  rewrite Math_max_beyond by now rewrite List.length_map. reflexivity.
Qed.

Lemma machine_calculateRegionAsAggregate_within argumentLimit dataset regionName :
  length dataset <= argumentLimit ->
  exists o, Machine.calculateRegionAsAggregate argumentLimit dataset regionName = Ok o.
Proof.
  intros H. unfold Machine.calculateRegionAsAggregate, Machine.Math_min, Machine.Math_max.
  destruct (Nat.eqb (length dataset) 0); [now eexists|]. rewrite !List.length_map.
  destruct (Nat.ltb_spec argumentLimit (length dataset)) as [H'|_]; [lia|].
  eexists. reflexivity.
Qed.

Lemma machine_calculateRegionAsAggregate_beyond argumentLimit dataset regionName :
  argumentLimit < length dataset ->
  Machine.calculateRegionAsAggregate argumentLimit dataset regionName = RangeError.
Proof.
  intros H. unfold Machine.calculateRegionAsAggregate.
  destruct dataset as [|p rest]; [simpl in H; lia|]. cbn [length Nat.eqb].
  rewrite Math_min_beyond by now rewrite List.length_map. reflexivity.
Qed.

Lemma exactSeries_ds series : forall exact,
  exactSeries series = Some exact -> map Norm.ds exact = map Machine.Norm.ds series.
Proof.
  induction series as [|p series IH]; intros exact H; simpl in H.
  - now injection H as <-.
  - destruct (exactPoint p) as [q|] eqn:Ep; [|discriminate].
    destruct (exactSeries series) as [qs|]; [|discriminate]. injection H as <-.
    simpl. rewrite (IH qs eq_refl). f_equal.
    unfold exactPoint in Ep.
    destruct (Machine.Norm.mobility p); try discriminate.
    destruct (Machine.Norm.stay p); try discriminate. now injection Ep as <-.
Qed.

Lemma head_map {A B} (f : A -> B) l a : head l = Some a -> head (map f l) = Some (f a).
Proof. destruct l; [discriminate|]. now intros [= ->]. Qed.

Lemma last_map {A B} (f : A -> B) l a : last l = Some a -> last (map f l) = Some (f a).
Proof.
  intros H. apply last_Some in H as [l' ->]. rewrite map_app. apply (last_snoc (f a)).
Qed.

(** The two embeddings of the summarizer agree on what does not depend on
    the arithmetic: on a series of finite numbers within the argument limit
    both return [null], or both a result with the same [count], [start] and
    [end]. *)
Lemma calculateStats_embeddings_agree argumentLimit series exact :
  exactSeries series = Some exact -> length series <= argumentLimit ->
  (series = [] /\ Machine.calculateStats argumentLimit series = Ok None
   /\ calculateStats exact = Ok None)
  \/ exists st st',
       Machine.calculateStats argumentLimit series = Ok (Some st)
       /\ calculateStats exact = Ok (Some st')
       /\ Stats.count st = Stats.count st'
       /\ Stats.start st = Stats.start st'
       /\ Stats.end_ st = Stats.end_ st'.
Proof.
  intros Hexact Hlen. pose proof (exactSeries_ds _ _ Hexact) as Hds.
  destruct series as [|p rest] eqn:E.
  { left. injection Hexact as <-. repeat split. }
  right. rewrite <- E in *.
  assert (length exact = length series) as Hl.
  { rewrite <- (List.length_map Norm.ds), Hds. apply List.length_map. }
  destruct (head series) as [first|] eqn:Hf; [|subst; discriminate].
  destruct (last series) as [final|] eqn:Hz; [|apply last_None in Hz; congruence].
  destruct (head exact) as [first'|] eqn:Hf';
    [|destruct exact; [subst; discriminate|discriminate]].
  destruct (last exact) as [final'|] eqn:Hz';
    [|apply last_None in Hz'; subst; discriminate].
  rewrite (machine_calculateStats_within _ _ _ _ Hf Hz Hlen),
    (calculateStats_Some _ _ _ Hf' Hz').
  eexists _, _. split; [reflexivity|]. split; [reflexivity|]. cbn.
  apply (head_map Norm.ds) in Hf'. apply (last_map Norm.ds) in Hz'.
  apply (head_map Machine.Norm.ds) in Hf. apply (last_map Machine.Norm.ds) in Hz.
  rewrite Hds in Hf', Hz'. split; [now symmetry|]. split; congruence.
Qed.


(** Next to a rounding boundary.  The binary64 value nearest to [0.0045]
    lies below it and so does its product by 100, shown as [0.4]; the
    product of [-0.1235] by 100 is the binary64 value next below [12.35] in
    size.  The binary64 value nearest to [0.0015] lies above it, but its
    product by 100 rounds to the binary64 value below [0.15], shown as
    [0.1]; likewise [0.0065] lies below and its percentage is shown as
    [0.7]. *)
Example calculateStats_boundary :
  Machine.calculateStats 100 boundarySeries
  = Ok (Some (Stats.mk (Digits "-12.3") (Digits "0.4") 1 "2020-01-01" "2020-01-01"))
  /\ Machine.calculateStats 100 writtenSeries = Machine.calculateStats 100 boundarySeries
  /\ Machine.calculateStats 100 productSeries
     = Ok (Some (Stats.mk (Digits "0.7") (Digits "0.1") 1 "2020-01-01" "2020-01-01")).
Proof. vm_compute. repeat split; reflexivity. Qed.

Example calculateStats_machineSeries :
  Machine.calculateStats 100 machineSeries
  = Ok (Some (Stats.mk (Digits "20.0") (Digits "70.0") 3 "2020-01-02" "2020-01-01")).
Proof. vm_compute. reflexivity. Qed.


(** The rounding agrees with the binary64 operations of the Standard
    Library: on a quotient, a product, a sum, an overflow and a tie between
    zero and the least positive value. *)
Example round64_reference :
  ofSpecFloat (SpecFloat.SFdiv 53 1024 (referenceZ 45) (referenceZ 10000)) = decimalNumber 45 4
  /\ ofSpecFloat (SpecFloat.SFmul 53 1024 (SpecFloat.SFdiv 53 1024 (referenceZ 45) (referenceZ 10000)) (referenceZ 100))
     = percentage (decimalNumber 45 4)
  /\ ofSpecFloat (SpecFloat.SFmul 53 1024 (SpecFloat.SFdiv 53 1024 (referenceZ (-1235)) (referenceZ 10000)) (referenceZ 100))
     = percentage (decimalNumber (-1235) 4)
  /\ ofSpecFloat (SpecFloat.SFadd 53 1024 (SpecFloat.SFdiv 53 1024 (referenceZ 1) (referenceZ 10))
                    (SpecFloat.SFdiv 53 1024 (referenceZ 2) (referenceZ 10)))
     = Machine.add (decimalNumber 1 1) (decimalNumber 2 1)
  /\ ofSpecFloat (SpecFloat.SFdiv 53 1024 (referenceZ 1) (referenceZ 3))
     = Machine.div (Machine.Num 1) (Machine.Num 3)
  /\ ofSpecFloat (SpecFloat.SFmul 53 1024 (referenceZ (2 ^ 1023)) (referenceZ 2))
     = Machine.mul (Machine.Num (inject_Z (2 ^ 1023)%Z)) (Machine.Num 2)
  /\ ofSpecFloat (SpecFloat.SFdiv 53 1024 (SpecFloat.S754_finite false 1 (-1074)) (referenceZ 2))
     = Machine.div (Machine.Num (Machine.pow2 (-1074))) (Machine.Num 2).
Proof. vm_compute. repeat split; reflexivity. Qed.

(** ** Absence over exception *)

(** C8.  On empty or unmatched input no operation raises, as the claim has
    it: the aggregator returns a value on every input, [null] exactly when
    the country is empty or no record matches it; the normalizer returns a
    value on every input, the empty series whenever the country or the
    region selector is empty; the summary and the adapter of an empty
    series are [null].  Against the claim, the summarizer and the adapter
    raise on a series that is longer than the argument limit of the engine:
    [Math.max(...vals)] and [Math.min(...vals)] pass the whole series as
    call arguments.  Up to the limit both return a value. *)
Theorem C8_long_series_raise :
  (forall getTime data C,
     exists o, calculateCountryAggregates getTime data C = Ok o
               /\ (o = None <-> C = "" \/ ~ hasRecord data C))
  /\ (forall getTime data C R,
        (exists out, getNormalizedSeries getTime data C R = Ok out)
        /\ (C = "" \/ R = "" -> getNormalizedSeries getTime data C R = Ok []))
  /\ (forall argumentLimit regionName,
        Machine.calculateStats argumentLimit [] = Ok None
        /\ Machine.calculateRegionAsAggregate argumentLimit [] regionName = Ok None)
  /\ (forall argumentLimit dataset regionName,
        length dataset <= argumentLimit ->
        (exists o, Machine.calculateStats argumentLimit dataset = Ok o)
        /\ (exists o, Machine.calculateRegionAsAggregate argumentLimit dataset regionName = Ok o))
  /\ (forall argumentLimit dataset regionName,
        argumentLimit < length dataset ->
        Machine.calculateStats argumentLimit dataset = RangeError
        /\ Machine.calculateRegionAsAggregate argumentLimit dataset regionName = RangeError)
  /\ (forall getTime, calculateCountryAggregates getTime [] "X" = Ok None)
  /\ (forall getTime, getNormalizedSeries getTime [] "X" "A" = Ok []).
Proof.
  split; [|split; [|split; [|split; [|split; [|split]]]]].
  - intros getTime data C.
    destruct (String.eqb_spec C "") as [->|HC].
    { exists None. split; [reflexivity|]. split; [now left|reflexivity]. }
    destruct (hasRecord_dec data C) as [Hrec|Hno].
    + eexists. split.
      * apply calculateCountryAggregates_Some; [assumption|now apply countryRows_nonempty].
      * split; [discriminate|]. intros [E|Hn]; contradiction.
    + exists None. split; [|split; [now right|reflexivity]].
      apply calculateCountryAggregates_None. right.
      destruct (countryRows data C) eqn:E; [reflexivity|].
      exfalso. apply Hno, countryRows_nonempty. rewrite E. discriminate.
  - intros getTime data C R. split; [|apply getNormalizedSeries_empty].
    apply getNormalizedSeries_total.
  - intros argumentLimit regionName. split; reflexivity.
  - intros argumentLimit dataset regionName Hlen.
    split; [|now apply machine_calculateRegionAsAggregate_within].
    destruct dataset as [|p rest] eqn:E; [now exists None|]. rewrite <- E in *.
    destruct (last dataset) as [final|] eqn:Hlast;
      [|apply last_None in Hlast; congruence].
    eexists. apply (machine_calculateStats_within argumentLimit dataset p final);
      [now subst|assumption..].
  - intros argumentLimit dataset regionName Hlen.
    split; [now apply machine_calculateStats_beyond|
            now apply machine_calculateRegionAsAggregate_beyond].
  - reflexivity.
  - reflexivity.
Qed.

Lemma C8_long_series_raise_witness :
  Machine.calculateStats 2 machineSeries = RangeError
  /\ Machine.calculateRegionAsAggregate 2 machineSeries "A" = RangeError
  /\ (exists o, Machine.calculateStats 3 machineSeries = Ok o).
Proof.
  destruct C8_long_series_raise as (_ & _ & _ & Hwithin & Hbeyond & _).
  destruct (Hbeyond 2 machineSeries "A") as [Hstats Hadapter]; [simpl; lia|].
  destruct (Hwithin 3 machineSeries "A") as [Hok _]; [simpl; lia|].
  split; [exact Hstats|]. split; [exact Hadapter|exact Hok].
Defined.
